(** * Crowd-management backend: simulate, cluster, classify, persist, broadcast

    A shallow embedding of [backend/server.js] and of the [Zone] model it
    loads from [./models/Zone], with its validators and its virtual, and
    of the state transformations of [App], the component of the dashboard
    that reads the query endpoints and listens to the socket.

    JavaScript numbers are IEEE-754 binary64 values.  Every finite binary64
    value is a rational, so a number is modelled as a [Q] and every
    arithmetic operator of the source as the exact operation followed by
    [round64], rounding to nearest with ties to even on the binary64 grid
    (53 significant bits, smallest exponent -1074).  Quantities produced
    by [Math.floor] are integers and are kept in [Z].  Results that are
    [Infinity] or [NaN] (overflow, division by zero) lie outside the
    model: capacities are positive and far below 2^1024.

    The pipeline reads three things from its environment: the draws of
    [Math.random()], the clock behind [new Date()], and the database,
    whose operations may throw.  The clusters are those returned by the
    density-clustering package, a parameter of the development.

    The callback of the interval is an asynchronous function.  [tick] is
    that callback when it runs from its first line to its last with
    nothing in between; a [process] holds the callbacks that wait at an
    [await], and a schedule resumes them in any order among the ticks
    and the events of the sockets.  Every run of ticks is a schedule,
    and what a schedule stores or delivers is what a run of ticks stores
    or delivers.

    The file has four parts: the program, the vocabulary in which its
    properties are stated, the facts about binary64 rounding, and the
    properties themselves: first those of the pipeline from simulator to
    summary, then further ones on classification, readings, queries,
    subscribers and the dashboard.  At the end the rational model is
    compared with the floating-point unit of the processor on the inputs
    quoted in the properties and on the capacities of the registry. *)

From Stdlib Require Import ZArith QArith Qround Qabs Qpower Qminmax Lqa Lia.
From Stdlib Require Import Bool List String Ascii Permutation Sorted.
From Stdlib Require PrimFloat FloatOps SpecFloat Uint63.
Import ListNotations.

Local Open Scope Z_scope.

(** ** Binary64 arithmetic *)

Module Binary64.

Local Open Scope Q_scope.

(** [pow2 k] is 2^k for any integer exponent. *)
Definition pow2 (k : Z) : Q := 2 ^ k.

(** [Qlog2 x] is floor(log2 x) for a positive rational: the quotient of the
    bit lengths of numerator and denominator is off by at most one. *)
Definition Qlog2 (x : Q) : Z :=
  let k := (Z.log2 (Qnum x) - Z.log2 (Zpos (Qden x)))%Z in
  if Qle_bool (pow2 k) x then k else (k - 1)%Z.

(** Nearest integer, ties to the even one. *)
Definition rne (x : Q) : Z :=
  let f := Qfloor x in
  match Qcompare (x - inject_Z f) (1 # 2) with
  | Lt => f
  | Gt => (f + 1)%Z
  | Eq => if Z.even f then f else (f + 1)%Z
  end.

(** Exponent of the unit in the last place of the binade of [x]; the
    subnormal range shares the exponent -1074. *)
Definition ulp_exp (x : Q) : Z := Z.max (Qlog2 (Qabs x) - 52) (-1074).

(** Rounding of an exact result to binary64 (overflow to [Infinity], which
    needs a magnitude of 2^1024, lies outside the model). *)
Definition round64 (x : Q) : Q :=
  let e := ulp_exp x in inject_Z (rne (x / pow2 e)) * pow2 e.

Definition fadd (a b : Q) : Q := round64 (a + b).
Definition fmul (a b : Q) : Q := round64 (a * b).
Definition fdiv (a b : Q) : Q := round64 (a / b).

(** A rational is a binary64 value when rounding leaves it unchanged. *)
Definition is_double (x : Q) : Prop := round64 x == x.

End Binary64.

Import Binary64.

(** A decimal literal of the source denotes the nearest binary64 value;
    integer literals below 2^53 are exact and are written as they are. *)
Definition lit (q : Q) : Q := round64 q.

(** The comparison [a > b] on numbers. *)
Definition Qgt_bool (a b : Q) : bool := negb (Qle_bool a b).

(** ** Data model *)

(** An entry of the [ZONES] table. *)
Module ZoneConfig.
Record t := { id : string; name : string; capacity : Z }.
End ZoneConfig.

(** The objects returned by [generateNetworkActivity]. *)
Module Signal.
Record t := {
  zoneId : string;
  zoneName : string;
  population : Z;
  capacity : Z;
  coordinates : Q * Q
}.
End Signal.

(** The [status] enumeration of the schema. *)
Inductive Status := normal | moderate | overcrowded.

Definition Status_eqb (a b : Status) : bool :=
  match a, b with
  | normal, normal | moderate, moderate | overcrowded, overcrowded => true
  | _, _ => false
  end.

(** Campus zones configuration. *)
Definition ZONES : list ZoneConfig.t :=
  [ {| ZoneConfig.id := "AB1"; ZoneConfig.name := "AB1"; ZoneConfig.capacity := 5880 |};
    {| ZoneConfig.id := "AB2"; ZoneConfig.name := "AB2"; ZoneConfig.capacity := 250 |};
    {| ZoneConfig.id := "AB3"; ZoneConfig.name := "AB3"; ZoneConfig.capacity := 5880 |};
    {| ZoneConfig.id := "AB4"; ZoneConfig.name := "AB4"; ZoneConfig.capacity := 5880 |};
    {| ZoneConfig.id := "Library"; ZoneConfig.name := "Library"; ZoneConfig.capacity := 300 |};
    {| ZoneConfig.id := "Admin"; ZoneConfig.name := "Admin Block"; ZoneConfig.capacity := 250 |};
    {| ZoneConfig.id := "North"; ZoneConfig.name := "North Square"; ZoneConfig.capacity := 200 |};
    {| ZoneConfig.id := "Gazebo"; ZoneConfig.name := "Gazebo"; ZoneConfig.capacity := 200 |};
    {| ZoneConfig.id := "MBA"; ZoneConfig.name := "MBA Amphitheater"; ZoneConfig.capacity := 150 |} ]%string.

(** ** The activity simulator *)

(** [Math.random()] is the only effect of the simulator.  The source of
    randomness is a stream of draws; a computation threads the number of
    draws consumed so far. *)
Definition Draw (A : Type) : Type := nat -> A * nat.

Definition ret {A} (a : A) : Draw A := fun k => (a, k).

Definition bind {A B} (m : Draw A) (f : A -> Draw B) : Draw B :=
  fun k => let (a, k') := m k in f a k'.

Notation "x <- m ;; f" := (bind m (fun x => f))
  (at level 61, m at next level, right associativity).

Fixpoint mapM {A B} (f : A -> Draw B) (l : list A) : Draw (list B) :=
  match l with
  | [] => ret []
  | a :: l' => b <- f a ;; bs <- mapM f l' ;; ret (b :: bs)
  end.

Section Simulator.

(** The successive results of [Math.random()]. *)
Variable random : nat -> Q.

Definition Math_random : Draw Q := fun k => (random k, S k).

(** The body of the [ZONES.map] callback. *)
Definition simulate (zone : ZoneConfig.t) : Draw Signal.t :=
  let basePopulation := fmul (inject_Z (ZoneConfig.capacity zone)) (lit 0.3) in
  r <- Math_random ;;
  let variance := fmul (fmul r (inject_Z (ZoneConfig.capacity zone))) (lit 0.5) in
  let population := Qfloor (fadd basePopulation variance) in
  rx <- Math_random ;;
  let x := fmul rx 100 in
  ry <- Math_random ;;
  let y := fmul ry 100 in
  ret {| Signal.zoneId := ZoneConfig.id zone;
         Signal.zoneName := ZoneConfig.name zone;
         Signal.population := population;
         Signal.capacity := ZoneConfig.capacity zone;
         Signal.coordinates := (x, y) |}.

Definition generateNetworkActivity : Draw (list Signal.t) := mapM simulate ZONES.

End Simulator.

(** ** The [Zone] model: documents of the time series *)

Module Zone.

(** The fields of the schema (the identifier and the bookkeeping dates
    that the database adds to a document are left out). *)
Record t := {
  zoneId : string;
  zoneName : string;
  population : Z;
  density : Z;
  cluster : Z;
  capacity : Z;
  status : Status;
  timestamp : Z
}.

Definition isOvercrowded (this : t) : bool := Status_eqb (status this) overcrowded.

(** A row of the [$group] stage: the zone id becomes the key [_id]. *)
Record group := {
  _id : string;
  g_zoneName : string;
  g_population : Z;
  g_density : Z;
  g_cluster : Z;
  g_capacity : Z;
  g_status : Status;
  g_timestamp : Z
}.

(** [$first] of every field of a document. *)
Definition first (d : t) : group :=
  {| _id := zoneId d; g_zoneName := zoneName d; g_population := population d;
     g_density := density d; g_cluster := cluster d; g_capacity := capacity d;
     g_status := status d; g_timestamp := timestamp d |}.

(** [$sort]: insertion into a list ordered by [before]. *)
Fixpoint insert (before : t -> t -> bool) (d : t) (l : list t) : list t :=
  match l with
  | [] => [d]
  | x :: l' => if before x d then x :: insert before d l' else d :: x :: l'
  end.

Definition sort (before : t -> t -> bool) (l : list t) : list t :=
  fold_right (insert before) [] l.

(** [{ timestamp: -1 }] and [{ timestamp: 1 }]. *)
Definition descending (a b : t) : bool := (timestamp b <=? timestamp a)%Z.
Definition ascending (a b : t) : bool := (timestamp a <=? timestamp b)%Z.

(** [$group] by [zoneId] with [$first] accumulators: the first document
    of every key in the order of the incoming stream. *)
Fixpoint group_first (seen : list string) (l : list t) : list t :=
  match l with
  | [] => []
  | d :: l' =>
      if existsb (String.eqb (zoneId d)) seen then group_first seen l'
      else d :: group_first (zoneId d :: seen) l'
  end.

(** The validators that the schema attaches to the paths of a document
    and that Mongoose runs before an insertion.  [required: true] on a
    string path: the value is not empty. *)
Definition required (value : string) : bool := negb (String.eqb value "").

(** [min: 0] on a number path. *)
Definition min (bound value : Z) : bool := bound <=? value.

(** The paths [cluster] and [capacity] are required numbers and [status]
    is one of the three values of the enumeration: a reading always
    satisfies these. *)
Definition validate (d : t) : bool :=
  required (zoneId d) && required (zoneName d)
  && min 0 (population d) && min 0 (density d).

(** What an insertion throws: the [ValidationError] of Mongoose, whose
    message names the paths that failed, or the error of the database. *)
Inductive error :=
| ValidationError
| MongoError (message : string).

(** A collection is the list of its documents in insertion order.  A
    database operation either completes or throws; [fault] is the error
    it throws, if any.  [insertMany] validates every document first and
    sends nothing to the database when one of them fails. *)
Definition insertMany (fault : option string) (docs coll : list t)
  : error + list t :=
  if forallb validate docs then
    match fault with
    | Some e => inl (MongoError e)
    | None => inr (coll ++ docs)
    end
  else inl ValidationError.

Definition getLatestData (fault : option string) (coll : list t)
  : string + list group :=
  match fault with
  | Some e => inl e
  | None => inr (map first (group_first [] (sort descending coll)))
  end.

(** The aggregation of [GET /api/summary] keeps two fields only. *)
Record brief := { b_id : string; b_population : Z; b_status : Status }.

Definition first_brief (d : t) : brief :=
  {| b_id := zoneId d; b_population := population d; b_status := status d |}.

Definition getLatestBrief (fault : option string) (coll : list t)
  : string + list brief :=
  match fault with
  | Some e => inl e
  | None => inr (map first_brief (group_first [] (sort descending coll)))
  end.

Definition getZoneHistory (fault : option string) (coll : list t)
    (now : Z) (zoneId' : string) (minutes : Z) : string + list t :=
  match fault with
  | Some e => inl e
  | None =>
      let cutoffTime := (now - minutes * 60 * 1000)%Z in
      inr (sort ascending
             (filter (fun d => String.eqb (zoneId d) zoneId'
                               && (cutoffTime <=? timestamp d)%Z) coll))
  end.

End Zone.

(** ** Clustering and classification *)

(** [Math.floor((population / capacity) * 120)]. *)
Definition density_of (population capacity : Z) : Z :=
  Qfloor (fmul (fdiv (inject_Z population) (inject_Z capacity)) 120).

(** The crowd status from [percentage = (population / capacity) * 100]. *)
Definition status_of (population capacity : Z) : Status :=
  let percentage := fmul (fdiv (inject_Z population) (inject_Z capacity)) 100 in
  if Qgt_bool percentage 85 then overcrowded
  else if Qgt_bool percentage 60 then moderate
  else normal.

(** [cluster.includes(idx)]. *)
Definition includes (cluster : list nat) (idx : nat) : bool :=
  existsb (Nat.eqb idx) cluster.

(** The [clusters.forEach] loop: the index of the last cluster that
    includes [idx] overwrites [clusterId]. *)
Fixpoint forEach_cluster (clusters : list (list nat)) (clusterIdx : Z)
    (idx : nat) (clusterId : Z) : Z :=
  match clusters with
  | [] => clusterId
  | cluster :: rest =>
      forEach_cluster rest (clusterIdx + 1) idx
        (if includes cluster idx then clusterIdx else clusterId)
  end.

(** [clusterId === -1 ? 0 : clusterId + 1]. *)
Definition cluster_of (clusters : list (list nat)) (idx : nat) : Z :=
  let clusterId := forEach_cluster clusters 0 idx (-1) in
  if (clusterId =? -1)%Z then 0 else clusterId + 1.

(** [Array.prototype.map] with the element index. *)
Fixpoint mapi_from {A B} (f : A -> nat -> B) (idx : nat) (l : list A) : list B :=
  match l with
  | [] => []
  | a :: l' => f a idx :: mapi_from f (S idx) l'
  end.

Definition mapi {A B} (f : A -> nat -> B) (l : list A) : list B := mapi_from f 0 l.

Section Clustering.

(** [dbscan.run(dataset, epsilon, minPts)] of the density-clustering
    package: the clusters, each a list of indices into the dataset. *)
Variable dbscan_run : list (Q * Q) -> Q -> Z -> list (list nat).

(** The value of [new Date()] while element [idx] is mapped. *)
Variable Date_now : nat -> Z.

Definition applyDBSCAN (zoneData : list Signal.t) : list Zone.t :=
  let coordinates := map Signal.coordinates zoneData in
  let clusters := dbscan_run coordinates 30 2 in
  mapi (fun zone idx =>
          {| Zone.zoneId := Signal.zoneId zone;
             Zone.zoneName := Signal.zoneName zone;
             Zone.population := Signal.population zone;
             Zone.density := density_of (Signal.population zone) (Signal.capacity zone);
             Zone.cluster := cluster_of clusters idx;
             Zone.capacity := Signal.capacity zone;
             Zone.status := status_of (Signal.population zone) (Signal.capacity zone);
             Zone.timestamp := Date_now idx |})
       zoneData.

End Clustering.

(** ** The server *)

(** A string holds the code units of its UTF-8 encoding; the lines of
    the console open with an emoji, given by its code units. *)
Definition utf8 (units : list nat) (text : string) : string :=
  fold_right (fun unit s => String (ascii_of_nat unit) s) text units.

Module Message.
Definition generating : string :=
  utf8 [240; 159; 148; 132]%nat " Generating new crowd data...".
Definition saved : string :=
  utf8 [240; 159; 147; 138]%nat " Zone data saved to MongoDB".
Definition error_saving : string :=
  utf8 [226; 157; 140]%nat " Error saving zone data:".
Definition broadcasted : string :=
  utf8 [226; 156; 133]%nat " Data broadcasted to clients".
Definition client_connected : string :=
  utf8 [240; 159; 145; 164]%nat " Client connected:".
Definition client_disconnected : string :=
  utf8 [240; 159; 145; 139]%nat " Client disconnected:".
End Message.

(** [console.log(message)], [console.log(message, socket.id)] and
    [console.error(message, error)]. *)
Inductive console_line :=
| console_log (message : string)
| console_log_id (message : string) (id : nat)
| console_error (message : string) (error : Zone.error).

(** What one run of the pipeline reads from its environment: the random
    draws, the clock, and the error thrown by the database, if any. *)
Record environment := {
  random : nat -> Q;
  Date_now : nat -> Z;
  fault : option string
}.

(** How an asynchronous function ends: its promise is fulfilled, or it
    is rejected with what the function threw. *)
Inductive outcome :=
| fulfilled
| rejected (reason : Zone.error).

(** The state of the server: the collection of the database, the
    connected sockets, every event emitted so far with the socket that
    received it, and the console. *)
Record server := {
  collection : list Zone.t;
  sockets : list nat;
  emitted : list (nat * list Zone.t);
  console : list console_line
}.

Definition log (line : console_line) (s : server) : server :=
  {| collection := collection s; sockets := sockets s;
     emitted := emitted s; console := console s ++ [line] |}.

(** [io.emit('zoneUpdate', data)]: to every connected socket. *)
Definition io_emit (data : list Zone.t) (s : server) : server :=
  {| collection := collection s; sockets := sockets s;
     emitted := emitted s ++ map (fun socket => (socket, data)) (sockets s);
     console := console s |}.

(** [socket.emit('zoneUpdate', data)]: to this socket only. *)
Definition socket_emit (socket : nat) (data : list Zone.t) (s : server) : server :=
  {| collection := collection s; sockets := sockets s;
     emitted := emitted s ++ [(socket, data)];
     console := console s |}.

Section Server.

Variable dbscan_run : list (Q * Q) -> Q -> Z -> list (list nat).

(** One run of simulator, clusterer and classifier. *)
Definition snapshot (env : environment) : list Zone.t :=
  let networkData := fst (generateNetworkActivity (random env) 0%nat) in
  applyDBSCAN dbscan_run (Date_now env) networkData.

(** [saveZoneData] from the moment [Zone.insertMany] settles: the
    insertion takes effect, or its error is caught and logged.  Either
    way the function returns: its promise is fulfilled. *)
Definition saveZoneData (fault : option string) (zoneData : list Zone.t)
    (s : server) : server * outcome :=
  match Zone.insertMany fault zoneData (collection s) with
  | inr coll =>
      (log (console_log Message.saved)
         {| collection := coll; sockets := sockets s;
            emitted := emitted s; console := console s |},
       fulfilled)
  | inl error => (log (console_error Message.error_saving error) s, fulfilled)
  end.

(** The callback of [setInterval] from [await saveZoneData(clusteredData)]
    on.  It has no handler of its own: were the awaited promise rejected,
    the callback would throw at the [await] and be rejected itself. *)
Definition resume (awaited : outcome) (clusteredData : list Zone.t) (s : server)
  : server * outcome :=
  match awaited with
  | fulfilled =>
      (log (console_log Message.broadcasted) (io_emit clusteredData s), fulfilled)
  | rejected reason => (s, rejected reason)
  end.

(** The callback of [setInterval] in [startRealTimeUpdates], when nothing
    else runs while it waits. *)
Definition tick (env : environment) (s : server) : server :=
  let s := log (console_log Message.generating) s in
  let clusteredData := snapshot env in
  let (s, saving) := saveZoneData (fault env) clusteredData s in
  fst (resume saving clusteredData s).

(** The handler of ['requestUpdate'] on a socket. *)
Definition requestUpdate (socket : nat) (env : environment) (s : server) : server :=
  let clusteredData := snapshot env in
  socket_emit socket clusteredData s.

(** The events the server reacts to. *)
Inductive event :=
| Interval (env : environment)
| Connection (socket : nat)
| Disconnect (socket : nat)
| RequestUpdate (socket : nat) (env : environment).

Definition step (s : server) (e : event) : server :=
  match e with
  | Interval env => tick env s
  | Connection socket =>
      log (console_log_id Message.client_connected socket)
        {| collection := collection s; sockets := sockets s ++ [socket];
           emitted := emitted s; console := console s |}
  | Disconnect socket =>
      log (console_log_id Message.client_disconnected socket)
        {| collection := collection s;
           sockets := filter (fun k => negb (Nat.eqb k socket)) (sockets s);
           emitted := emitted s; console := console s |}
  | RequestUpdate socket env => requestUpdate socket env s
  end.

Definition run (s : server) (events : list event) : server :=
  fold_left step events s.

(** The callbacks of [setInterval] are asynchronous functions.  One
    runs up to [await Zone.insertMany(zoneData)] inside [saveZoneData]
    when the interval elapses, goes on inside [saveZoneData] when the
    insertion settles, and goes on after [await saveZoneData(...)] when
    that promise has settled.  Between these moments other callbacks and
    the handlers of the sockets run. *)
Inductive callback :=
| awaits_insertMany (zoneData : list Zone.t) (fault : option string)
| awaits_saveZoneData (clusteredData : list Zone.t) (saving : outcome)
| settled (promise : outcome).

(** The server and the callback of every tick so far, in the order of
    the ticks. *)
Record process := {
  state : server;
  callbacks : list callback
}.

Fixpoint replace (k : nat) (c : callback) (l : list callback) : list callback :=
  match l, k with
  | [], _ => []
  | _ :: l', O => c :: l'
  | x :: l', S k' => x :: replace k' c l'
  end.

(** What happens in the process: the interval elapses, the callback of
    tick [k] is resumed, or an event of a socket is handled. *)
Inductive occurrence :=
| Elapsed (env : environment)
| Resumed (k : nat)
| Connected (socket : nat)
| Disconnected (socket : nat)
| Requested (socket : nat) (env : environment).

Definition advance (p : process) (o : occurrence) : process :=
  let s := state p in
  match o with
  | Elapsed env =>
      {| state := log (console_log Message.generating) s;
         callbacks :=
           callbacks p ++ [awaits_insertMany (snapshot env) (fault env)] |}
  | Resumed k =>
      match nth_error (callbacks p) k with
      | Some (awaits_insertMany zoneData fault) =>
          let (s, saving) := saveZoneData fault zoneData s in
          {| state := s;
             callbacks := replace k (awaits_saveZoneData zoneData saving) (callbacks p) |}
      | Some (awaits_saveZoneData clusteredData saving) =>
          let (s, promise) := resume saving clusteredData s in
          {| state := s; callbacks := replace k (settled promise) (callbacks p) |}
      | Some (settled _) | None => p
      end
  | Connected socket =>
      {| state := step s (Connection socket); callbacks := callbacks p |}
  | Disconnected socket =>
      {| state := step s (Disconnect socket); callbacks := callbacks p |}
  | Requested socket env =>
      {| state := step s (RequestUpdate socket env); callbacks := callbacks p |}
  end.

Definition advance_all (p : process) (schedule : list occurrence) : process :=
  fold_left advance schedule p.

End Server.

(** ** The query endpoints *)

(** A response is the JSON body sent with status 200, or the error message
    sent with status 500 from the [catch] block. *)
Inductive response (body : Type) :=
| success (data : body)
| failure (error : string).
Arguments success {body} data.
Arguments failure {body} error.

(** [GET /api/zones]. *)
Definition api_zones (fault : option string) (coll : list Zone.t)
  : response (list Zone.group) :=
  match Zone.getLatestData fault coll with
  | inr zones => success zones
  | inl error => failure error
  end.

(** [GET /api/history/:zoneId], with its window of fifteen minutes; the
    body carries [zoneId], [data] and [count]. *)
Definition api_history (fault : option string) (coll : list Zone.t)
    (now : Z) (zoneId : string) : response (string * list Zone.t * nat) :=
  match Zone.getZoneHistory fault coll now zoneId 15 with
  | inr history => success (zoneId, history, List.length history)
  | inl error => failure error
  end.

(** The summary of [GET /api/summary]. *)
Record summary := {
  totalPopulation : Q;
  activeZones : nat;
  overcrowdedZones : nat;
  totalZones : nat
}.

(** [latestZones.reduce((sum, z) => sum + z.population, 0)]. *)
Definition reduce_population (latestZones : list Zone.brief) : Q :=
  fold_left (fun sum z => fadd sum (inject_Z (Zone.b_population z))) latestZones 0%Q.

Definition summarize (latestZones : list Zone.brief) : summary :=
  {| totalPopulation := reduce_population latestZones;
     activeZones :=
       List.length
         (filter (fun z => Qgt_bool (inject_Z (Zone.b_population z)) 0) latestZones);
     overcrowdedZones :=
       List.length
         (filter (fun z => Status_eqb (Zone.b_status z) overcrowded) latestZones);
     totalZones := List.length ZONES |}.

Definition api_summary (fault : option string) (coll : list Zone.t)
  : response summary :=
  match Zone.getLatestBrief fault coll with
  | inr latestZones => success (summarize latestZones)
  | inl error => failure error
  end.

(** ** The virtual of the [Zone] schema *)

(** The subtraction [a - b] on numbers. *)
Definition fsub (a b : Q) : Q := round64 (a - b).

(** [Number.prototype.toFixed], which the schema and the dashboard use
    to print percentages. *)
Module Number.

(** The code unit of the digit [d], from 0 to 9. *)
Definition digit (d : Z) : ascii := ascii_of_nat (48 + Z.to_nat d).

(** The digits of the decimal representation of a non-negative integer,
    in order, with no leading zeros; [fuel] bounds their number. *)
Fixpoint digits (fuel : nat) (n : Z) : string :=
  match fuel with
  | O => ""
  | S fuel' =>
      if n <? 10 then String (digit n) ""
      else (digits fuel' (n / 10) ++ String (digit (n mod 10)) "")%string
  end.

Definition decimal (n : Z) : string := digits (S (Z.to_nat (Z.log2 n))) n.

(** [k] occurrences of the code unit 0x0030. *)
Fixpoint zeros (k : nat) : string :=
  match k with
  | O => ""
  | S k' => String "0" (zeros k')
  end.

(** [x.toFixed(fractionDigits)] for a finite [x] of magnitude below 10^21
    and at most 100 fraction digits.  Beyond, the method answers in
    exponent notation or throws a RangeError: both lie outside the model
    and give [None]. *)
Definition toFixed (x : Q) (fractionDigits : nat) : option string :=
  let f := fractionDigits in
  let negative := negb (Qle_bool 0 x) in
  let s := if negative then "-"%string else ""%string in
  let x := if negative then (- x)%Q else x in
  if Qle_bool (10 ^ 21) x || (100 <? f)%nat then None
  else
    (* the integer n for which n / 10^f - x is as close to zero as
       possible, the larger one of two *)
    let n := Qfloor (x * 10 ^ Z.of_nat f + (1 # 2))%Q in
    let m := decimal n in
    let m :=
      if (f =? 0)%nat then m
      else
        let k := String.length m in
        let m := if (k <=? f)%nat then (zeros (f + 1 - k) ++ m)%string else m in
        let k := if (k <=? f)%nat then (f + 1)%nat else k in
        let a := substring 0 (k - f) m in
        let b := substring (k - f) f m in
        (a ++ "." ++ b)%string in
    Some (s ++ m)%string.

End Number.


(** ** The dashboard *)

(** The component [App] of the frontend, as the transformations of its
    state: the initial fetch over the two query endpoints, the handler of
    the ['zoneUpdate'] event of the socket, the effect that recomputes the
    forecast, and the flow trend shown on a card.  The clock and the
    connection indicator of the header are left out. *)
Module App.


(** An element of the [zones] state. *)
Module ZoneCard.
Record t := {
  id : string;
  name : string;
  population : Z;
  density : Z;
  cluster : Z;
  capacity : Z;
  status : Status
}.
End ZoneCard.

(** An element of [trendData] and of [forecastData]. *)
Module Point.
Record t := { time : string; population : Q }.
End Point.

(** The [summary] state; [avgDensity] holds the result of [Math.floor],
    which is [NaN], here [None], for an update without readings. *)
Module Summary.
Record t := {
  totalPopulation : Q;
  activeZones : nat;
  avgDensity : option Z;
  flowTrend : Q
}.
End Summary.

Record state := {
  zones : list ZoneCard.t;
  trendData : list Point.t;
  forecastData : list Point.t;
  summary : Summary.t
}.

(** The arguments of the [useState] calls. *)
Definition initial : state :=
  {| zones := []; trendData := []; forecastData := [];
     summary := {| Summary.totalPopulation := 0; Summary.activeZones := 0;
                   Summary.avgDensity := Some 0; Summary.flowTrend := 0 |} |}.


(** The card of a reading pushed over the socket. *)
Definition of_reading (z : Zone.t) : ZoneCard.t :=
  {| ZoneCard.id := Zone.zoneId z; ZoneCard.name := Zone.zoneName z;
     ZoneCard.population := Zone.population z; ZoneCard.density := Zone.density z;
     ZoneCard.cluster := Zone.cluster z; ZoneCard.capacity := Zone.capacity z;
     ZoneCard.status := Zone.status z |}.



(** The updater of [setTrendData]: at most twelve points are kept. *)
Definition push (prev : list Point.t) (point : Point.t) : list Point.t :=
  let newData := prev in
  let newData := if (12 <=? List.length newData)%nat then tl newData else newData in
  newData ++ [point].

(** [data.reduce((sum, z) => sum + z.population, 0)]. *)
Definition totalPop (data : list Zone.t) : Q :=
  fold_left (fun sum z => fadd sum (inject_Z (Zone.population z))) data 0%Q.

(** [Math.floor(data.reduce((sum, z) => sum + z.density, 0) / data.length)]. *)
Definition avgDensity (data : list Zone.t) : option Z :=
  match data with
  | [] => None
  | _ :: _ =>
      Some (Qfloor (fdiv (fold_left (fun sum z => fadd sum (inject_Z (Zone.density z)))
                            data 0%Q)
                         (inject_Z (Z.of_nat (List.length data)))))
  end.

(** The callback of [subscribeToZoneUpdates]; [time] is the label that
    [toLocaleTimeString] gives the moment of the update. *)
Definition zoneUpdate (data : list Zone.t) (time : string) (st : state) : state :=
  {| zones := map of_reading data;
     trendData :=
       push (trendData st) {| Point.time := time; Point.population := totalPop data |};
     forecastData := forecastData st;
     summary :=
       {| Summary.totalPopulation := totalPop data;
          Summary.activeZones :=
            List.length (filter (fun z => Qgt_bool (inject_Z (Zone.population z)) 0) data);
          Summary.avgDensity := avgDensity data;
          Summary.flowTrend := Summary.flowTrend (summary st) |} |}.

(** One turn of the loop of the forecast effect. *)
Definition forecast_point (random : nat -> Q) (lastPop : Q) (i : Z) : Draw Point.t :=
  r <- Math_random random ;;
  let variance := fmul (fsub r (lit 0.5)) 1000 in
  ret {| Point.time := (Number.decimal i ++ "h later")%string;
         Point.population := Qmax 8000 (Qmin 12000 (fadd lastPop variance)) |}.

Definition forecast (random : nat -> Q) (lastPop : Q) : Draw (list Point.t) :=
  mapM (forecast_point random lastPop) [1; 2; 3; 4; 5; 6].

(** The effect that runs when [trendData] has changed. *)
Definition forecast_effect (random : nat -> Q) (st : state) : Draw state :=
  if (0 <? List.length (trendData st))%nat then
    match nth_error (trendData st) (List.length (trendData st) - 1) with
    | Some lastPoint =>
        forecast' <- forecast random (Point.population lastPoint) ;;
        ret {| zones := zones st; trendData := trendData st;
               forecastData := forecast'; summary := summary st |}
    | None => ret st
    end
  else ret st.

(** The values of the three operations of the flow trend: a quotient by
    zero is an infinity or, for zero by zero, not a number. *)
Inductive number :=
| finite (x : Q)
| infinity (negative : bool)
| NaN.

(** [a / b], where a zero divisor is the positive zero. *)
Definition divide (a b : Q) : number :=
  if Qeq_bool b 0 then
    match Qcompare a 0 with
    | Eq => NaN
    | Gt => infinity false
    | Lt => infinity true
    end
  else finite (fdiv a b).

(** [x * k] for a positive finite [k]. *)
Definition times (x : number) (k : Q) : number :=
  match x with
  | finite x => finite (fmul x k)
  | _ => x
  end.

Definition toFixed (x : number) (fractionDigits : nat) : option string :=
  match x with
  | finite x => Number.toFixed x fractionDigits
  | infinity false => Some "Infinity"%string
  | infinity true => Some "-Infinity"%string
  | NaN => Some "NaN"%string
  end.

Definition calculateFlowTrend (trendData : list Point.t) : option string :=
  if (List.length trendData <? 2)%nat then Some "0.0"%string
  else
    match nth_error trendData (List.length trendData - 1),
          nth_error trendData (List.length trendData - 2) with
    | Some latest, Some previous =>
        let latest := Point.population latest in
        let previous := Point.population previous in
        toFixed (times (divide (fsub latest previous) previous) 100) 1
    | _, _ => None
    end.

End App.

(** * Vocabulary of the properties *)

(** ** Exact arithmetic *)

Local Open Scope Q_scope.

(** The largest capacity for which the quotient [population / capacity]
    still separates every ratio above a threshold from the threshold. *)
Definition exact_capacity : Z := 2 ^ 50.

(** The least ratios above 0.85 and above 0.60 that two integers can form
    with a capacity of at most [exact_capacity]. *)
Definition above_85 : Q := (17 * 2 ^ 50 + 1) # (20 * 2 ^ 50).
Definition above_60 : Q := (3 * 2 ^ 50 + 1) # (5 * 2 ^ 50).

(** The density as the specification words it: the floor of the exact
    product. *)
Definition density_spec (population capacity : Z) : Z :=
  Qfloor (inject_Z population / inject_Z capacity * 120).

(** The largest capacity for which the density of a zone that is not
    over capacity is exact. *)
Definition density_capacity : Z := 2 ^ 46.

(** The largest ratio below (m+1)/120 that two integers can form with a
    capacity of at most [density_capacity]. *)
Definition below_step (m : Z) : Q :=
  ((m + 1) * 2 ^ 46 - 1) # (120 * 2 ^ 46).

(** The densities 0 to 120 of a zone that is not over capacity. *)
Definition steps : list Z := map Z.of_nat (seq 0 121).

(** ** Clusters *)

(** The point is noise when it belongs to no cluster. *)
Definition noise (clusters : list (list nat)) (idx : nat) : Prop :=
  forall cl, In cl clusters -> ~ In idx cl.

(** [k] is the index of the last cluster to which the point belongs (the
    clusters of DBSCAN are disjoint, so of the only one). *)
Definition member (clusters : list (list nat)) (idx : nat) (k : nat) : Prop :=
  (exists cl, nth_error clusters k = Some cl /\ In idx cl) /\
  forall k' cl', (k < k')%nat -> nth_error clusters k' = Some cl' -> ~ In idx cl'.

(** ** Signals *)

(** The population of a zone of capacity [c] for the draw [r]. *)
Definition population_of (r : Q) (c : Z) : Z :=
  Qfloor (fadd (fmul (inject_Z c) (lit 0.3))
               (fmul (fmul r (inject_Z c)) (lit 0.5))).

(** The signal of a zone from the draws [k], [k + 1] and [k + 2]. *)
Definition signal_at (random : nat -> Q) (zone : ZoneConfig.t) (k : nat) : Signal.t :=
  {| Signal.zoneId := ZoneConfig.id zone;
     Signal.zoneName := ZoneConfig.name zone;
     Signal.population := population_of (random k) (ZoneConfig.capacity zone);
     Signal.capacity := ZoneConfig.capacity zone;
     Signal.coordinates := (fmul (random (S k)) 100, fmul (random (S (S k))) 100) |}.

(** What the registry fixes: capacities are positive and at most 5880,
    thirty percent of every capacity is a binary64 value, and the draw 1,
    which is never drawn, would give eighty percent of the capacity. *)
Definition registry_check (zone : ZoneConfig.t) : bool :=
  let c := ZoneConfig.capacity zone in
  (0 <? c)%Z && (c <=? 5880)%Z
  && (population_of 1 c =? Qfloor (0.8 * inject_Z c))%Z
  && Qeq_bool (fmul (inject_Z c) (lit 0.3)) (0.3 * inject_Z c).

(** The draws of an environment lie in [0,1). *)
Definition in_range (env : environment) : Prop :=
  forall n, 0 <= random env n /\ random env n < 1.

(** A reading is simulated when it belongs to the snapshot of some
    environment with draws in [0,1). *)
Definition simulated (dbscan_run : list (Q * Q) -> Q -> Z -> list (list nat))
    (reading : Zone.t) : Prop :=
  exists env, in_range env /\ In reading (snapshot dbscan_run env).

Definition event_in_range (e : event) : Prop :=
  match e with
  | Interval env | RequestUpdate _ env => in_range env
  | Connection _ | Disconnect _ => True
  end.

Local Open Scope Z_scope.

(** ** The time series *)

(** The most recently appended reading of a zone: the last document of
    the zone in insertion order. *)
Fixpoint latest (coll : list Zone.t) (zoneId : string) : option Zone.t :=
  match coll with
  | [] => None
  | d :: rest =>
      match latest rest zoneId with
      | Some d' => Some d'
      | None => if String.eqb (Zone.zoneId d) zoneId then Some d else None
      end
  end.

(** Timestamps grow with time: every reading is older than the readings
    of its zone appended after it. *)
Fixpoint timestamps_increase (coll : list Zone.t) : Prop :=
  match coll with
  | [] => True
  | d :: rest =>
      (forall b, In b rest -> Zone.zoneId b = Zone.zoneId d ->
                 Zone.timestamp d < Zone.timestamp b)
      /\ timestamps_increase rest
  end.

(** A row of the latest-per-zone query carries a reading when it holds
    every field of the reading, the zone id under the key [_id]. *)
Definition carries (row : Zone.group) (d : Zone.t) : Prop :=
  Zone._id row = Zone.zoneId d /\
  Zone.g_zoneName row = Zone.zoneName d /\
  Zone.g_population row = Zone.population d /\
  Zone.g_density row = Zone.density d /\
  Zone.g_cluster row = Zone.cluster d /\
  Zone.g_capacity row = Zone.capacity d /\
  Zone.g_status row = Zone.status d /\
  Zone.g_timestamp row = Zone.timestamp d.

(** A reading that the validators of the schema accept: zone id and name
    are not empty, population and density are at least 0. *)
Definition valid (d : Zone.t) : Prop :=
  Zone.zoneId d <> ""%string /\ Zone.zoneName d <> ""%string /\
  0 <= Zone.population d /\ 0 <= Zone.density d.

(** [count P l n]: exactly [n] elements of [l] satisfy [P]. *)
Inductive count {A} (P : A -> Prop) : list A -> nat -> Prop :=
| count_nil : count P [] 0
| count_in a l n : P a -> count P l n -> count P (a :: l) (S n)
| count_out a l n : ~ P a -> count P l n -> count P (a :: l) n.

(** What a history of [minutes] minutes for a zone must be. *)
Definition window (coll : list Zone.t) (now : Z) (zoneId : string) (minutes : Z)
    (history : list Zone.t) : Prop :=
  Permutation history
    (filter (fun d => String.eqb (Zone.zoneId d) zoneId
                      && (now - minutes * 60 * 1000 <=? Zone.timestamp d)) coll) /\
  (forall d, In d history <->
             In d coll /\ Zone.zoneId d = zoneId /\
             now - minutes * 60 * 1000 <= Zone.timestamp d) /\
  StronglySorted (fun a b => Zone.timestamp a <= Zone.timestamp b) history /\
  ((forall d, In d coll -> Zone.zoneId d <> zoneId) -> history = []).

(** The sum of the populations of the rows, as an integer. *)
Definition sum_population (rows : list Zone.brief) : Z :=
  fold_right (fun row total => Zone.b_population row + total) 0 rows.

(** The rows of the summary are the latest rows per zone, cut down to
    population and status. *)
Definition brief_of (g : Zone.group) : Zone.brief :=
  {| Zone.b_id := Zone._id g; Zone.b_population := Zone.g_population g;
     Zone.b_status := Zone.g_status g |}.

(** The sum of the populations of the latest readings. *)
Definition population_sum (latestZones : list Zone.group) : Z :=
  fold_right (fun z total => Zone.g_population z + total) 0 latestZones.



(** ** Sockets *)

(** The snapshots a socket has received, in order. *)
Definition received (socket : nat) (s : server) : list (list Zone.t) :=
  map snd (filter (fun m => Nat.eqb (fst m) socket) (emitted s)).

(** The events of one broadcast. *)
Definition broadcast (sockets : list nat) (data : list Zone.t)
  : list (nat * list Zone.t) :=
  map (fun socket => (socket, data)) sockets.

(** ** Schedules *)

(** Two processes deliver alike: they have the same sockets, have
    emitted the same events and hold the same callbacks. *)
Definition same_deliveries (p q : process) : Prop :=
  sockets (state p) = sockets (state q) /\
  emitted (state p) = emitted (state q) /\
  callbacks p = callbacks q.

(** A callback that has not been rejected and does not wait on a
    rejected promise. *)
Definition unrejected (c : callback) : Prop :=
  match c with
  | awaits_insertMany _ _ => True
  | awaits_saveZoneData _ saving => saving = fulfilled
  | settled promise => promise = fulfilled
  end.

(** The process in which the insertion awaited by callback [k] has
    succeeded: the readings are stored, the console says so and the
    callback is about to broadcast. *)
Definition inserted (p : process) (k : nat) (zoneData : list Zone.t) : process :=
  {| state :=
       {| collection := collection (state p) ++ zoneData;
          sockets := sockets (state p);
          emitted := emitted (state p);
          console := console (state p) ++ [console_log Message.saved] |};
     callbacks := replace k (awaits_saveZoneData zoneData fulfilled) (callbacks p) |}.

(** The readings of a snapshot are stored when the collection holds them
    as one block, in their order. *)
Definition stored (data coll : list Zone.t) : Prop :=
  exists before after, coll = before ++ data ++ after.

(** An occurrence on which no insertion can fail: the database accepts
    the readings of a tick and the draws lie in [0,1). *)
Definition healthy (o : occurrence) : Prop :=
  match o with
  | Elapsed env => fault env = None /\ in_range env
  | _ => True
  end.

(** The schedule on which every callback runs to its end before
    anything else happens; [n] callbacks exist when it starts. *)
Fixpoint uninterrupted (n : nat) (events : list event) : list occurrence :=
  match events with
  | [] => []
  | Interval env :: events' =>
      Elapsed env :: Resumed n :: Resumed n :: uninterrupted (S n) events'
  | Connection socket :: events' => Connected socket :: uninterrupted n events'
  | Disconnect socket :: events' => Disconnected socket :: uninterrupted n events'
  | RequestUpdate socket env :: events' => Requested socket env :: uninterrupted n events'
  end.

(** ** Tiers, digits and totals *)

(** The tiers in increasing order of crowding. *)
Definition severity (s : Status) : Z :=
  match s with
  | normal => 0
  | moderate => 1
  | overcrowded => 2
  end.

(** The capacity that the registry gives a zone id. *)
Definition capacity_of (zoneId : string) : Z :=
  match find (fun zone => String.eqb (ZoneConfig.id zone) zoneId) ZONES with
  | Some zone => ZoneConfig.capacity zone
  | None => 0
  end.

(** A collection made of whole snapshots is empty or has a reading of
    every zone of the registry. *)
Definition whole (coll : list Zone.t) : Prop :=
  coll = [] \/ incl (map ZoneConfig.id ZONES) (map Zone.zoneId coll).

Definition Zsum (l : list Z) : Z := fold_right Z.add 0 l.

(** The sum of a field over readings, as an integer. *)
Definition total_of (f : Zone.t -> Z) (data : list Zone.t) : Z :=
  fold_right (fun z t => f z + t) 0 data.

(** The number that a string of decimal digits denotes. *)
Definition digit_value (c : ascii) : Z := Z.of_nat (nat_of_ascii c) - 48.

Fixpoint value_from (acc : Z) (s : string) : Z :=
  match s with
  | EmptyString => acc
  | String c s' => value_from (10 * acc + digit_value c) s'
  end.

Definition value (s : string) : Z := value_from 0 s.

(** A string made of decimal digits only. *)
Fixpoint numeral (s : string) : Prop :=
  match s with
  | EmptyString => True
  | String c s' => 0 <= digit_value c <= 9 /\ numeral s'
  end.

(** The [f] digits of the fraction [r] / 10^f. *)
Fixpoint fraction (f : nat) (r : Z) : string :=
  match f with
  | O => ""
  | S f' => (fraction f' (r / 10) ++ String (Number.digit (r mod 10)) "")%string
  end.

(** The first code unit of a string of digits. *)
Definition leading (s : string) : ascii :=
  match s with
  | EmptyString => "0"%char
  | String c _ => c
  end.

(** Padding to more than [f] digits, as [toFixed] does before it places
    the point. *)
Definition pad (f : nat) (m : string) : string :=
  if (String.length m <=? f)%nat
  then (Number.zeros (f + 1 - String.length m) ++ m)%string
  else m.

(** The last [n] elements of a list. *)
Definition lastn {A} (n : nat) (l : list A) : list A := skipn (List.length l - n) l.

(** The updates that the socket delivers, each with the label of its
    moment, and the points they add to the trend. *)
Definition updates_points (updates : list (string * list Zone.t)) : list App.Point.t :=
  map (fun u => {| App.Point.time := fst u;
                   App.Point.population := App.totalPop (snd u) |}) updates.

Definition receive (st : App.state) (u : string * list Zone.t) : App.state :=
  App.zoneUpdate (snd u) (fst u) st.

(** ** Sample data *)

Module Sample.

(** Draws alternating between a quarter and three quarters. *)
Definition draws (n : nat) : Q := if Nat.even n then 1 # 4 else 3 # 4.

(** A clusterer that reports the first two zones as one cluster. *)
Definition clusterer (dataset : list (Q * Q)) (epsilon : Q) (minPts : Z)
  : list (list nat) := [[0; 1]]%nat.

Definition clock (idx : nat) : Z := 1700000000000.

Definition env : environment :=
  {| random := draws; Date_now := clock; fault := None |}.

(** The reading of zone AB2 in the snapshot of this environment. *)
Definition reading : Zone.t :=
  {| Zone.zoneId := "AB2"; Zone.zoneName := "AB2"; Zone.population := 168;
     Zone.density := 80; Zone.cluster := 1; Zone.capacity := 250;
     Zone.status := moderate; Zone.timestamp := 1700000000000 |}.

(** The largest binary64 value below one, drawn every time. *)
Definition last_draw : Q := 9007199254740991 # 9007199254740992.

End Sample.

Module Stored.

Definition reading (zoneId : string) (population : Z) (timestamp : Z) : Zone.t :=
  {| Zone.zoneId := zoneId; Zone.zoneName := zoneId; Zone.population := population;
     Zone.density := density_of population 250; Zone.cluster := 0;
     Zone.capacity := 250; Zone.status := status_of population 250;
     Zone.timestamp := timestamp |}.

(** Two ticks of two zones, five seconds apart. *)
Definition readings : list Zone.t :=
  [ reading "AB2" 100 1700000000000; reading "Admin" 180 1700000000000;
    reading "AB2" 120 1700000005000; reading "Admin" 0 1700000005000 ]%string.

Definition latestZones : list Zone.group :=
  [ Zone.first (reading "Admin" 0 1700000005000);
    Zone.first (reading "AB2" 120 1700000005000) ]%string.

(** Two readings of one zone, the older one appended last. *)
Definition out_of_order : list Zone.t :=
  [ reading "AB2" 100 1700000005000; reading "AB2" 120 1700000000000 ]%string.

(** Two zones whose populations add up to 2^53 + 1. *)
Definition crowded : list Zone.t :=
  [ reading "AB2" 9007199254740992 1700000000000;
    reading "Admin" 1 1700000000000 ]%string.

Definition failing : environment :=
  {| random := Sample.draws; Date_now := Sample.clock;
     fault := Some "connection lost"%string |}.

Definition server0 : server :=
  {| collection := readings; sockets := [1; 2]%nat; emitted := []; console := [] |}.

(** The process of that server before any tick. *)
Definition process0 : process := {| state := server0; callbacks := [] |}.

End Stored.

(** A tick ten seconds after the stored readings, and a server that has
    not stored anything yet. *)
Module Next.

Definition clock (idx : nat) : Z := 1700000010000.

Definition env : environment :=
  {| random := Sample.draws; Date_now := clock; fault := None |}.

Definition empty : server :=
  {| collection := []; sockets := []; emitted := []; console := [] |}.

End Next.

(** ** The processor's binary64 *)

(** The primitive floating-point numbers of the proof assistant are the
    binary64 numbers of the processor, those JavaScript computes with.
    They serve to check the rational model on concrete inputs. *)
Module Hardware.

Import PrimFloat FloatOps SpecFloat.

Local Open Scope float_scope.

(** The rational value of a finite float. *)
Definition Q_of_float (f : float) : option Q :=
  match Prim2SF f with
  | S754_zero _ => Some 0%Q
  | S754_finite s m e =>
      Some ((if s then -1 else 1) * inject_Z (Zpos m) * pow2 e)%Q
  | S754_infinity _ | S754_nan => None
  end.

Definition agrees (f : float) (q : Q) : bool :=
  match Q_of_float f with
  | Some x => Qeq_bool x q
  | None => false
  end.

Definition float_of_Z (n : Z) : float := of_uint63 (Uint63.of_Z n).

(** [(population / capacity) * 120] and [(population / capacity) * 100]. *)
Definition density (population capacity : Z) : float :=
  float_of_Z population / float_of_Z capacity * 120.

Definition percentage (population capacity : Z) : float :=
  float_of_Z population / float_of_Z capacity * 100.

(** The literal [0.3]. *)
Definition three_tenths : float := 0x1.3333333333333p-2.

(** The largest float below one. *)
Definition last_draw : float := 0x1.fffffffffffffp-1.

(** [capacity * 0.3 + r * capacity * 0.5]. *)
Definition population (r : float) (capacity : Z) : float :=
  float_of_Z capacity * three_tenths + r * float_of_Z capacity * 0.5.

Definition coordinate (r : float) : float := r * 100.

(** Model and processor agree on density and percentage of a zone. *)
Definition classifier_agrees (capacity population : Z) : bool :=
  agrees (density population capacity)
    (fmul (fdiv (inject_Z population) (inject_Z capacity)) 120)
  && agrees (percentage population capacity)
       (fmul (fdiv (inject_Z population) (inject_Z capacity)) 100).

(** Model and processor agree on the population sum and the coordinate
    of a zone for the draw k/64. *)
Definition simulator_agrees (capacity k : Z) : bool :=
  let r := float_of_Z k / 64 in
  agrees (population r capacity)
    (fadd (fmul (inject_Z capacity) (lit 0.3))
          (fmul (fmul (k # 64) (inject_Z capacity)) (lit 0.5)))
  && agrees (coordinate r) (fmul (k # 64) 100).

(** The populations from 0 up to the capacity, in steps of [step]. *)
Definition upto (capacity step : Z) : list Z :=
  map (fun k => Z.of_nat k * step)%Z (seq 0 (S (Z.to_nat (capacity / step)))).

End Hardware.

(** * Binary64 rounding *)

Local Open Scope Q_scope.

(** *** Powers of two *)

Lemma pow2_pos k : 0 < pow2 k.
Proof. apply Qpower_0_lt. reflexivity. Qed.

Lemma pow2_add a b : pow2 (a + b) == pow2 a * pow2 b.
Proof. apply Qpower_plus. discriminate. Qed.

Lemma pow2_le a b : (a <= b)%Z -> pow2 a <= pow2 b.
Proof. intros H. apply Qpower_le_compat_l; [exact H | discriminate]. Qed.

Lemma pow2_lt a b : (a < b)%Z -> pow2 a < pow2 b.
Proof. intros H. apply Qpower_lt_compat_l; [exact H | reflexivity]. Qed.

Lemma pow2_lt_inv a b : pow2 a < pow2 b -> (a < b)%Z.
Proof. intros H. apply (Qpower_lt_compat_l_inv 2); [exact H | reflexivity]. Qed.

Lemma pow2_inject k : (0 <= k)%Z -> inject_Z (2 ^ k) == pow2 k.
Proof. intros H. apply Zpower_Qpower. exact H. Qed.

Lemma pow2_div_mul x e : x / pow2 e * pow2 e == x.
Proof.
  pose proof (pow2_pos e) as P. field. intros E. rewrite E in P.
  apply (Qlt_irrefl 0). exact P.
Qed.

Lemma div_pow2_le x y e : x <= y -> x / pow2 e <= y / pow2 e.
Proof.
  intros H. apply Qmult_le_compat_r; [exact H |].
  apply Qlt_le_weak, Qinv_lt_0_compat, pow2_pos.
Qed.

Lemma div_pow2_bound x e k : x <= pow2 (k + e) -> x / pow2 e <= pow2 k.
Proof.
  intros H. apply (div_pow2_le _ _ e) in H.
  rewrite pow2_add in H.
  assert (E : pow2 k * pow2 e / pow2 e == pow2 k).
  { pose proof (pow2_pos e) as P. field. intros E. rewrite E in P.
    apply (Qlt_irrefl 0). exact P. }
  rewrite E in H. exact H.
Qed.

(** *** The binary logarithm *)

Lemma Zlog2_bounds n :
  (0 < n)%Z -> pow2 (Z.log2 n) <= inject_Z n /\ inject_Z n < pow2 (Z.log2 n + 1).
Proof.
  intros H. destruct (Z.log2_spec n H) as [L U].
  pose proof (Z.log2_nonneg n) as P.
  split.
  - rewrite <- pow2_inject by exact P. rewrite <- Zle_Qle. exact L.
  - rewrite <- pow2_inject by lia. rewrite <- Zlt_Qlt.
    unfold Z.succ in U. exact U.
Qed.

Lemma Qlog2_spec x :
  0 < x -> pow2 (Qlog2 x) <= x /\ x < pow2 (Qlog2 x + 1).
Proof.
  intros Hx. destruct x as [n d].
  assert (Hn : (0 < n)%Z).
  { unfold Qlt in Hx. simpl in Hx. lia. }
  destruct (Zlog2_bounds n Hn) as [Ln Un].
  destruct (Zlog2_bounds (Zpos d) eq_refl) as [Ld Ud].
  assert (HD : 0 < inject_Z (Zpos d)) by reflexivity.
  assert (Ex : n # d == inject_Z n / inject_Z (Zpos d)) by apply Qmake_Qdiv.
  unfold Qlog2. cbn [Qnum Qden].
  set (a := Z.log2 n) in *. set (b := Z.log2 (Zpos d)) in *.
  pose proof (pow2_pos (a - b)) as Pk.
  pose proof (pow2_pos b) as Pb.
  assert (Ea : pow2 a == pow2 (a - b) * pow2 b).
  { rewrite <- pow2_add. replace (a - b + b)%Z with a by ring. reflexivity. }
  assert (Ea1 : pow2 (a + 1) == pow2 (a - b + 1) * pow2 b).
  { rewrite <- pow2_add. replace (a - b + 1 + b)%Z with (a + 1)%Z by ring.
    reflexivity. }
  assert (Eb1 : pow2 (b + 1) == pow2 b * 2).
  { rewrite pow2_add. reflexivity. }
  assert (Ek : pow2 (a - b) == pow2 (a - b - 1) * 2).
  { rewrite <- (pow2_add (a - b - 1) 1).
    replace (a - b - 1 + 1)%Z with (a - b)%Z by ring. reflexivity. }
  destruct (Qle_bool (pow2 (a - b)) (n # d)) eqn:B.
  - split.
    + apply Qle_bool_iff. exact B.
    + rewrite Ex. apply Qlt_shift_div_r; [exact HD |].
      apply (Qlt_le_trans _ (pow2 (a + 1))); [exact Un |].
      rewrite Ea1. apply Qmult_le_l; [apply pow2_pos | exact Ld].
  - split.
    + rewrite Ex. apply Qle_shift_div_l; [exact HD |].
      apply (Qle_trans _ (pow2 a)); [| exact Ln].
      rewrite Ea, Ek.
      pose proof (pow2_pos (a - b - 1)) as Pk1.
      rewrite <- Qmult_assoc. apply Qmult_le_l; [exact Pk1 |].
      rewrite (Qmult_comm 2). rewrite <- Eb1. apply Qlt_le_weak. exact Ud.
    + replace (a - b - 1 + 1)%Z with (a - b)%Z by ring.
      apply Qnot_le_lt. intros C. apply Qle_bool_iff in C.
      rewrite C in B. discriminate.
Qed.

(** The binade of a positive rational is unique. *)
Lemma Qlog2_unique x k :
  pow2 k <= x -> x < pow2 (k + 1) -> Qlog2 x = k.
Proof.
  intros L U.
  assert (Hx : 0 < x) by (apply (Qlt_le_trans _ (pow2 k)); [apply pow2_pos | exact L]).
  destruct (Qlog2_spec x Hx) as [L' U'].
  assert (A : (Qlog2 x < k + 1)%Z).
  { apply pow2_lt_inv. apply (Qle_lt_trans _ x); assumption. }
  assert (B : (k < Qlog2 x + 1)%Z).
  { apply pow2_lt_inv. apply (Qle_lt_trans _ x); assumption. }
  lia.
Qed.

Lemma Qlog2_mono x y : 0 < x -> x <= y -> (Qlog2 x <= Qlog2 y)%Z.
Proof.
  intros Hx Hxy.
  assert (Hy : 0 < y) by (apply (Qlt_le_trans _ x); assumption).
  destruct (Qlog2_spec x Hx) as [Lx _].
  destruct (Qlog2_spec y Hy) as [_ Uy].
  assert (A : (Qlog2 x < Qlog2 y + 1)%Z).
  { apply pow2_lt_inv. apply (Qle_lt_trans _ x); [exact Lx |].
    apply (Qle_lt_trans _ y); assumption. }
  lia.
Qed.

(** *** Rounding to the nearest integer *)

Lemma rne_bounds x : (Qfloor x <= rne x <= Qfloor x + 1)%Z.
Proof.
  unfold rne. destruct (Qcompare _ _); [destruct (Z.even _) | |]; lia.
Qed.

Lemma rne_inject n : rne (inject_Z n) = n.
Proof.
  unfold rne. rewrite Qfloor_Z.
  destruct (Qcompare_spec (inject_Z n - inject_Z n) (1 # 2)) as [E | L | G].
  - exfalso. assert (H : inject_Z n - inject_Z n == 0) by ring.
    rewrite H in E. discriminate E.
  - reflexivity.
  - exfalso. assert (H : inject_Z n - inject_Z n == 0) by ring.
    rewrite H in G. discriminate G.
Qed.

Lemma rne_mono x y : x <= y -> (rne x <= rne y)%Z.
Proof.
  intros H.
  pose proof (Qfloor_resp_le x y H) as F.
  pose proof (rne_bounds x) as Bx. pose proof (rne_bounds y) as By.
  destruct (Z.eq_dec (Qfloor x) (Qfloor y)) as [E | NE]; [| lia].
  unfold rne in *. rewrite <- E in *.
  destruct (Qcompare_spec (x - inject_Z (Qfloor x)) (1 # 2)) as [Ex | Lx | Gx];
    destruct (Qcompare_spec (y - inject_Z (Qfloor x)) (1 # 2)) as [Ey | Ly | Gy];
    destruct (Z.even (Qfloor x)); try lia; exfalso; lra.
Qed.

Lemma rne_le n x : x <= inject_Z n -> (rne x <= n)%Z.
Proof. intros H. rewrite <- (rne_inject n). apply rne_mono. exact H. Qed.

Lemma rne_ge n x : inject_Z n <= x -> (n <= rne x)%Z.
Proof. intros H. rewrite <- (rne_inject n). apply rne_mono. exact H. Qed.

(** *** Rounding to binary64 *)

Lemma round64_nonneg x : 0 <= x -> 0 <= round64 x.
Proof.
  intros H. unfold round64.
  apply Qmult_le_0_compat; [| apply Qlt_le_weak, pow2_pos].
  change 0 with (inject_Z 0). rewrite <- Zle_Qle. apply rne_ge.
  apply Qle_shift_div_l; [apply pow2_pos |].
  change (inject_Z 0) with 0. lra.
Qed.

Lemma ulp_exp_pos x : 0 < x -> ulp_exp x = Z.max (Qlog2 x - 52) (-1074).
Proof.
  intros H. unfold ulp_exp.
  assert (E : Qlog2 (Qabs x) = Qlog2 x).
  { destruct (Qlog2_spec x H) as [L U]. apply Qlog2_unique.
    - rewrite Qabs_pos by (apply Qlt_le_weak; exact H). exact L.
    - rewrite Qabs_pos by (apply Qlt_le_weak; exact H). exact U. }
  rewrite E. reflexivity.
Qed.

(** A positive argument rounds to at most the top of its binade. *)
Lemma round64_upper x :
  0 < x -> round64 x <= pow2 (ulp_exp x + 53).
Proof.
  intros H. pose proof (ulp_exp_pos x H) as E.
  destruct (Qlog2_spec x H) as [_ U].
  unfold round64. set (e := ulp_exp x) in *.
  assert (B : x / pow2 e <= pow2 53).
  { apply div_pow2_bound. apply Qlt_le_weak.
    apply (Qlt_le_trans _ _ _ U). apply pow2_le. lia. }
  rewrite <- (pow2_inject 53) in B by lia.
  apply rne_le in B.
  rewrite (Z.add_comm e 53), pow2_add.
  apply Qmult_le_compat_r; [| apply Qlt_le_weak, pow2_pos].
  rewrite <- (pow2_inject 53) by lia. rewrite <- Zle_Qle. exact B.
Qed.

(** An argument in a normal binade rounds to at least its bottom. *)
Lemma round64_lower x :
  0 < x -> ulp_exp x = (Qlog2 x - 52)%Z -> pow2 (Qlog2 x) <= round64 x.
Proof.
  intros H E. destruct (Qlog2_spec x H) as [L _].
  unfold round64. rewrite E. set (l := Qlog2 x) in *.
  assert (B : pow2 52 <= x / pow2 (l - 52)).
  { apply Qle_shift_div_l; [apply pow2_pos |].
    rewrite <- pow2_add. replace (52 + (l - 52))%Z with l by ring. exact L. }
  rewrite <- (pow2_inject 52) in B by lia.
  apply rne_ge in B.
  assert (S : pow2 l == pow2 52 * pow2 (l - 52)).
  { rewrite <- pow2_add. replace (52 + (l - 52))%Z with l by ring. reflexivity. }
  rewrite S.
  apply Qmult_le_compat_r; [| apply Qlt_le_weak, pow2_pos].
  rewrite <- (pow2_inject 52) by lia. rewrite <- Zle_Qle. exact B.
Qed.

(** Rounding is monotone on the non-negative numbers. *)
Theorem round64_mono x y : 0 <= x -> x <= y -> round64 x <= round64 y.
Proof.
  intros Hx Hxy.
  destruct (Qlt_le_dec 0 x) as [Px | Zx].
  - assert (Py : 0 < y) by (apply (Qlt_le_trans _ x); assumption).
    pose proof (Qlog2_mono x y Px Hxy) as Hl.
    pose proof (ulp_exp_pos x Px) as Ex. pose proof (ulp_exp_pos y Py) as Ey.
    destruct (Z.eq_dec (ulp_exp x) (ulp_exp y)) as [E | NE].
    + unfold round64. rewrite E.
      apply Qmult_le_compat_r; [| apply Qlt_le_weak, pow2_pos].
      rewrite <- Zle_Qle. apply rne_mono. apply div_pow2_le. exact Hxy.
    + assert (Ey' : ulp_exp y = (Qlog2 y - 52)%Z) by lia.
      apply (Qle_trans _ (pow2 (ulp_exp x + 53))); [apply round64_upper; exact Px |].
      apply (Qle_trans _ (pow2 (Qlog2 y))); [apply pow2_le; lia |].
      apply round64_lower; assumption.
  - apply (Qle_trans _ 0); [| apply round64_nonneg; lra].
    unfold round64.
    assert (R : (rne (x / pow2 (ulp_exp x)) <= 0)%Z).
    { apply rne_le. apply Qle_shift_div_r; [apply pow2_pos |].
      change (inject_Z 0) with 0. lra. }
    rewrite Zle_Qle in R. change (inject_Z 0) with 0 in R.
    pose proof (pow2_pos (ulp_exp x)) as P.
    set (m := inject_Z (rne (x / pow2 (ulp_exp x)))) in *.
    set (q := pow2 (ulp_exp x)) in *. nra.
Qed.

(** Rounding respects equality of rationals (on the non-negative ones). *)
Lemma round64_eq x y : 0 <= x -> x == y -> round64 x == round64 y.
Proof.
  intros Hx E. apply Qle_antisym; apply round64_mono; lra.
Qed.

(** *** The binary64 grid *)

Lemma Qfloor_unique x n : inject_Z n <= x -> x < inject_Z (n + 1) -> Qfloor x = n.
Proof.
  intros L U.
  pose proof (Qfloor_le x) as A. pose proof (Qlt_floor x) as B.
  assert (C : (Qfloor x < n + 1)%Z).
  { rewrite Zlt_Qlt. apply (Qle_lt_trans _ x); assumption. }
  assert (D : (n < Qfloor x + 1)%Z).
  { rewrite Zlt_Qlt. apply (Qle_lt_trans _ x); assumption. }
  lia.
Qed.

(** In the binade [2^k, 2^(k+1)) of the normal range, rounding lands on
    the multiples of 2^(k-52). *)
Lemma round64_binade x k :
  pow2 k <= x -> x < pow2 (k + 1) -> (-1022 <= k)%Z ->
  round64 x = inject_Z (rne (x / pow2 (k - 52))) * pow2 (k - 52).
Proof.
  intros L U K.
  assert (Hx : 0 < x) by (apply (Qlt_le_trans _ (pow2 k)); [apply pow2_pos | exact L]).
  unfold round64. rewrite (ulp_exp_pos x Hx), (Qlog2_unique x k L U).
  replace (Z.max (k - 52) (-1074)) with (k - 52)%Z by lia. reflexivity.
Qed.

(** The largest binary64 value below one is 1 - 2^-53. *)
Lemma double_below_one r : is_double r -> r < 1 -> r <= 1 - pow2 (-53).
Proof.
  intros D H.
  assert (E53 : pow2 (-53) == 1 # 9007199254740992) by reflexivity.
  destruct (Qlt_le_dec r (1 # 2)) as [S | G]; [rewrite E53; clear E53 D; lra |].
  unfold is_double in D.
  rewrite (round64_binade r (-1)) in D; [| exact G | exact H | lia].
  change (-1 - 52)%Z with (-53)%Z in D.
  set (m := rne (r / pow2 (-53))) in *.
  assert (M : (m < 2 ^ 53)%Z).
  { rewrite Zlt_Qlt. rewrite <- D in H. rewrite E53 in H.
    change (inject_Z (2 ^ 53)) with (9007199254740992 # 1).
    clear D E53. generalize dependent (inject_Z m). clear. intros q H. lra. }
  assert (M' : (m <= 2 ^ 53 - 1)%Z) by lia.
  rewrite Zle_Qle in M'.
  change (inject_Z (2 ^ 53 - 1)) with (9007199254740991 # 1) in M'.
  rewrite <- D. rewrite E53. clear D H E53 M G.
  generalize dependent (inject_Z m). clear. intros q H. lra.
Qed.

(** Integers of magnitude up to 2^53 are binary64 values. *)
Lemma round64_integer n : (0 <= n <= 2 ^ 53)%Z -> round64 (inject_Z n) == inject_Z n.
Proof.
  intros [N0 N1].
  destruct (Z.eq_dec n 0) as [-> | NZ]; [reflexivity |].
  assert (Hx : 0 < inject_Z n).
  { change 0 with (inject_Z 0). rewrite <- Zlt_Qlt. lia. }
  destruct (Qlog2_spec _ Hx) as [L U].
  set (l := Qlog2 (inject_Z n)) in *.
  assert (L0 : (0 <= l)%Z).
  { assert (A : (0 < l + 1)%Z); [| lia].
    apply pow2_lt_inv. apply (Qle_lt_trans _ (inject_Z n)); [| exact U].
    change (pow2 0) with (inject_Z 1). rewrite <- Zle_Qle. lia. }
  assert (L1 : (l <= 53)%Z).
  { assert (A : (l < 54)%Z); [| lia].
    apply pow2_lt_inv. apply (Qle_lt_trans _ (inject_Z n)); [exact L |].
    apply (Qle_lt_trans _ (inject_Z (2 ^ 53))); [rewrite <- Zle_Qle; exact N1 |].
    reflexivity. }
  unfold round64. rewrite (ulp_exp_pos _ Hx). fold l.
  replace (Z.max (l - 52) (-1074)) with (l - 52)%Z by lia.
  destruct (Z.eq_dec l 53) as [E53 | NE].
  - (* only 2^53 itself lies in this binade *)
    assert (En : n = (2 ^ 53)%Z).
    { apply Z.le_antisymm; [exact N1 |].
      rewrite Zle_Qle. rewrite E53 in L. exact L. }
    subst n. rewrite E53. reflexivity.
  - assert (E : inject_Z n / pow2 (l - 52) == inject_Z (n * 2 ^ (52 - l))).
    { rewrite inject_Z_mult. rewrite (pow2_inject (52 - l)) by lia.
      replace (l - 52)%Z with (- (52 - l))%Z by ring.
      unfold pow2. rewrite Qpower_opp. unfold Qdiv. rewrite Qinv_involutive.
      reflexivity. }
    assert (R : rne (inject_Z n / pow2 (l - 52)) = (n * 2 ^ (52 - l))%Z).
    { apply Z.le_antisymm.
      - apply rne_le. rewrite E. apply Qle_refl.
      - apply rne_ge. rewrite E. apply Qle_refl. }
    rewrite R, <- E. apply pow2_div_mul.
Qed.

(** *** The rounding error *)

Lemma rne_error y : Qabs (inject_Z (rne y) - y) <= 1 # 2.
Proof.
  pose proof (Qfloor_le y) as L. pose proof (Qlt_floor y) as U.
  rewrite inject_Z_plus in U. change (inject_Z 1) with 1 in U.
  apply Qabs_Qle_condition. unfold rne.
  destruct (Qcompare_spec (y - inject_Z (Qfloor y)) (1 # 2)) as [E | Lt | Gt].
  - destruct (Z.even (Qfloor y)).
    + split; lra.
    + rewrite inject_Z_plus. change (inject_Z 1) with 1. split; lra.
  - split; lra.
  - rewrite inject_Z_plus. change (inject_Z 1) with 1. split; lra.
Qed.

Lemma round64_zero x : x == 0 -> round64 x == 0.
Proof.
  intros E. unfold round64.
  assert (Y : x / pow2 (ulp_exp x) == inject_Z 0).
  { generalize (pow2 (ulp_exp x)). intros q. rewrite E. unfold Qdiv. ring. }
  assert (R : rne (x / pow2 (ulp_exp x)) = 0%Z).
  { apply Z.le_antisymm; [apply rne_le | apply rne_ge]; rewrite Y; apply Qle_refl. }
  rewrite R. ring.
Qed.

(** Below 2^k the rounding error is at most 2^(k-54), half a unit in the
    last place of the binade that ends there. *)
Lemma round64_error x k :
  0 <= x -> x < pow2 k -> (-1021 <= k)%Z -> Qabs (round64 x - x) <= pow2 (k - 54).
Proof.
  intros Hx Hk K.
  destruct (Qlt_le_dec 0 x) as [Px | Zx].
  - destruct (Qlog2_spec x Px) as [L _].
    assert (Hl : (Qlog2 x < k)%Z).
    { apply pow2_lt_inv. apply (Qle_lt_trans _ x); assumption. }
    pose proof (ulp_exp_pos x Px) as E.
    assert (He : (ulp_exp x <= k - 53)%Z) by lia.
    unfold round64. set (e := ulp_exp x) in *. set (y := x / pow2 e).
    assert (D : inject_Z (rne y) * pow2 e - x == (inject_Z (rne y) - y) * pow2 e).
    { generalize (inject_Z (rne y)). intros m. unfold y.
      pose proof (pow2_pos e) as P. field. intros C. rewrite C in P.
      apply (Qlt_irrefl 0). exact P. }
    rewrite D, Qabs_Qmult.
    rewrite (Qabs_pos (pow2 e)) by (apply Qlt_le_weak, pow2_pos).
    apply (Qle_trans _ ((1 # 2) * pow2 (k - 53))).
    + pose proof (rne_error y) as R. pose proof (pow2_le e (k - 53) He) as M.
      pose proof (pow2_pos e) as P. pose proof (Qabs_nonneg (inject_Z (rne y) - y)) as N.
      apply (Qle_trans _ ((1 # 2) * pow2 e)).
      * apply Qmult_le_compat_r; [exact R | apply Qlt_le_weak, P].
      * apply Qmult_le_l; [reflexivity | exact M].
    + replace (k - 53)%Z with (1 + (k - 54))%Z by ring.
      rewrite pow2_add. change (pow2 1) with 2.
      generalize (pow2 (k - 54)). clear. intros q. lra.
  - assert (E : x == 0) by (apply Qle_antisym; assumption).
    rewrite (round64_zero x E), E.
    apply Qlt_le_weak, pow2_pos.
Qed.

Local Open Scope Z_scope.

(** * Properties *)

(** ** Classification thresholds *)

Local Open Scope Q_scope.

(** Comparing a fraction with the quotient of two integers. *)
Lemma fraction_lt_ratio a b p c :
  (0 < c)%Z -> (a # b < inject_Z p / inject_Z c <-> (a * c < Zpos b * p)%Z).
Proof.
  intros Hc. destruct c as [| c | c]; try lia.
  unfold Qlt, Qdiv, Qmult, Qinv, inject_Z. cbn [Qnum Qden Pos.mul]. lia.
Qed.

Lemma fraction_le_ratio a b p c :
  (0 < c)%Z -> (a # b <= inject_Z p / inject_Z c <-> (a * c <= Zpos b * p)%Z).
Proof.
  intros Hc. destruct c as [| c | c]; try lia.
  unfold Qle, Qdiv, Qmult, Qinv, inject_Z. cbn [Qnum Qden Pos.mul]. lia.
Qed.

Lemma ratio_le_fraction a b p c :
  (0 < c)%Z -> (inject_Z p / inject_Z c <= a # b <-> (Zpos b * p <= a * c)%Z).
Proof.
  intros Hc. destruct c as [| c | c]; try lia.
  unfold Qle, Qdiv, Qmult, Qinv, inject_Z. cbn [Qnum Qden Pos.mul]. lia.
Qed.

Lemma ratio_nonneg p c : (0 < c)%Z -> (0 <= p)%Z -> 0 <= inject_Z p / inject_Z c.
Proof.
  intros Hc Hp. apply Qle_shift_div_l.
  - change 0 with (inject_Z 0). rewrite <- Zlt_Qlt. exact Hc.
  - rewrite Qmult_0_l. change 0 with (inject_Z 0). rewrite <- Zle_Qle. exact Hp.
Qed.

(** Both roundings of [(a / b) * k] are monotone in the exact quotient. *)
Lemma scaled_mono k x y :
  0 <= k -> 0 <= x -> x <= y -> fmul (round64 x) k <= fmul (round64 y) k.
Proof.
  intros Hk Hx Hxy. unfold fmul.
  pose proof (round64_nonneg x Hx) as Nx.
  pose proof (round64_mono x y Hx Hxy) as M.
  apply round64_mono; nra.
Qed.

Lemma Qgt_bool_true a b : Qgt_bool a b = true <-> b < a.
Proof.
  unfold Qgt_bool. rewrite negb_true_iff. split.
  - intros H. apply Qnot_le_lt. intros C. apply Qle_bool_iff in C. congruence.
  - intros H. destruct (Qle_bool a b) eqn:E; [| reflexivity].
    apply Qle_bool_iff in E. exfalso. apply (Qlt_irrefl b).
    apply (Qlt_le_trans _ a); assumption.
Qed.

Lemma Qgt_bool_false a b : Qgt_bool a b = false <-> a <= b.
Proof.
  unfold Qgt_bool. rewrite negb_false_iff. apply Qle_bool_iff.
Qed.

Lemma percentage_at_85 : fmul (round64 (0.85)) 100 == 85.
Proof. vm_compute. reflexivity. Qed.

Lemma percentage_at_60 : fmul (round64 (0.6)) 100 == 60.
Proof. vm_compute. reflexivity. Qed.

Lemma percentage_above_85 : 85 < fmul (round64 above_85) 100.
Proof. vm_compute. reflexivity. Qed.

Lemma percentage_above_60 : 60 < fmul (round64 above_60) 100.
Proof. vm_compute. reflexivity. Qed.

Section Thresholds.

Variables p c : Z.
Hypothesis capacity_positive : (0 < c)%Z.
Hypothesis population_nonneg : (0 <= p)%Z.

Let ratio : Q := inject_Z p / inject_Z c.
Let percentage : Q := fmul (fdiv (inject_Z p) (inject_Z c)) 100.

Lemma percentage_low_85 : ratio <= 0.85 -> percentage <= 85.
Proof.
  intros H. rewrite <- percentage_at_85.
  apply scaled_mono; [discriminate | apply ratio_nonneg; assumption | exact H].
Qed.

Lemma percentage_low_60 : ratio <= 0.6 -> percentage <= 60.
Proof.
  intros H. rewrite <- percentage_at_60.
  apply scaled_mono; [discriminate | apply ratio_nonneg; assumption | exact H].
Qed.

Hypothesis capacity_exact : (c <= exact_capacity)%Z.

Lemma percentage_high_85 : 0.85 < ratio -> 85 < percentage.
Proof.
  intros H. apply fraction_lt_ratio in H; [| exact capacity_positive].
  apply (Qlt_le_trans _ _ _ percentage_above_85).
  apply scaled_mono; [discriminate | discriminate |].
  apply fraction_le_ratio; [exact capacity_positive |].
  unfold exact_capacity in capacity_exact.
  change (2 ^ 50)%Z with 1125899906842624%Z in capacity_exact.
  change (17 * 2 ^ 50 + 1)%Z with 19140298416324609%Z.
  change (Zpos (20 * 2 ^ 50)) with 22517998136852480%Z. lia.
Qed.

Lemma percentage_high_60 : 0.6 < ratio -> 60 < percentage.
Proof.
  intros H. apply fraction_lt_ratio in H; [| exact capacity_positive].
  apply (Qlt_le_trans _ _ _ percentage_above_60).
  apply scaled_mono; [discriminate | discriminate |].
  apply fraction_le_ratio; [exact capacity_positive |].
  unfold exact_capacity in capacity_exact.
  change (2 ^ 50)%Z with 1125899906842624%Z in capacity_exact.
  change (3 * 2 ^ 50 + 1)%Z with 3377699720527873%Z.
  change (Zpos (5 * 2 ^ 50)) with 5629499534213120%Z. lia.
Qed.

End Thresholds.

(** C1 (as amended).  For every integer capacity 0 < c <= 2^50 and every
    population p >= 0 the status is [overcrowded] exactly when
    p/c > 0.85, [moderate] exactly when 0.60 < p/c <= 0.85 and [normal]
    otherwise; a ratio of exactly 0.85 is [moderate] and a ratio of exactly
    0.60 is [normal]. *)
Theorem status_thresholds (p c : Z) :
  (0 < c <= exact_capacity)%Z -> (0 <= p)%Z ->
  let ratio := inject_Z p / inject_Z c in
  (status_of p c = overcrowded <-> 0.85 < ratio) /\
  (status_of p c = moderate <-> 0.6 < ratio /\ ratio <= 0.85) /\
  (status_of p c = normal <-> ratio <= 0.6) /\
  (ratio == 0.85 -> status_of p c = moderate) /\
  (ratio == 0.6 -> status_of p c = normal).
Proof.
  intros [Hc Hb] Hp ratio.
  pose proof (percentage_low_85 p c Hc Hp) as L85.
  pose proof (percentage_low_60 p c Hc Hp) as L60.
  pose proof (percentage_high_85 p c Hc Hb) as H85.
  pose proof (percentage_high_60 p c Hc Hb) as H60.
  fold ratio in L85, L60, H85, H60.
  unfold status_of.
  set (percentage := fmul (fdiv (inject_Z p) (inject_Z c)) 100) in *.
  destruct (Qgt_bool percentage 85) eqn:G85.
  - apply Qgt_bool_true in G85.
    assert (R : 0.85 < ratio).
    { apply Qnot_le_lt. intros C. apply L85 in C. lra. }
    repeat split; try discriminate; try (intros; lra).
  - apply Qgt_bool_false in G85.
    assert (R : ratio <= 0.85).
    { apply Qnot_lt_le. intros C. apply H85 in C. lra. }
    destruct (Qgt_bool percentage 60) eqn:G60.
    + apply Qgt_bool_true in G60.
      assert (R' : 0.6 < ratio).
      { apply Qnot_le_lt. intros C. apply L60 in C. lra. }
      repeat split; try discriminate; try (intros; lra); try (intros; assumption).
    + apply Qgt_bool_false in G60.
      assert (R' : ratio <= 0.6).
      { apply Qnot_lt_le. intros C. apply H60 in C. lra. }
      repeat split; try discriminate; try (intros; lra); try (intros; assumption).
Qed.

Lemma status_thresholds_witness :
  ((0 < 5880 <= exact_capacity)%Z /\ (0 <= 4625)%Z) /\
  status_of 4625 5880 = moderate.
Proof.
  assert (H : (0 < 5880 <= exact_capacity)%Z /\ (0 <= 4625)%Z).
  { unfold exact_capacity. lia. }
  split; [exact H |].
  destruct H as [Hc Hp].
  destruct (status_thresholds 4625 5880 Hc Hp) as (_ & M & _).
  apply M. split; reflexivity || discriminate.
Defined.

(** Beyond that capacity the quotient of a ratio just above 0.85 rounds to
    the binary64 value of 0.85 itself: the zone is reported [moderate]. *)
Lemma status_thresholds_large_capacity :
  let p := 1700000000000006%Z in
  let c := 2000000000000007%Z in
  (0 < c)%Z /\ (0 <= p)%Z /\
  ~ (status_of p c = overcrowded <-> 0.85 < inject_Z p / inject_Z c).
Proof.
  intros p c. split; [reflexivity |]. split; [discriminate |].
  intros [_ H].
  assert (R : 0.85 < inject_Z p / inject_Z c) by reflexivity.
  apply H in R.
  assert (S : status_of p c = moderate) by (vm_compute; reflexivity).
  rewrite S in R. discriminate R.
Qed.

(** ** Density *)

Lemma density_spec_div p c : density_spec p c = (120 * p / c)%Z.
Proof.
  unfold density_spec. rewrite Zdiv_Qdiv. apply Qfloor_comp.
  rewrite inject_Z_mult. unfold Qdiv. ring.
Qed.

Lemma steps_complete m : (0 <= m <= 120)%Z -> In m steps.
Proof.
  intros H. unfold steps. apply in_map_iff. exists (Z.to_nat m). split.
  - lia.
  - apply in_seq. lia.
Qed.

(** The two roundings never fall below a multiple of 1/120 ... *)
Lemma density_steps_reached :
  forallb (fun m => Qle_bool (inject_Z m) (fmul (round64 (m # 120)) 120)) steps = true.
Proof. vm_compute. reflexivity. Qed.

(** ... and never reach the next one from below. *)
Lemma density_steps_not_exceeded :
  forallb (fun m => Qgt_bool (inject_Z (m + 1))
                      (fmul (round64 (Qmin 1 (below_step m))) 120)) steps = true.
Proof. vm_compute. reflexivity. Qed.

Section Density.

Variables p c : Z.
Hypothesis capacity_range : (0 < c <= density_capacity)%Z.
Hypothesis population_range : (0 <= p <= c)%Z.

Let m : Z := (120 * p / c)%Z.

Lemma density_step_range : (0 <= m <= 120)%Z /\ (m * c <= 120 * p < (m + 1) * c)%Z.
Proof.
  destruct capacity_range as [Hc _]. destruct population_range as [Hp Hpc].
  unfold m. split; [split |].
  - apply Z.div_pos; lia.
  - apply Z.div_le_upper_bound; lia.
  - pose proof (Z.mul_div_le (120 * p) c Hc).
    pose proof (Z.mul_succ_div_gt (120 * p) c Hc). lia.
Qed.

Lemma density_lower : inject_Z m <= fmul (fdiv (inject_Z p) (inject_Z c)) 120.
Proof.
  destruct density_step_range as [R [L _]].
  destruct capacity_range as [Hc _].
  pose proof density_steps_reached as T.
  rewrite forallb_forall in T. specialize (T m (steps_complete m R)).
  apply Qle_bool_iff in T.
  apply (Qle_trans _ _ _ T).
  apply scaled_mono; [discriminate | |].
  - unfold Qle. cbn. lia.
  - apply fraction_le_ratio; [exact Hc |]. lia.
Qed.

Lemma density_upper : fmul (fdiv (inject_Z p) (inject_Z c)) 120 < inject_Z (m + 1).
Proof.
  destruct density_step_range as [R [_ U]].
  destruct capacity_range as [Hc Hb]. destruct population_range as [Hp Hpc].
  pose proof density_steps_not_exceeded as T.
  rewrite forallb_forall in T. specialize (T m (steps_complete m R)).
  apply Qgt_bool_true in T.
  apply (Qle_lt_trans _ (fmul (round64 (Qmin 1 (below_step m))) 120));
    [| exact T].
  apply scaled_mono; [discriminate | apply ratio_nonneg; assumption |].
  apply Q.min_glb.
  - change 1 with (1 # 1). apply ratio_le_fraction; [exact Hc | lia].
  - unfold below_step. apply ratio_le_fraction; [exact Hc |].
    unfold density_capacity in Hb.
    change (2 ^ 46)%Z with 70368744177664%Z in *.
    change (Zpos (120 * 70368744177664)) with 8444249301319680%Z. nia.
Qed.

Lemma density_exact : density_of p c = density_spec p c.
Proof.
  rewrite density_spec_div. fold m. unfold density_of.
  apply Qfloor_unique; [exact density_lower | exact density_upper].
Qed.

End Density.

(** C2 (as amended).  For every integer capacity 0 < c <= 2^46 and every
    population 0 <= p <= c the density of a reading equals
    floor((p/c) * 120); for p = 4625 and c = 5880 it is 94. *)
Theorem density_floor (p c : Z) :
  (0 < c <= density_capacity)%Z -> (0 <= p <= c)%Z ->
  density_of p c = Qfloor (inject_Z p / inject_Z c * 120) /\
  density_of 4625 5880 = 94%Z.
Proof.
  intros Hc Hp. split.
  - apply density_exact; assumption.
  - vm_compute. reflexivity.
Qed.

Lemma density_floor_witness :
  ((0 < 5880 <= density_capacity)%Z /\ (0 <= 4625 <= 5880)%Z) /\
  density_of 4625 5880 = Qfloor (inject_Z 4625 / inject_Z 5880 * 120).
Proof.
  assert (H : (0 < 5880 <= density_capacity)%Z /\ (0 <= 4625 <= 5880)%Z).
  { unfold density_capacity. lia. }
  split; [exact H |].
  destruct H as [Hc Hp].
  exact (proj1 (density_floor 4625 5880 Hc Hp)).
Defined.

(** Above the capacity the product of the rounded quotient can fall just
    below the exact value: 41/40 is stored as 1.02499999999999991 and
    its product with 120 as 122.99999999999998579, so the density of a
    zone holding 41 for a capacity of 40 is 122 and not 123. *)
Lemma density_floor_over_capacity :
  (0 < 40)%Z /\ (0 <= 41)%Z /\
  density_of 41 40 = 122%Z /\
  Qfloor (inject_Z 41 / inject_Z 40 * 120) = 123%Z /\
  density_of 41 40 <> Qfloor (inject_Z 41 / inject_Z 40 * 120).
Proof.
  split; [reflexivity |]. split; [discriminate |].
  split; [vm_compute; reflexivity |]. split; [vm_compute; reflexivity |].
  vm_compute. discriminate.
Qed.

(** ** Cluster labels *)

Local Open Scope Z_scope.

Lemma mapi_from_nth {A B} (f : A -> nat -> B) (l : list A) :
  forall start i,
    nth_error (mapi_from f start l) i =
    option_map (fun a => f a (start + i)%nat) (nth_error l i).
Proof.
  induction l as [| a l IH]; intros start i.
  - destruct i; reflexivity.
  - destruct i as [| i]; cbn.
    + rewrite Nat.add_0_r. reflexivity.
    + rewrite IH. rewrite Nat.add_succ_r. reflexivity.
Qed.

Lemma mapi_nth {A B} (f : A -> nat -> B) (l : list A) i :
  nth_error (mapi f l) i = option_map (fun a => f a i) (nth_error l i).
Proof. unfold mapi. rewrite mapi_from_nth. reflexivity. Qed.

Lemma mapi_from_length {A B} (f : A -> nat -> B) (l : list A) :
  forall start, List.length (mapi_from f start l) = List.length l.
Proof. induction l as [| a l IH]; intros start; cbn; [| rewrite IH]; reflexivity. Qed.

(** After the loop, [clusterId] is either untouched, when no cluster
    includes [idx], or the index of the last cluster that does. *)
Lemma forEach_cluster_cases idx clusters :
  forall clusterIdx clusterId,
    let result := forEach_cluster clusters clusterIdx idx clusterId in
    (result = clusterId /\ forall cl, In cl clusters -> includes cl idx = false) \/
    (exists k cl,
        nth_error clusters k = Some cl /\ includes cl idx = true /\
        result = clusterIdx + Z.of_nat k /\
        forall k' cl', (k < k')%nat -> nth_error clusters k' = Some cl' ->
                       includes cl' idx = false).
Proof.
  induction clusters as [| cluster rest IH]; intros clusterIdx clusterId; cbn.
  - left. split; [reflexivity | intros cl []].
  - specialize (IH (clusterIdx + 1)
                   (if includes cluster idx then clusterIdx else clusterId)).
    cbn in IH. destruct IH as [[E N] | (k & cl & Hk & Hi & E & L)].
    + destruct (includes cluster idx) eqn:I.
      * right. exists 0%nat, cluster. repeat split; try assumption.
        -- rewrite E. lia.
        -- intros k' cl' Hlt Hn. destruct k' as [| k']; [lia |].
           cbn in Hn. apply N. apply (nth_error_In _ _ Hn).
      * left. split; [exact E |]. intros cl [<- | Hin]; [exact I | apply N, Hin].
    + right. exists (S k), cl. repeat split; try assumption.
      * rewrite E. lia.
      * intros k' cl' Hlt Hn. destruct k' as [| k']; [lia |].
        apply (L k' cl'); [lia | exact Hn].
Qed.

(** [cluster.includes(idx)] holds exactly of the elements of the
    cluster. *)
Lemma includes_In cluster idx : includes cluster idx = true <-> In idx cluster.
Proof.
  unfold includes. rewrite existsb_exists. split.
  - intros (x & Hx & E). apply Nat.eqb_eq in E. subst x. exact Hx.
  - intros H. exists idx. split; [exact H | apply Nat.eqb_refl].
Qed.

Lemma includes_not_In cluster idx : includes cluster idx = false <-> ~ In idx cluster.
Proof.
  rewrite <- includes_In. destruct (includes cluster idx); split; congruence.
Qed.

Section ClusterLabel.

Variable clusters : list (list nat).
Variable idx : nat.

Let noise : Prop := noise clusters idx.
Let member : nat -> Prop := member clusters idx.

Lemma cluster_of_cases :
  (cluster_of clusters idx = 0 /\ noise) \/
  (exists k, cluster_of clusters idx = Z.of_nat k + 1 /\ member k).
Proof.
  unfold cluster_of.
  destruct (forEach_cluster_cases idx clusters 0 (-1))
    as [[E N] | (k & cl & Hk & Hi & E & L)]; cbn in E; rewrite E.
  - left. split; [reflexivity |].
    intros cl Hcl. apply includes_not_In. apply N. exact Hcl.
  - right. exists k. split.
    + destruct (_ =? _) eqn:Q; [apply Z.eqb_eq in Q |]; lia.
    + split; [exists cl; split; [exact Hk | apply includes_In; exact Hi] |].
      intros k' cl' Hlt Hn. apply includes_not_In. apply (L k' cl' Hlt Hn).
Qed.

Lemma member_not_noise k : member k -> ~ noise.
Proof.
  intros [(cl & Hn & Hi) _] N.
  exact (N cl (nth_error_In _ _ Hn) Hi).
Qed.

Lemma member_unique k k' : member k -> member k' -> k = k'.
Proof.
  intros [(cl & Hn & Hi) L] [(cl' & Hn' & Hi') L'].
  destruct (Nat.lt_trichotomy k k') as [Hlt | [E | Hgt]]; [| exact E |].
  - destruct (L k' cl' Hlt Hn' Hi').
  - destruct (L' k cl Hgt Hn Hi).
Qed.

Lemma cluster_of_spec :
  0 <= cluster_of clusters idx /\
  (cluster_of clusters idx = 0 <-> noise) /\
  (forall k, cluster_of clusters idx = Z.of_nat k + 1 <-> member k).
Proof.
  destruct cluster_of_cases as [[E N] | (k & E & M)]; rewrite E.
  - split; [lia |]. split; [tauto |].
    intros k. split; [lia |]. intros M. destruct (member_not_noise k M N).
  - split; [lia |]. split.
    + split; [lia |]. intros N. destruct (member_not_noise k M N).
    + intros k'. split.
      * intros E'. assert (k' = k) by lia. subst k'. exact M.
      * intros M'. rewrite (member_unique k' k M' M). reflexivity.
Qed.

End ClusterLabel.

(** The readings of [applyDBSCAN], element by element. *)
Lemma applyDBSCAN_nth dbscan_run clock zoneData idx :
  nth_error (applyDBSCAN dbscan_run clock zoneData) idx =
  option_map
    (fun zone =>
       {| Zone.zoneId := Signal.zoneId zone;
          Zone.zoneName := Signal.zoneName zone;
          Zone.population := Signal.population zone;
          Zone.density := density_of (Signal.population zone) (Signal.capacity zone);
          Zone.cluster :=
            cluster_of (dbscan_run (map Signal.coordinates zoneData) 30%Q 2) idx;
          Zone.capacity := Signal.capacity zone;
          Zone.status := status_of (Signal.population zone) (Signal.capacity zone);
          Zone.timestamp := clock idx |})
    (nth_error zoneData idx).
Proof. unfold applyDBSCAN. rewrite mapi_nth. reflexivity. Qed.

(** C5.  In the classified output of a tick the cluster field of every
    reading is a non-negative integer: it is 0 exactly when the zone's
    point belongs to no cluster of the clusterer, and it is k + 1 exactly
    when the cluster of 0-based index k is the last one to which the
    point belongs.  When the point belongs to one cluster only, as with
    the disjoint clusters of DBSCAN, the field is the 1-based index of
    that cluster. *)
Theorem cluster_field dbscan_run clock zoneData idx reading :
  nth_error (applyDBSCAN dbscan_run clock zoneData) idx = Some reading ->
  let clusters := dbscan_run (map Signal.coordinates zoneData) 30%Q 2 in
  0 <= Zone.cluster reading /\
  (Zone.cluster reading = 0 <-> noise clusters idx) /\
  (forall k, Zone.cluster reading = Z.of_nat k + 1 <-> member clusters idx k) /\
  (forall k cl,
     nth_error clusters k = Some cl -> In idx cl ->
     (forall k' cl', nth_error clusters k' = Some cl' -> In idx cl' -> k' = k) ->
     Zone.cluster reading = Z.of_nat k + 1).
Proof.
  intros H clusters. rewrite applyDBSCAN_nth in H.
  destruct (nth_error zoneData idx) as [zone |]; [| discriminate].
  injection H as <-. cbn [Zone.cluster]. fold clusters.
  destruct (cluster_of_spec clusters idx) as (P & N & M).
  split; [exact P |]. split; [exact N |]. split; [exact M |].
  intros k cl Hk Hi U. apply M. split.
  - exists cl. split; assumption.
  - intros k' cl' Hlt Hk' Hi'. specialize (U k' cl' Hk' Hi'). lia.
Qed.

(** ** The simulator *)

(** A traversal whose callback consumes [n] draws per element hands
    element [i] the draws from [n * i] on. *)
Lemma mapM_fixed {A B} (f : A -> Draw B) (g : A -> nat -> B) (n : nat) :
  (forall a k, f a k = (g a k, (n + k)%nat)) ->
  forall l k,
    snd (mapM f l k) = (n * List.length l + k)%nat /\
    List.length (fst (mapM f l k)) = List.length l /\
    forall i a, nth_error l i = Some a ->
                nth_error (fst (mapM f l k)) i = Some (g a (n * i + k)%nat).
Proof.
  intros Hf. induction l as [| a l IH]; intros k.
  - cbn. repeat split; try lia. intros [| i] b H; discriminate H.
  - specialize (IH (n + k)%nat).
    destruct (mapM f l (n + k)%nat) as [bs k'] eqn:E.
    assert (R : mapM f (a :: l) k = (g a k :: bs, k')).
    { cbn [mapM]. unfold bind, ret. rewrite Hf. rewrite E. reflexivity. }
    rewrite R. cbn [fst snd] in *. destruct IH as (Hk & Hl & Hn).
    cbn [List.length]. repeat split.
    + rewrite Nat.mul_succ_r. lia.
    + lia.
    + intros [| i] b H; cbn in H |- *.
      * injection H as <-. rewrite Nat.mul_0_r. reflexivity.
      * rewrite (Hn i b H). f_equal. f_equal. rewrite Nat.mul_succ_r. lia.
Qed.

Lemma simulate_run random zone k :
  simulate random zone k = (signal_at random zone k, (3 + k)%nat).
Proof.
  unfold simulate, bind, Math_random, ret, signal_at, population_of. reflexivity.
Qed.

Lemma generateNetworkActivity_run random k :
  snd (generateNetworkActivity random k) = (3 * List.length ZONES + k)%nat /\
  List.length (fst (generateNetworkActivity random k)) = List.length ZONES /\
  forall i zone, nth_error ZONES i = Some zone ->
    nth_error (fst (generateNetworkActivity random k)) i
    = Some (signal_at random zone (3 * i + k)).
Proof.
  unfold generateNetworkActivity.
  apply (mapM_fixed (simulate random) (signal_at random) 3).
  apply simulate_run.
Qed.

Local Open Scope Q_scope.

Lemma lit_half : lit 0.5 == 1 # 2.
Proof. vm_compute. reflexivity. Qed.

Lemma lit_nonneg q : 0 <= q -> 0 <= lit q.
Proof. apply round64_nonneg. Qed.

Lemma fmul_nonneg a b : 0 <= a -> 0 <= b -> 0 <= fmul a b.
Proof. intros Ha Hb. apply round64_nonneg. apply Qmult_le_0_compat; assumption. Qed.

Lemma fmul_mono_l a a' b : 0 <= a -> a <= a' -> 0 <= b -> fmul a b <= fmul a' b.
Proof.
  intros Ha Haa Hb. apply round64_mono.
  - apply Qmult_le_0_compat; assumption.
  - apply Qmult_le_compat_r; assumption.
Qed.

Lemma fadd_mono_r a b b' : 0 <= a -> 0 <= b -> b <= b' -> fadd a b <= fadd a b'.
Proof. intros Ha Hb Hbb. apply round64_mono; lra. Qed.

Lemma inject_Z_nonneg c : (0 <= c)%Z -> 0 <= inject_Z c.
Proof. intros H. change 0 with (inject_Z 0). rewrite <- Zle_Qle. exact H. Qed.

(** The population grows with the draw. *)
Lemma population_of_mono r r' c :
  0 <= r -> r <= r' -> (0 <= c)%Z -> (population_of r c <= population_of r' c)%Z.
Proof.
  intros Hr Hrr Hc. apply inject_Z_nonneg in Hc.
  unfold population_of. apply Qfloor_resp_le.
  assert (H5 : 0 <= lit 0.5) by (apply lit_nonneg; discriminate).
  assert (H3 : 0 <= lit 0.3) by (apply lit_nonneg; discriminate).
  apply fadd_mono_r.
  - apply fmul_nonneg; assumption.
  - apply fmul_nonneg; [apply fmul_nonneg |]; assumption.
  - apply fmul_mono_l; [apply fmul_nonneg; assumption | | exact H5].
    apply fmul_mono_l; assumption.
Qed.

Lemma population_of_nonneg r c : 0 <= r -> (0 <= c)%Z -> (0 <= population_of r c)%Z.
Proof.
  intros Hr Hc. apply inject_Z_nonneg in Hc.
  unfold population_of. rewrite <- (Qfloor_Z 0). apply Qfloor_resp_le.
  change (inject_Z 0) with 0.
  assert (H5 : 0 <= lit 0.5) by (apply lit_nonneg; discriminate).
  assert (H3 : 0 <= lit 0.3) by (apply lit_nonneg; discriminate).
  apply round64_nonneg.
  pose proof (fmul_nonneg (inject_Z c) (lit 0.3) Hc H3).
  pose proof (fmul_nonneg (fmul r (inject_Z c)) (lit 0.5)
                (fmul_nonneg r (inject_Z c) Hr Hc) H5).
  lra.
Qed.

Lemma registry_checked : forallb registry_check ZONES = true.
Proof. vm_compute. reflexivity. Qed.

Lemma registry_facts zone :
  In zone ZONES ->
  let c := ZoneConfig.capacity zone in
  (0 < c <= 5880)%Z /\
  population_of 1 c = Qfloor (0.8 * inject_Z c) /\
  fmul (inject_Z c) (lit 0.3) == 0.3 * inject_Z c.
Proof.
  intros H c. pose proof registry_checked as T.
  rewrite forallb_forall in T. specialize (T zone H).
  unfold registry_check in T. fold c in T.
  repeat (apply andb_prop in T; destruct T as [T ?]).
  repeat split.
  - apply Z.ltb_lt. assumption.
  - apply Z.leb_le. assumption.
  - apply Z.eqb_eq. assumption.
  - apply Qeq_bool_iff. assumption.
Qed.

(** Populations of the simulator stay within eighty percent of capacity. *)
Lemma population_of_range zone r :
  In zone ZONES -> 0 <= r -> r < 1 ->
  let c := ZoneConfig.capacity zone in
  (0 <= population_of r c <= Qfloor (0.8 * inject_Z c))%Z.
Proof.
  intros Hz Hr Hr1 c. destruct (registry_facts zone Hz) as ([Hc _] & Top & _).
  fold c in Hc, Top. split.
  - apply population_of_nonneg; [exact Hr | lia].
  - rewrite <- Top. apply population_of_mono; [exact Hr | lra | lia].
Qed.

Lemma floor_eighty c p : (p <= Qfloor (0.8 * inject_Z c))%Z -> (10 * p <= 8 * c)%Z.
Proof.
  intros H. rewrite Zle_Qle in H.
  pose proof (Qfloor_le (0.8 * inject_Z c)) as F.
  assert (Q : inject_Z p <= 0.8 * inject_Z c) by lra.
  rewrite Zle_Qle. rewrite !inject_Z_mult.
  change (inject_Z 10) with 10. change (inject_Z 8) with 8. lra.
Qed.

(** A zone filled to at most eighty percent is not overcrowded. *)
Lemma status_of_eighty p c :
  (0 < c)%Z -> (0 <= p)%Z -> (10 * p <= 8 * c)%Z ->
  status_of p c = normal \/ status_of p c = moderate.
Proof.
  intros Hc Hp H.
  assert (R : inject_Z p / inject_Z c <= 0.85).
  { apply ratio_le_fraction; [exact Hc | lia]. }
  pose proof (percentage_low_85 p c Hc Hp R) as L.
  unfold status_of. apply Qgt_bool_false in L. rewrite L.
  destruct (Qgt_bool _ 60); [right | left]; reflexivity.
Qed.

Lemma signal_of_simulator random k s :
  In s (fst (generateNetworkActivity random k)) ->
  exists i zone, In zone ZONES /\ s = signal_at random zone (3 * i + k)%nat.
Proof.
  intros H. apply In_nth_error in H. destruct H as [i Hi].
  destruct (generateNetworkActivity_run random k) as (_ & Hl & Hn).
  assert (Hlt : (i < List.length ZONES)%nat).
  { rewrite <- Hl. apply nth_error_Some. rewrite Hi. discriminate. }
  destruct (nth_error ZONES i) as [zone |] eqn:E.
  - exists i, zone. split; [apply (nth_error_In _ _ E) |].
    rewrite (Hn i zone E) in Hi. injection Hi as <-. reflexivity.
  - apply nth_error_None in E. lia.
Qed.

Lemma reading_of_snapshot dbscan_run env r :
  In r (snapshot dbscan_run env) ->
  exists s, In s (fst (generateNetworkActivity (random env) 0%nat)) /\
            Zone.population r = Signal.population s /\
            Zone.capacity r = Signal.capacity s /\
            Zone.status r = status_of (Signal.population s) (Signal.capacity s) /\
            Zone.zoneId r = Signal.zoneId s.
Proof.
  intros H. apply In_nth_error in H. destruct H as [i Hi].
  unfold snapshot in Hi. rewrite applyDBSCAN_nth in Hi.
  destruct (nth_error _ i) as [s |] eqn:E; [| discriminate].
  injection Hi as <-. exists s. split; [apply (nth_error_In _ _ E) |].
  repeat split.
Qed.

Lemma none_overcrowded rows :
  (forall row, In row rows -> Zone.b_status row <> overcrowded) ->
  overcrowdedZones (summarize rows) = 0%nat.
Proof.
  intros H. cbn. induction rows as [| row rows IH]; [reflexivity |].
  cbn. destruct (Zone.b_status row) eqn:E.
  - apply IH. intros x Hx. apply H. right. exact Hx.
  - apply IH. intros x Hx. apply H. right. exact Hx.
  - destruct (H row (or_introl eq_refl) E).
Qed.

Lemma simulated_signal_range env s :
  in_range env ->
  In s (fst (generateNetworkActivity (random env) 0%nat)) ->
  (0 < Signal.capacity s)%Z /\
  (0 <= Signal.population s <= Qfloor (0.8 * inject_Z (Signal.capacity s)))%Z.
Proof.
  intros Hr Hs. destruct (signal_of_simulator _ _ _ Hs) as (i & zone & Hz & ->).
  cbn [signal_at Signal.population Signal.capacity].
  destruct (Hr (3 * i + 0)%nat) as [R0 R1].
  split; [apply (registry_facts zone Hz) |].
  apply population_of_range; assumption.
Qed.

Lemma simulated_status dbscan_run r :
  simulated dbscan_run r -> Zone.status r = normal \/ Zone.status r = moderate.
Proof.
  intros (env & Hr & Hin).
  destruct (reading_of_snapshot _ _ _ Hin) as (s & Hs & _ & _ & -> & _).
  destruct (simulated_signal_range env s Hr Hs) as [Hc [Hp Hu]].
  apply status_of_eighty; [exact Hc | exact Hp | apply floor_eighty; exact Hu].
Qed.

Lemma simulated_none_overcrowded dbscan_run readings :
  (forall r, In r readings -> simulated dbscan_run r) ->
  overcrowdedZones (summarize (map Zone.first_brief readings)) = 0%nat.
Proof.
  intros Hall. apply none_overcrowded. intros row Hrow.
  apply in_map_iff in Hrow. destruct Hrow as (r & <- & Hin).
  cbn. destruct (simulated_status dbscan_run r (Hall r Hin)) as [E | E];
    rewrite E; discriminate.
Qed.

(** C10.  For every zone of the registry and every draw in [0,1) the
    simulated population is at most floor(0.8 * capacity), so the ratio
    of population to capacity is below 0.85; every reading classified
    from simulated signals is [normal] or [moderate], and the number of
    overcrowded zones counted over such readings is 0. *)
Theorem simulated_never_overcrowded dbscan_run (env : environment) :
  in_range env ->
  (forall s, In s (fst (generateNetworkActivity (random env) 0%nat)) ->
     (0 <= Signal.population s <= Qfloor (0.8 * inject_Z (Signal.capacity s)))%Z /\
     inject_Z (Signal.population s) / inject_Z (Signal.capacity s) < 0.85) /\
  (forall r, In r (snapshot dbscan_run env) ->
     Zone.status r = normal \/ Zone.status r = moderate) /\
  (forall readings, (forall r, In r readings -> simulated dbscan_run r) ->
     overcrowdedZones (summarize (map Zone.first_brief readings)) = 0%nat).
Proof.
  intros Hr. split; [| split].
  - intros s Hs. destruct (simulated_signal_range env s Hr Hs) as [Hc [Hp Hu]].
    split; [split; assumption |].
    apply floor_eighty in Hu.
    apply Qnot_le_lt. intros C. apply fraction_le_ratio in C; [| exact Hc]. lia.
  - intros r Hin. apply (simulated_status dbscan_run). exists env. split; assumption.
  - apply simulated_none_overcrowded.
Qed.

(** Two numbers less than one apart have floors at most one apart. *)
Lemma Qfloor_near x y :
  x - 1 < y -> y < x + 1 -> (Qfloor x - 1 <= Qfloor y <= Qfloor x + 1)%Z.
Proof.
  intros L U.
  pose proof (Qfloor_le x) as Lx. pose proof (Qlt_floor x) as Ux.
  pose proof (Qfloor_le y) as Ly. pose proof (Qlt_floor y) as Uy.
  rewrite inject_Z_plus in Ux, Uy. change (inject_Z 1) with 1 in Ux, Uy.
  assert (A : (Qfloor x < Qfloor y + 2)%Z).
  { rewrite Zlt_Qlt, inject_Z_plus. change (inject_Z 2) with 2. lra. }
  assert (B : (Qfloor y < Qfloor x + 2)%Z).
  { rewrite Zlt_Qlt, inject_Z_plus. change (inject_Z 2) with 2. lra. }
  lia.
Qed.

(** The three roundings of the population move it by less than one: the
    population is within one of the floor of the exact expression. *)
Lemma population_of_near_exact r c :
  0 <= r -> r < 1 -> (0 < c <= 5880)%Z ->
  fmul (inject_Z c) (lit 0.3) == 0.3 * inject_Z c ->
  let exact := inject_Z c * 0.3 + r * inject_Z c * 0.5 in
  (Qfloor exact - 1 <= population_of r c <= Qfloor exact + 1)%Z.
Proof.
  intros Hr Hr1 [Hc Hb] HA exact.
  assert (C0 : 0 < inject_Z c).
  { change 0 with (inject_Z 0). rewrite <- Zlt_Qlt. exact Hc. }
  assert (C1 : inject_Z c <= 5880).
  { change 5880 with (inject_Z 5880). rewrite <- Zle_Qle. exact Hb. }
  assert (P : pow2 13 == 8192) by reflexivity.
  assert (Eps : pow2 (13 - 54) == 1 # 2199023255552) by reflexivity.
  unfold population_of, exact. clear exact.
  set (C := inject_Z c) in *.
  assert (RC : 0 <= r * C /\ r * C <= C) by (split; nra).
  set (rc := r * C) in *. destruct RC as [RC0 RC1].
  (* first product *)
  assert (E1 : Qabs (fmul r C - rc) <= pow2 (13 - 54)).
  { apply round64_error; [exact RC0 | rewrite P; lra | lia]. }
  set (T1 := round64 rc) in *.
  assert (N1 : 0 <= T1) by (apply round64_nonneg; exact RC0).
  unfold fmul in E1. fold rc in E1. fold T1 in E1.
  rewrite Eps in E1. apply Qabs_Qle_condition in E1.
  (* second product *)
  assert (E2 : Qabs (fmul T1 (lit 0.5) - T1 * lit 0.5) <= pow2 (13 - 54)).
  { apply round64_error; rewrite ?P, ?lit_half; [lra | lra | lia]. }
  rewrite lit_half in E2 at 2.
  set (T2 := fmul T1 (lit 0.5)) in *.
  assert (N2 : 0 <= T2).
  { apply fmul_nonneg; [exact N1 | apply lit_nonneg; discriminate]. }
  rewrite Eps in E2. apply Qabs_Qle_condition in E2.
  (* the sum *)
  set (A := fmul C (lit 0.3)) in *.
  assert (E3 : Qabs (fadd A T2 - (A + T2)) <= pow2 (13 - 54)).
  { apply round64_error; rewrite ?P, ?HA; [lra | lra | lia]. }
  rewrite Eps in E3. apply Qabs_Qle_condition in E3.
  set (S := fadd A T2) in *.
  change (fadd A (fmul (fmul r C) (lit 0.5))) with S.
  apply Qfloor_near; lra.
Qed.

(** Binary64 draws below one give coordinates below one hundred. *)
Lemma coordinate_range r :
  is_double r -> 0 <= r -> r < 1 -> 0 <= fmul r 100 /\ fmul r 100 < 100.
Proof.
  intros D Hr Hr1. split.
  - apply fmul_nonneg; [exact Hr | discriminate].
  - apply (Qle_lt_trans _ (fmul (1 - pow2 (-53)) 100)).
    + apply fmul_mono_l; [exact Hr | apply double_below_one; assumption | discriminate].
    + vm_compute. reflexivity.
Qed.

(** C8 (as amended).  For every stream of binary64 draws in [0,1) the
    simulator returns exactly one signal per zone of the registry, in the
    order of the registry; the signal of zone i carries the zone's id,
    name and capacity, its population is the floor of
    capacity * 0.3 + r * capacity * 0.5 evaluated in binary64 arithmetic
    on the draw r numbered 3i, which is within one of the floor of the
    exact value, and its coordinate is one hundred times the two draws
    that follow, inside [0,100) x [0,100). *)
Theorem simulator_signals (random : nat -> Q) (k : nat) :
  (forall n, is_double (random n) /\ 0 <= random n /\ random n < 1) ->
  let networkData := fst (generateNetworkActivity random k) in
  List.length networkData = List.length ZONES /\
  forall i zone, nth_error ZONES i = Some zone ->
    exists s, nth_error networkData i = Some s /\
      Signal.zoneId s = ZoneConfig.id zone /\
      Signal.zoneName s = ZoneConfig.name zone /\
      Signal.capacity s = ZoneConfig.capacity zone /\
      let c := inject_Z (ZoneConfig.capacity zone) in
      let r := random (3 * i + k)%nat in
      let x := fmul (random (3 * i + k + 1)%nat) 100 in
      let y := fmul (random (3 * i + k + 2)%nat) 100 in
      Signal.population s
        = Qfloor (fadd (fmul c (lit 0.3)) (fmul (fmul r c) (lit 0.5))) /\
      (Qfloor (c * 0.3 + r * c * 0.5) - 1 <= Signal.population s
         <= Qfloor (c * 0.3 + r * c * 0.5) + 1)%Z /\
      Signal.coordinates s = (x, y) /\
      (0 <= x /\ x < 100) /\ (0 <= y /\ y < 100).
Proof.
  intros Hr networkData.
  destruct (generateNetworkActivity_run random k) as (_ & Hl & Hn).
  split; [exact Hl |].
  intros i zone Hz. exists (signal_at random zone (3 * i + k)).
  split; [apply Hn, Hz |].
  cbn [signal_at Signal.zoneId Signal.zoneName Signal.capacity
       Signal.population Signal.coordinates].
  destruct (registry_facts zone (nth_error_In _ _ Hz)) as (Hc & _ & HA).
  destruct (Hr (3 * i + k)%nat) as (_ & R0 & R1).
  replace (3 * i + k + 1)%nat with (S (3 * i + k)) by lia.
  replace (3 * i + k + 2)%nat with (S (S (3 * i + k))) by lia.
  repeat split; try reflexivity.
  - apply (population_of_near_exact _ _ R0 R1 Hc HA).
  - apply (population_of_near_exact _ _ R0 R1 Hc HA).
  - apply coordinate_range; apply (Hr (S (3 * i + k))).
  - apply coordinate_range; apply (Hr (S (3 * i + k))).
  - apply coordinate_range; apply (Hr (S (S (3 * i + k)))).
  - apply coordinate_range; apply (Hr (S (S (3 * i + k)))).
Qed.

Lemma sample_draws_range n :
  is_double (Sample.draws n) /\ 0 <= Sample.draws n /\ Sample.draws n < 1.
Proof.
  unfold Sample.draws. destruct (Nat.even n); repeat split;
    try discriminate; vm_compute; reflexivity.
Defined.

Lemma sample_env_range n : 0 <= random Sample.env n /\ random Sample.env n < 1.
Proof. exact (proj2 (sample_draws_range n)). Defined.

Lemma simulator_signals_witness :
  (forall n, is_double (Sample.draws n) /\ 0 <= Sample.draws n /\ Sample.draws n < 1) /\
  List.length (fst (generateNetworkActivity Sample.draws 0%nat)) = List.length ZONES.
Proof.
  split; [exact sample_draws_range |].
  exact (proj1 (simulator_signals Sample.draws 0%nat sample_draws_range)).
Defined.

(** For the largest draw the sum for zone AB1 lies half-way between
    4704 and the binary64 value below it and is rounded to 4704, whereas
    the exact expression stays below 4704 and has floor 4703. *)
Lemma simulator_signals_rounded_up :
  let r := Sample.last_draw in
  (is_double r /\ 0 <= r /\ r < 1) /\
  exists s, nth_error (fst (generateNetworkActivity (fun _ => r) 0%nat)) 0%nat = Some s /\
    Signal.capacity s = 5880%Z /\
    Signal.population s = 4704%Z /\
    Qfloor (inject_Z (Signal.capacity s) * 0.3
            + r * inject_Z (Signal.capacity s) * 0.5) = 4703%Z.
Proof.
  intros r. split.
  - repeat split; try discriminate; vm_compute; reflexivity.
  - destruct (generateNetworkActivity_run (fun _ => r) 0%nat) as (_ & _ & Hn).
    eexists. split; [apply (Hn 0%nat); reflexivity |].
    repeat split; vm_compute; reflexivity.
Qed.

Lemma simulated_never_overcrowded_witness :
  in_range Sample.env /\
  forall r, In r (snapshot Sample.clusterer Sample.env) ->
            Zone.status r = normal \/ Zone.status r = moderate.
Proof.
  split; [exact sample_env_range |].
  exact (proj1 (proj2 (simulated_never_overcrowded
                         Sample.clusterer Sample.env sample_env_range))).
Defined.

Lemma cluster_field_witness :
  nth_error (applyDBSCAN Sample.clusterer Sample.clock
               (fst (generateNetworkActivity Sample.draws 0%nat))) 1%nat
  = Some Sample.reading /\
  member [[0; 1]]%nat 1%nat 0%nat /\
  Zone.cluster Sample.reading = 1%Z.
Proof.
  assert (H : nth_error (applyDBSCAN Sample.clusterer Sample.clock
                           (fst (generateNetworkActivity Sample.draws 0%nat))) 1%nat
              = Some Sample.reading) by (vm_compute; reflexivity).
  assert (M : member [[0; 1]]%nat 1%nat 0%nat).
  { split.
    - exists [0; 1]%nat. split; [reflexivity | right; left; reflexivity].
    - intros k' cl' Hlt Hn. destruct k' as [| k']; [inversion Hlt |].
      destruct k'; discriminate Hn. }
  split; [exact H |]. split; [exact M |].
  destruct (cluster_field Sample.clusterer Sample.clock _ 1%nat Sample.reading H)
    as (_ & _ & L & _).
  exact (proj2 (L 0%nat) M).
Defined.

(** ** The time series *)

Local Open Scope Z_scope.

Section Sorting.

Variable before : Zone.t -> Zone.t -> bool.
Hypothesis before_total : forall a b, before a b = false -> before b a = true.
Hypothesis before_trans :
  forall a b c, before a b = true -> before b c = true -> before a c = true.

Let ordered (a b : Zone.t) : Prop := before a b = true.

Lemma insert_perm d l : Permutation (d :: l) (Zone.insert before d l).
Proof.
  induction l as [| x l IH]; cbn.
  - apply Permutation_refl.
  - destruct (before x d).
    + apply (perm_trans (perm_swap x d l)). apply perm_skip. exact IH.
    + apply Permutation_refl.
Qed.

Lemma sort_perm l : Permutation l (Zone.sort before l).
Proof.
  induction l as [| x l IH]; cbn.
  - apply perm_nil.
  - apply (perm_trans (perm_skip x IH)). apply insert_perm.
Qed.

Lemma insert_sorted d l :
  StronglySorted ordered l -> StronglySorted ordered (Zone.insert before d l).
Proof.
  induction l as [| x l IH]; intros S; cbn.
  - constructor; constructor.
  - apply StronglySorted_inv in S. destruct S as [S F].
    destruct (before x d) eqn:B.
    + constructor; [apply IH, S |].
      apply (Permutation_Forall (insert_perm d l)).
      constructor; [exact B | exact F].
    + apply before_total in B.
      constructor; [constructor; assumption |].
      constructor; [exact B |].
      apply (Forall_impl _ (fun y H => before_trans d x y B H) F).
Qed.

Lemma sort_sorted l : StronglySorted ordered (Zone.sort before l).
Proof.
  induction l as [| x l IH]; cbn.
  - constructor.
  - apply insert_sorted. exact IH.
Qed.

End Sorting.

Lemma descending_total a b :
  Zone.descending a b = false -> Zone.descending b a = true.
Proof. unfold Zone.descending. intros H. apply Z.leb_gt in H. apply Z.leb_le. lia. Qed.

Lemma descending_trans a b c :
  Zone.descending a b = true -> Zone.descending b c = true ->
  Zone.descending a c = true.
Proof. unfold Zone.descending. rewrite !Z.leb_le. lia. Qed.

Lemma ascending_total a b :
  Zone.ascending a b = false -> Zone.ascending b a = true.
Proof. unfold Zone.ascending. intros H. apply Z.leb_gt in H. apply Z.leb_le. lia. Qed.

Lemma ascending_trans a b c :
  Zone.ascending a b = true -> Zone.ascending b c = true ->
  Zone.ascending a c = true.
Proof. unfold Zone.ascending. rewrite !Z.leb_le. lia. Qed.

(** In a sorted list everything after an element is ordered after it. *)
Lemma sorted_after {A} (R : A -> A -> Prop) l1 d l2 :
  StronglySorted R (l1 ++ d :: l2) -> Forall (R d) l2.
Proof.
  induction l1 as [| x l1 IH]; cbn; intros S; apply StronglySorted_inv in S.
  - apply S.
  - apply IH, S.
Qed.

Lemma seen_spec z seen : existsb (String.eqb z) seen = true <-> In z seen.
Proof.
  rewrite existsb_exists. split.
  - intros (x & Hin & E). apply String.eqb_eq in E. subst x. exact Hin.
  - intros Hin. exists z. split; [exact Hin | apply String.eqb_refl].
Qed.

(** [$group] keeps a document when its zone was not met before. *)
Lemma group_first_in seen l d :
  In d (Zone.group_first seen l) -> In d l /\ ~ In (Zone.zoneId d) seen.
Proof.
  revert seen. induction l as [| x l IH]; intros seen H; cbn in H; [destruct H |].
  destruct (existsb (String.eqb (Zone.zoneId x)) seen) eqn:E.
  - destruct (IH seen H) as [Hin Hs]. split; [right; exact Hin | exact Hs].
  - destruct H as [<- | H].
    + split; [left; reflexivity |]. rewrite <- seen_spec, E. discriminate.
    + destruct (IH _ H) as [Hin Hs]. split; [right; exact Hin |].
      intros C. apply Hs. right. exact C.
Qed.

(** The document kept for a zone is the first of that zone in the stream. *)
Lemma group_first_first seen l d :
  In d (Zone.group_first seen l) ->
  exists l1 l2, l = l1 ++ d :: l2 /\
                forall x, In x l1 -> Zone.zoneId x <> Zone.zoneId d.
Proof.
  revert seen. induction l as [| x l IH]; intros seen H; [destruct H |].
  pose proof (group_first_in _ _ _ H) as [_ Hs]. cbn in H.
  destruct (existsb (String.eqb (Zone.zoneId x)) seen) eqn:E.
  - destruct (IH seen H) as (l1 & l2 & -> & F).
    exists (x :: l1), l2. split; [reflexivity |].
    intros y [<- | Hy]; [| apply F, Hy].
    apply seen_spec in E. intros C. rewrite C in E. exact (Hs E).
  - destruct H as [<- | H].
    + exists [], l. split; [reflexivity | intros y []].
    + pose proof (group_first_in _ _ _ H) as [_ Hs'].
      destruct (IH _ H) as (l1 & l2 & -> & F).
      exists (x :: l1), l2. split; [reflexivity |].
      intros y [<- | Hy]; [| apply F, Hy].
      intros C. apply Hs'. left. exact C.
Qed.

Lemma group_first_nodup seen l :
  NoDup (map Zone.zoneId (Zone.group_first seen l)).
Proof.
  revert seen. induction l as [| x l IH]; intros seen; cbn; [constructor |].
  destruct (existsb (String.eqb (Zone.zoneId x)) seen); [apply IH |].
  cbn. constructor; [| apply IH].
  intros C. apply in_map_iff in C. destruct C as (d & E & Hd).
  apply group_first_in in Hd. destruct Hd as [_ Hs]. apply Hs. left. symmetry. exact E.
Qed.

Lemma group_first_zones seen l z :
  In z (map Zone.zoneId l) -> ~ In z seen ->
  In z (map Zone.zoneId (Zone.group_first seen l)).
Proof.
  revert seen. induction l as [| x l IH]; intros seen H Hs; cbn in *; [destruct H |].
  destruct (existsb (String.eqb (Zone.zoneId x)) seen) eqn:E.
  - destruct H as [<- | H]; [| apply IH; assumption].
    apply seen_spec in E. destruct (Hs E).
  - cbn. destruct (String.eqb_spec (Zone.zoneId x) z) as [Ez | NE].
    + left. exact Ez.
    + right. destruct H as [H | H]; [destruct (NE H) |].
      apply IH; [exact H |]. intros [C | C]; [destruct (NE C) | exact (Hs C)].
Qed.

Lemma latest_some coll d :
  In d coll -> exists d', latest coll (Zone.zoneId d) = Some d'.
Proof.
  induction coll as [| x coll IH]; intros H; [destruct H |]. cbn.
  destruct (latest coll (Zone.zoneId d)) as [d' |] eqn:E; [exists d'; reflexivity |].
  destruct H as [-> | H].
  - rewrite String.eqb_refl. exists d. reflexivity.
  - destruct (IH H) as [d' C]. discriminate C.
Qed.

Lemma latest_none coll z x :
  latest coll z = None -> In x coll -> Zone.zoneId x <> z.
Proof.
  induction coll as [| y coll IH]; intros H Hin; [destruct Hin |]. cbn in H.
  destruct (latest coll z) eqn:E; [discriminate |].
  destruct (String.eqb_spec (Zone.zoneId y) z) as [Ey | Ny]; [discriminate |].
  destruct Hin as [<- | Hin]; [exact Ny | apply IH; [reflexivity | exact Hin]].
Qed.

(** The most recently appended reading of a zone carries the greatest
    timestamp of the zone, and no other reading does. *)
Lemma latest_newest coll z d :
  timestamps_increase coll -> latest coll z = Some d ->
  In d coll /\ Zone.zoneId d = z /\
  forall x, In x coll -> Zone.zoneId x = z ->
            x = d \/ Zone.timestamp x < Zone.timestamp d.
Proof.
  induction coll as [| y coll IH]; intros T H; [discriminate |].
  cbn in H. destruct T as [Ty T].
  destruct (latest coll z) as [d' |] eqn:E.
  - injection H as ->. destruct (IH T eq_refl) as (Hin & Hz & Hmax).
    split; [right; exact Hin |]. split; [exact Hz |].
    intros x [<- | Hx] Ex; [| apply Hmax; assumption].
    right. apply Ty; [exact Hin | congruence].
  - destruct (String.eqb_spec (Zone.zoneId y) z) as [Ey | Ny]; [| discriminate].
    injection H as ->. split; [left; reflexivity |]. split; [exact Ey |].
    intros x [<- | Hx] Ex; [left; reflexivity |].
    destruct (latest_none coll z x E Hx Ex).
Qed.

Lemma StronglySorted_impl {A} (R1 R2 : A -> A -> Prop) l :
  (forall a b, R1 a b -> R2 a b) -> StronglySorted R1 l -> StronglySorted R2 l.
Proof.
  intros H S. induction S as [| a l S IH F]; constructor.
  - exact IH.
  - apply (Forall_impl _ (H a) F).
Qed.

(** In any arrangement of the collection by descending timestamp, however
    equal timestamps are ordered, the first document of a zone is the
    most recently appended one. *)
Lemma first_of_zone_is_latest coll sorted d :
  timestamps_increase coll ->
  Permutation coll sorted ->
  StronglySorted (fun a b => Zone.descending a b = true) sorted ->
  In d (Zone.group_first [] sorted) ->
  latest coll (Zone.zoneId d) = Some d.
Proof.
  intros T P S H.
  destruct (group_first_first _ _ _ H) as (l1 & l2 & E & F).
  rewrite E in S, P. apply sorted_after in S. rewrite Forall_forall in S.
  assert (Hd : In d coll).
  { apply (Permutation_in _ (Permutation_sym P)). apply in_elt. }
  destruct (latest_some coll d Hd) as [d' L]. rewrite L. f_equal.
  destruct (latest_newest coll _ d' T L) as (Hin & Hz & Hmax).
  destruct (Hmax d Hd eq_refl) as [-> | Hlt]; [reflexivity |].
  exfalso.
  apply (Permutation_in _ P) in Hin. apply in_app_or in Hin.
  destruct Hin as [Hin | [-> | Hin]].
  - apply (F d' Hin Hz).
  - lia.
  - specialize (S d' Hin). unfold Zone.descending in S. apply Z.leb_le in S. lia.
Qed.

(** The document kept for a zone is a stored one, and no document of
    the zone is newer. *)
Lemma group_first_newest coll d :
  In d (Zone.group_first [] (Zone.sort Zone.descending coll)) ->
  In d coll /\
  forall x, In x coll -> Zone.zoneId x = Zone.zoneId d ->
            Zone.timestamp x <= Zone.timestamp d.
Proof.
  intros H.
  pose proof (sort_perm Zone.descending coll) as P.
  pose proof (sort_sorted Zone.descending descending_total descending_trans coll) as S.
  destruct (group_first_first _ _ _ H) as (l1 & l2 & E & F).
  rewrite E in S, P. apply sorted_after in S. rewrite Forall_forall in S.
  split.
  - apply (Permutation_in _ (Permutation_sym P)). apply in_elt.
  - intros x Hx Ez. apply (Permutation_in _ P) in Hx. apply in_app_or in Hx.
    destruct Hx as [Hx | [<- | Hx]].
    + destruct (F x Hx Ez).
    + lia.
    + specialize (S x Hx). unfold Zone.descending in S. apply Z.leb_le in S. exact S.
Qed.

Lemma first_carries d : carries (Zone.first d) d.
Proof. repeat split. Qed.

(** What [insertMany] answers: a failure, or the collection with the
    documents appended, all of which passed the validators. *)
Lemma insertMany_inr fault docs coll coll' :
  Zone.insertMany fault docs coll = inr coll' ->
  coll' = coll ++ docs /\ fault = None /\ forallb Zone.validate docs = true.
Proof.
  unfold Zone.insertMany.
  destruct (forallb Zone.validate docs); [| discriminate].
  destruct fault; [discriminate |].
  intros H. injection H as <-. repeat split.
Qed.

(** C3.  After the readings r1..rn are appended to an empty store, the
    latest-per-zone query returns exactly one row per distinct zoneId
    among them, and each row carries all the fields, the zone id under
    the key [_id], of a reading of its zone than which no reading of the
    zone has a greater timestamp.  When the timestamps of every zone
    grow in the order of appending, that reading is the most recently
    appended one of the zone. *)
Theorem latest_per_zone (readings coll : list Zone.t) :
  Zone.insertMany None readings [] = inr coll ->
  exists rows,
    Zone.getLatestData None coll = inr rows /\
    api_zones None coll = success rows /\
    NoDup (map Zone._id rows) /\
    (forall z, In z (map Zone._id rows) <-> In z (map Zone.zoneId readings)) /\
    (forall row, In row rows ->
       exists d, In d readings /\ carries row d /\
         forall x, In x readings -> Zone.zoneId x = Zone.zoneId d ->
                   Zone.timestamp x <= Zone.timestamp d) /\
    (timestamps_increase readings ->
     forall row, In row rows ->
       exists d, latest readings (Zone._id row) = Some d /\ carries row d).
Proof.
  intros H. apply insertMany_inr in H. destruct H as (-> & _ & _). cbn [app].
  exists (map Zone.first (Zone.group_first [] (Zone.sort Zone.descending readings))).
  set (G := Zone.group_first [] (Zone.sort Zone.descending readings)).
  assert (M : map Zone._id (map Zone.first G) = map Zone.zoneId G).
  { rewrite map_map. reflexivity. }
  split; [reflexivity |]. split; [reflexivity |].
  split; [| split; [| split]].
  - rewrite M. apply group_first_nodup.
  - intros z. rewrite M. split; intros H.
    + apply in_map_iff in H. destruct H as (d & <- & Hd).
      apply group_first_in in Hd. destruct Hd as [Hd _].
      apply in_map.
      apply (Permutation_in _ (Permutation_sym (sort_perm Zone.descending readings))).
      exact Hd.
    + apply group_first_zones; [| intros []].
      apply in_map_iff in H. destruct H as (d & <- & Hd).
      apply in_map. apply (Permutation_in _ (sort_perm Zone.descending readings)).
      exact Hd.
  - intros row H. apply in_map_iff in H. destruct H as (d & <- & Hd).
    destruct (group_first_newest readings d Hd) as [Hin Hmax].
    exists d. split; [exact Hin |]. split; [apply first_carries | exact Hmax].
  - intros T row H. apply in_map_iff in H. destruct H as (d & <- & Hd).
    exists d. split; [| apply first_carries]. cbn [Zone.first Zone._id].
    apply (first_of_zone_is_latest readings (Zone.sort Zone.descending readings));
      [exact T | apply sort_perm | | exact Hd].
    apply sort_sorted; [exact descending_total | exact descending_trans].
Qed.

(** The query orders the readings by timestamp, not by insertion: of two
    readings of a zone appended out of order it returns the first, which
    carries the greater timestamp, and not the most recently appended. *)
Lemma latest_per_zone_out_of_order :
  let appended := Stored.reading "AB2" 120 1700000000000 in
  exists row,
    Zone.insertMany None Stored.out_of_order [] = inr Stored.out_of_order /\
    api_zones None Stored.out_of_order = success [row] /\
    latest Stored.out_of_order (Zone._id row) = Some appended /\
    Zone.g_population row = 100 /\ Zone.population appended = 120 /\
    ~ carries row appended.
Proof.
  intros appended. exists (Zone.first (Stored.reading "AB2" 100 1700000005000)).
  split; [vm_compute; reflexivity |]. split; [vm_compute; reflexivity |].
  split; [vm_compute; reflexivity |]. split; [reflexivity |]. split; [reflexivity |].
  intros (_ & _ & C & _). discriminate C.
Qed.

(** ** History *)

Lemma filter_none {A} (f : A -> bool) l :
  (forall a, In a l -> f a = false) -> filter f l = [].
Proof.
  induction l as [| a l IH]; intros H; [reflexivity |]. cbn.
  rewrite (H a (or_introl eq_refl)). apply IH. intros b Hb. apply H. right. exact Hb.
Qed.

Lemma getZoneHistory_window coll now zoneId minutes :
  exists history,
    Zone.getZoneHistory None coll now zoneId minutes = inr history /\
    window coll now zoneId minutes history.
Proof.
  eexists. split; [reflexivity |].
  set (p := fun d => String.eqb (Zone.zoneId d) zoneId
                     && (now - minutes * 60 * 1000 <=? Zone.timestamp d)).
  pose proof (sort_perm Zone.ascending (filter p coll)) as P.
  split; [apply Permutation_sym; exact P |]. split; [| split].
  - intros d. split.
    + intros H. apply (Permutation_in _ (Permutation_sym P)) in H.
      apply filter_In in H. destruct H as [Hin Hp]. unfold p in Hp.
      apply andb_prop in Hp. destruct Hp as [Hz Ht].
      apply String.eqb_eq in Hz. apply Z.leb_le in Ht. repeat split; assumption.
    + intros (Hin & Hz & Ht). apply (Permutation_in _ P).
      apply filter_In. split; [exact Hin |]. unfold p.
      apply andb_true_intro. split; [apply String.eqb_eq, Hz | apply Z.leb_le, Ht].
  - apply (StronglySorted_impl (fun a b => Zone.ascending a b = true)).
    + intros a b H. unfold Zone.ascending in H. apply Z.leb_le. exact H.
    + apply sort_sorted; [exact ascending_total | exact ascending_trans].
  - intros U. rewrite (filter_none p coll); [reflexivity |].
    intros d Hd. unfold p. apply andb_false_intro1.
    apply String.eqb_neq. apply U. exact Hd.
Qed.

(** C4.  For every zoneId the history query returns, in a success
    response, exactly the stored readings of that zone whose timestamp
    is at least now minus the window (fifteen minutes for the endpoint,
    and by default), in ascending order of timestamp; for a zoneId that
    was never appended the sequence is empty and the response is still a
    success.  The only failure response carries an error thrown by the
    database. *)
Theorem history_window (coll : list Zone.t) (now : Z) (zoneId : string) :
  (forall minutes, exists history,
      Zone.getZoneHistory None coll now zoneId minutes = inr history /\
      window coll now zoneId minutes history) /\
  (exists history,
      api_history None coll now zoneId
      = success (zoneId, history, List.length history) /\
      window coll now zoneId 15 history) /\
  (forall fault error,
      api_history fault coll now zoneId = failure error <-> fault = Some error).
Proof.
  split; [| split].
  - intros minutes. apply getZoneHistory_window.
  - destruct (getZoneHistory_window coll now zoneId 15) as (history & E & W).
    exists history. split; [| exact W].
    unfold api_history. rewrite E. reflexivity.
  - intros fault error. unfold api_history. destruct fault as [e |]; cbn.
    + split; intros H; injection H as ->; reflexivity.
    + split; discriminate.
Qed.

(** ** Summary *)

Lemma active_test p : Qgt_bool (inject_Z p) 0 = (0 <? p).
Proof.
  destruct (Z.ltb_spec 0 p) as [H | H].
  - apply Qgt_bool_true. change 0%Q with (inject_Z 0). rewrite <- Zlt_Qlt. exact H.
  - apply Qgt_bool_false. change 0%Q with (inject_Z 0). rewrite <- Zle_Qle. exact H.
Qed.

Lemma sum_population_cons row rows :
  sum_population (row :: rows) = Zone.b_population row + sum_population rows.
Proof. reflexivity. Qed.

Lemma sum_population_nonneg rows :
  (forall row, In row rows -> 0 <= Zone.b_population row) -> 0 <= sum_population rows.
Proof.
  induction rows as [| x rows IH]; intros Hp; [cbn; lia |].
  rewrite sum_population_cons.
  assert (0 <= Zone.b_population x) by (apply Hp; left; reflexivity).
  assert (0 <= sum_population rows); [| lia].
  apply IH. intros y Hy. apply Hp. right. exact Hy.
Qed.

(** Below 2^53 the additions of [reduce] are exact. *)
Lemma reduce_exact rows :
  forall (sum : Q) (n : Z),
    (sum == inject_Z n)%Q -> 0 <= n ->
    (forall row, In row rows -> 0 <= Zone.b_population row) ->
    n + sum_population rows <= 2 ^ 53 ->
    (fold_left (fun sum z => fadd sum (inject_Z (Zone.b_population z))) rows sum
     == inject_Z (n + sum_population rows))%Q.
Proof.
  induction rows as [| row rows IH]; intros sum n E Hn Hp Hs.
  - cbn. rewrite Z.add_0_r. exact E.
  - rewrite sum_population_cons in *. cbn [fold_left].
    assert (P : 0 <= Zone.b_population row) by (apply Hp; left; reflexivity).
    assert (R : 0 <= sum_population rows).
    { apply sum_population_nonneg. intros y Hy. apply Hp. right. exact Hy. }
    rewrite Z.add_assoc. apply IH.
    + unfold fadd.
      assert (S : (sum + inject_Z (Zone.b_population row)
                   == inject_Z (n + Zone.b_population row))%Q).
      { rewrite inject_Z_plus, E. reflexivity. }
      rewrite <- (round64_integer (n + Zone.b_population row)) by lia.
      apply round64_eq; [| exact S].
      rewrite S. apply inject_Z_nonneg. lia.
    + lia.
    + intros x Hx. apply Hp. right. exact Hx.
    + lia.
Qed.

Lemma Status_eqb_eq a b : Status_eqb a b = true <-> a = b.
Proof. destruct a, b; cbn; split; congruence. Qed.

(** Filtering by a test that decides [P] keeps as many elements as
    satisfy [P]. *)
Lemma count_filter {A} (P : A -> Prop) (f : A -> bool) l :
  (forall a, f a = true <-> P a) -> count P l (List.length (filter f l)).
Proof.
  intros H. induction l as [| a l IH]; cbn [filter]; [constructor |].
  destruct (f a) eqn:E.
  - cbn [List.length]. apply count_in; [apply H; exact E | exact IH].
  - apply count_out; [| exact IH]. intros C. apply H in C. congruence.
Qed.

Lemma count_unique {A} (P : A -> Prop) l : forall n m, count P l n -> count P l m -> n = m.
Proof.
  induction l as [| a l IH]; intros n m Hn Hm.
  - inversion Hn. inversion Hm. reflexivity.
  - inversion Hn; inversion Hm; subst; try contradiction.
    + f_equal. apply IH; assumption.
    + apply IH; assumption.
Qed.

(** C9.  Applied to the latest reading of every zone, the summary has
    [activeZones] equal to the number of them with a population above 0,
    [overcrowdedZones] equal to the number of them with status
    overcrowded, [totalZones] equal to the number of zones of the
    registry, and [totalPopulation] equal to the sum of their
    populations when these are non-negative integers whose sum is at
    most 2^53. *)
Theorem summary_fields (coll : list Zone.t) (latestZones : list Zone.group) :
  Zone.getLatestData None coll = inr latestZones ->
  exists s,
    api_summary None coll = success s /\
    count (fun z => 0 < Zone.g_population z) latestZones (activeZones s) /\
    count (fun z => Zone.g_status z = overcrowded) latestZones (overcrowdedZones s) /\
    totalZones s = List.length ZONES /\ totalZones s = 9%nat /\
    ((forall z, In z latestZones -> 0 <= Zone.g_population z) ->
     population_sum latestZones <= 2 ^ 53 ->
     (totalPopulation s == inject_Z (population_sum latestZones))%Q).
Proof.
  intros L. injection L as <-.
  set (G := Zone.group_first [] (Zone.sort Zone.descending coll)) in *.
  exists (summarize (map Zone.first_brief G)).
  assert (B : map Zone.first_brief G = map brief_of (map Zone.first G)).
  { rewrite map_map. reflexivity. }
  split; [reflexivity |]. rewrite B. clear B.
  generalize (map Zone.first G). clear G. intros rows.
  assert (Sum : sum_population (map brief_of rows) = population_sum rows).
  { clear. induction rows as [| g rows IH]; cbn; [reflexivity |].
    unfold sum_population in IH. rewrite IH. reflexivity. }
  split; [| split; [| split; [reflexivity | split; [reflexivity |]]]].
  - cbn [summarize activeZones]. rewrite filter_map_swap, length_map.
    apply count_filter. intros g. cbn [brief_of Zone.b_population].
    rewrite active_test. apply Z.ltb_lt.
  - cbn [summarize overcrowdedZones]. rewrite filter_map_swap, length_map.
    apply count_filter. intros g. cbn [brief_of Zone.b_status]. apply Status_eqb_eq.
  - intros Hp Hs. cbn [summarize totalPopulation]. unfold reduce_population.
    rewrite <- Sum.
    apply (reduce_exact (map brief_of rows) 0%Q 0); [reflexivity | lia | |].
    + intros row Hrow. apply in_map_iff in Hrow. destruct Hrow as (g & <- & Hg).
      cbn. apply Hp. exact Hg.
    + rewrite Sum. exact Hs.
Qed.

(** Beyond 2^53 the additions of [reduce] round: for two zones holding
    2^53 and 1 the summary reports 2^53, one less than the sum. *)
Lemma summary_fields_sum_rounded :
  exists rows s,
    Zone.getLatestData None Stored.crowded = inr rows /\
    (forall z, In z rows -> 0 <= Zone.g_population z) /\
    api_summary None Stored.crowded = success s /\
    population_sum rows = 9007199254740993 /\
    (totalPopulation s == 9007199254740992)%Q /\
    ~ (totalPopulation s == inject_Z (population_sum rows))%Q.
Proof.
  eexists. eexists.
  split; [vm_compute; reflexivity |].
  split; [intros z [<- | [<- | []]]; discriminate |].
  split; [reflexivity |].
  split; [vm_compute; reflexivity |].
  split; [vm_compute; reflexivity |].
  vm_compute. discriminate.
Qed.

(** ** Broadcast and on-demand refresh *)

Lemma snapshot_unfold dbscan_run env :
  snapshot dbscan_run env
  = applyDBSCAN dbscan_run (Date_now env)
      (fst (generateNetworkActivity (random env) 0%nat)).
Proof. reflexivity. Qed.

(** From here on a snapshot is unfolded by this equation only: what it
    holds plays no part in how the server passes it on. *)
Opaque snapshot.

Lemma received_emit socket other data (s : server) :
  received other (socket_emit socket data s)
  = received other s ++ (if Nat.eqb socket other then [data] else []).
Proof.
  unfold received, socket_emit. cbn [emitted].
  rewrite filter_app, map_app. cbn [filter fst].
  destruct (Nat.eqb socket other); reflexivity.
Qed.

(** C6.  The on-demand refresh runs simulator, clusterer and classifier
    for a fresh tick and emits the snapshot to the requesting socket
    alone: the collection is left as it was, so is every query response,
    and no other socket receives anything. *)
Theorem on_demand_refresh dbscan_run (socket : nat) (env : environment) (s : server) :
  let s' := step dbscan_run s (RequestUpdate socket env) in
  let data := applyDBSCAN dbscan_run (Date_now env)
                (fst (generateNetworkActivity (random env) 0%nat)) in
  collection s' = collection s /\
  (forall fault, api_zones fault (collection s') = api_zones fault (collection s)) /\
  emitted s' = emitted s ++ [(socket, data)] /\
  received socket s' = received socket s ++ [data] /\
  (forall other, other <> socket -> received other s' = received other s) /\
  sockets s' = sockets s /\ console s' = console s.
Proof.
  intros s' data.
  change data with (snapshot dbscan_run env).
  change s' with (socket_emit socket (snapshot dbscan_run env) s).
  clear s' data. generalize (snapshot dbscan_run env). intros data.
  split; [reflexivity |]. split; [reflexivity |]. split; [reflexivity |].
  split; [| split; [| split; reflexivity]].
  - rewrite received_emit, Nat.eqb_refl. reflexivity.
  - intros other NE. rewrite received_emit.
    destruct (Nat.eqb_spec socket other) as [E | _]; [destruct (NE (eq_sym E)) |].
    apply app_nil_r.
Qed.

Lemma insertMany_cases fault docs coll :
  (exists error, Zone.insertMany fault docs coll = inl error) \/
  Zone.insertMany fault docs coll = inr (coll ++ docs).
Proof.
  unfold Zone.insertMany.
  destruct (forallb Zone.validate docs); [destruct fault |]; eauto.
Qed.

(** [saveZoneData] returns whatever the insertion does: the error never
    leaves the function. *)
Lemma saveZoneData_fulfilled fault zoneData s :
  snd (saveZoneData fault zoneData s) = fulfilled.
Proof. unfold saveZoneData. destruct (Zone.insertMany _ _ _); reflexivity. Qed.

Lemma saveZoneData_frame fault zoneData s :
  sockets (fst (saveZoneData fault zoneData s)) = sockets s /\
  emitted (fst (saveZoneData fault zoneData s)) = emitted s.
Proof. unfold saveZoneData. destruct (Zone.insertMany _ _ _); split; reflexivity. Qed.

Lemma saveZoneData_collection fault zoneData s :
  collection (fst (saveZoneData fault zoneData s))
  = match Zone.insertMany fault zoneData (collection s) with
    | inr coll => coll
    | inl _ => collection s
    end.
Proof. unfold saveZoneData. destruct (Zone.insertMany _ _ _); reflexivity. Qed.

Lemma tick_unfold dbscan_run env s :
  tick dbscan_run env s
  = log (console_log Message.broadcasted)
      (io_emit (snapshot dbscan_run env)
         (fst (saveZoneData (fault env) (snapshot dbscan_run env)
                 (log (console_log Message.generating) s)))).
Proof.
  unfold tick. generalize (snapshot dbscan_run env). intros data.
  generalize (log (console_log Message.generating) s). intros s0.
  pose proof (saveZoneData_fulfilled (fault env) data s0) as F.
  destruct (saveZoneData (fault env) data s0) as [s1 saving].
  cbn [snd] in F. subst saving. reflexivity.
Qed.

Lemma log_frame line s :
  collection (log line s) = collection s /\ sockets (log line s) = sockets s /\
  emitted (log line s) = emitted s.
Proof. repeat split. Qed.

Lemma io_emit_frame data s :
  collection (io_emit data s) = collection s /\ sockets (io_emit data s) = sockets s /\
  console (io_emit data s) = console s /\
  emitted (io_emit data s) = emitted s ++ broadcast (sockets s) data.
Proof. repeat split. Qed.

Lemma tick_sockets dbscan_run env s : sockets (tick dbscan_run env s) = sockets s.
Proof.
  rewrite tick_unfold. generalize (snapshot dbscan_run env). intros data.
  rewrite (proj1 (proj2 (log_frame _ _))), (proj1 (proj2 (io_emit_frame _ _))).
  rewrite (proj1 (saveZoneData_frame _ _ _)). apply log_frame.
Qed.

Lemma tick_emitted dbscan_run env s :
  emitted (tick dbscan_run env s)
  = emitted s ++ broadcast (sockets s) (snapshot dbscan_run env).
Proof.
  rewrite tick_unfold. generalize (snapshot dbscan_run env). intros data.
  rewrite (proj2 (proj2 (log_frame _ _))), (proj2 (proj2 (proj2 (io_emit_frame _ _)))).
  destruct (saveZoneData_frame (fault env) data
              (log (console_log Message.generating) s)) as [Es Ee].
  rewrite Es, Ee. reflexivity.
Qed.

Lemma tick_collection dbscan_run env s :
  collection (tick dbscan_run env s)
  = match Zone.insertMany (fault env) (snapshot dbscan_run env) (collection s) with
    | inr coll => coll
    | inl _ => collection s
    end.
Proof.
  rewrite tick_unfold. generalize (snapshot dbscan_run env). intros data.
  rewrite (proj1 (log_frame _ _)), (proj1 (io_emit_frame _ _)).
  rewrite saveZoneData_collection. reflexivity.
Qed.

(** A tick leaves the collection as it was or appends its snapshot. *)
Lemma tick_collection_cases dbscan_run env s :
  collection (tick dbscan_run env s) = collection s \/
  collection (tick dbscan_run env s) = collection s ++ snapshot dbscan_run env.
Proof.
  rewrite tick_collection.
  destruct (insertMany_cases (fault env) (snapshot dbscan_run env) (collection s))
    as [[error E] | E]; rewrite E; [left | right]; reflexivity.
Qed.

Lemma tick_stored dbscan_run env s :
  fault env = None -> forallb Zone.validate (snapshot dbscan_run env) = true ->
  collection (tick dbscan_run env s) = collection s ++ snapshot dbscan_run env.
Proof.
  intros F V. rewrite tick_collection. unfold Zone.insertMany. rewrite F, V. reflexivity.
Qed.

Lemma run_cons dbscan_run s e events :
  run dbscan_run s (e :: events) = run dbscan_run (step dbscan_run s e) events.
Proof. reflexivity. Qed.

(** Whatever the database does, every tick of the driver broadcasts. *)
Lemma run_ticks dbscan_run envs :
  forall s,
    sockets (run dbscan_run s (map Interval envs)) = sockets s /\
    emitted (run dbscan_run s (map Interval envs))
    = emitted s
      ++ flat_map (fun env => broadcast (sockets s) (snapshot dbscan_run env)) envs.
Proof.
  induction envs as [| env envs IH]; intros s.
  - split; [reflexivity | symmetry; apply app_nil_r].
  - cbn [map flat_map]. rewrite run_cons. cbn [step].
    destruct (IH (tick dbscan_run env s)) as [Hs He].
    rewrite Hs, He, tick_sockets, tick_emitted.
    split; [reflexivity | rewrite app_assoc; reflexivity].
Qed.

(** *** Callbacks that wait *)

Lemma advance_all_cons dbscan_run p o schedule :
  advance_all dbscan_run p (o :: schedule)
  = advance_all dbscan_run (advance dbscan_run p o) schedule.
Proof. reflexivity. Qed.

Lemma advance_all_app dbscan_run p schedule schedule' :
  advance_all dbscan_run p (schedule ++ schedule')
  = advance_all dbscan_run (advance_all dbscan_run p schedule) schedule'.
Proof. apply fold_left_app. Qed.

Lemma replace_length k c : forall l, List.length (replace k c l) = List.length l.
Proof.
  induction k as [| k IH]; intros [| x l]; cbn; try reflexivity.
  rewrite IH. reflexivity.
Qed.

Lemma nth_error_replace k c : forall l x,
  nth_error l k = Some x -> nth_error (replace k c l) k = Some c.
Proof.
  induction k as [| k IH]; intros [| y l] x H; try discriminate; cbn.
  - reflexivity.
  - apply (IH l x). exact H.
Qed.

Lemma nth_error_replace_other k c j : forall l,
  j <> k -> nth_error (replace k c l) j = nth_error l j.
Proof.
  revert j. induction k as [| k IH]; intros j [| y l] NE; cbn; try reflexivity.
  - destruct j as [| j]; [destruct (NE eq_refl) | reflexivity].
  - destruct j as [| j]; [reflexivity |]. cbn. apply IH. intros E. apply NE. f_equal. exact E.
Qed.

Lemma Forall_replace (P : callback -> Prop) k c : forall l,
  Forall P l -> P c -> Forall P (replace k c l).
Proof.
  induction k as [| k IH]; intros [| y l] F Hc; cbn; try constructor.
  - exact Hc.
  - apply Forall_inv_tail in F. exact F.
  - apply Forall_inv in F. exact F.
  - apply IH; [apply Forall_inv_tail in F; exact F | exact Hc].
Qed.

Lemma replace_last c x : forall l, replace (List.length l) c (l ++ [x]) = l ++ [c].
Proof. induction l as [| y l IH]; cbn; [reflexivity | rewrite IH; reflexivity]. Qed.

(** The callback that waits for its insertion goes on inside
    [saveZoneData]; the one that waits for [saveZoneData] broadcasts. *)
Lemma advance_insertMany dbscan_run p k zoneData fault :
  nth_error (callbacks p) k = Some (awaits_insertMany zoneData fault) ->
  advance dbscan_run p (Resumed k)
  = {| state := fst (saveZoneData fault zoneData (state p));
       callbacks := replace k (awaits_saveZoneData zoneData fulfilled) (callbacks p) |}.
Proof.
  intros H. unfold advance. rewrite H.
  pose proof (saveZoneData_fulfilled fault zoneData (state p)) as F.
  destruct (saveZoneData fault zoneData (state p)) as [s1 saving].
  cbn [snd] in F. rewrite F. reflexivity.
Qed.

Lemma advance_saveZoneData dbscan_run p k clusteredData :
  nth_error (callbacks p) k = Some (awaits_saveZoneData clusteredData fulfilled) ->
  advance dbscan_run p (Resumed k)
  = {| state := log (console_log Message.broadcasted) (io_emit clusteredData (state p));
       callbacks := replace k (settled fulfilled) (callbacks p) |}.
Proof. intros H. unfold advance. rewrite H. reflexivity. Qed.

(** A callback stays as it is until it is resumed. *)
Lemma advance_keeps dbscan_run p o k c :
  nth_error (callbacks p) k = Some c -> o <> Resumed k ->
  nth_error (callbacks (advance dbscan_run p o)) k = Some c.
Proof.
  intros H NE. destruct o as [env | j | socket | socket | socket env];
    try exact H.
  - cbn [advance callbacks]. rewrite nth_error_app1; [exact H |].
    apply nth_error_Some. rewrite H. discriminate.
  - assert (D : k <> j) by (intros E; apply NE; f_equal; symmetry; exact E).
    unfold advance.
    destruct (nth_error (callbacks p) j) as [[zoneData fault | data saving | promise] |];
      try exact H.
    + destruct (saveZoneData fault zoneData (state p)) as [s1 saving].
      cbn [callbacks]. rewrite nth_error_replace_other; assumption.
    + destruct (resume saving data (state p)) as [s1 promise].
      cbn [callbacks]. rewrite nth_error_replace_other; assumption.
Qed.

Lemma advance_all_keeps dbscan_run schedule : forall p k c,
  nth_error (callbacks p) k = Some c -> ~ In (Resumed k) schedule ->
  nth_error (callbacks (advance_all dbscan_run p schedule)) k = Some c.
Proof.
  induction schedule as [| o schedule IH]; intros p k c H N; [exact H |].
  rewrite advance_all_cons. apply IH.
  - apply advance_keeps; [exact H |]. intros E. apply N. left. exact E.
  - intros C. apply N. right. exact C.
Qed.

(** What a process delivers does not depend on its collection nor on
    its console. *)
Lemma advance_same dbscan_run p q o :
  same_deliveries p q ->
  same_deliveries (advance dbscan_run p o) (advance dbscan_run q o).
Proof.
  intros (Es & Ee & Ec).
  destruct o as [env | k | socket | socket | socket env]; unfold same_deliveries.
  - cbn [advance state callbacks log sockets emitted]. rewrite Es, Ee, Ec.
    repeat split.
  - unfold advance. rewrite <- Ec.
    destruct (nth_error (callbacks p) k) as [[zoneData fault | data saving | promise] |];
      try (repeat split; assumption).
    + pose proof (saveZoneData_fulfilled fault zoneData (state p)) as Fp.
      pose proof (saveZoneData_fulfilled fault zoneData (state q)) as Fq.
      destruct (saveZoneData_frame fault zoneData (state p)) as [Sp Mp].
      destruct (saveZoneData_frame fault zoneData (state q)) as [Sq Mq].
      destruct (saveZoneData fault zoneData (state p)) as [sp op].
      destruct (saveZoneData fault zoneData (state q)) as [sq oq].
      cbn [fst snd] in *. cbn [state callbacks]. subst op oq.
      rewrite Sp, Sq, Mp, Mq. repeat split; assumption.
    + destruct saving as [| reason]; cbn [resume state callbacks].
      * cbn [log io_emit sockets emitted]. rewrite Es, Ee. repeat split.
      * repeat split; assumption.
  - cbn [advance state callbacks step log sockets emitted]. rewrite Es, Ee, Ec.
    repeat split.
  - cbn [advance state callbacks step log sockets emitted]. rewrite Es, Ee, Ec.
    repeat split.
  - cbn [advance state callbacks step requestUpdate socket_emit sockets emitted].
    rewrite Es, Ee, Ec. repeat split.
Qed.

Lemma advance_all_same dbscan_run schedule : forall p q,
  same_deliveries p q ->
  same_deliveries (advance_all dbscan_run p schedule) (advance_all dbscan_run q schedule).
Proof.
  induction schedule as [| o schedule IH]; intros p q H; [exact H |].
  rewrite !advance_all_cons. apply IH. apply advance_same. exact H.
Qed.

(** No callback is ever rejected. *)
Lemma advance_unrejected dbscan_run p o :
  Forall unrejected (callbacks p) ->
  Forall unrejected (callbacks (advance dbscan_run p o)).
Proof.
  intros F. destruct o as [env | k | socket | socket | socket env]; try exact F.
  - cbn [advance callbacks]. apply Forall_app. split; [exact F |].
    constructor; [exact I | constructor].
  - unfold advance.
    destruct (nth_error (callbacks p) k) as [[zoneData fault | data saving | promise] |] eqn:E;
      try exact F.
    + pose proof (saveZoneData_fulfilled fault zoneData (state p)) as S.
      destruct (saveZoneData fault zoneData (state p)) as [s1 saving].
      cbn [snd] in S. cbn [callbacks]. apply Forall_replace; [exact F | exact S].
    + assert (U : unrejected (awaits_saveZoneData data saving)).
      { rewrite Forall_forall in F. apply F. apply (nth_error_In _ _ E). }
      cbn in U. subst saving. cbn [resume callbacks].
      apply Forall_replace; [exact F | reflexivity].
Qed.

Lemma advance_all_unrejected dbscan_run schedule : forall p,
  Forall unrejected (callbacks p) ->
  Forall unrejected (callbacks (advance_all dbscan_run p schedule)).
Proof.
  induction schedule as [| o schedule IH]; intros p F; [exact F |].
  rewrite advance_all_cons. apply IH. apply advance_unrejected. exact F.
Qed.

(** A callback that nothing interrupts is a tick. *)
Lemma tick_uninterrupted dbscan_run env p :
  let n := List.length (callbacks p) in
  advance_all dbscan_run p [Elapsed env; Resumed n; Resumed n]
  = {| state := tick dbscan_run env (state p);
       callbacks := callbacks p ++ [settled fulfilled] |}.
Proof.
  intros n. rewrite !advance_all_cons. cbn [advance_all fold_left].
  set (p1 := advance dbscan_run p (Elapsed env)).
  assert (H1 : nth_error (callbacks p1) n
               = Some (awaits_insertMany (snapshot dbscan_run env) (fault env))).
  { unfold p1. cbn [advance callbacks]. unfold n.
    rewrite nth_error_app2, Nat.sub_diag by lia. reflexivity. }
  rewrite (advance_insertMany dbscan_run p1 n _ _ H1).
  set (p2 := {| state := _; callbacks := _ |}).
  assert (C2 : callbacks p2
               = callbacks p ++ [awaits_saveZoneData (snapshot dbscan_run env) fulfilled]).
  { unfold p2, p1. cbn [advance callbacks]. unfold n. apply replace_last. }
  assert (H2 : nth_error (callbacks p2) n
               = Some (awaits_saveZoneData (snapshot dbscan_run env) fulfilled)).
  { rewrite C2. unfold n. rewrite nth_error_app2, Nat.sub_diag by lia. reflexivity. }
  rewrite (advance_saveZoneData dbscan_run p2 n _ H2). rewrite C2.
  unfold n. rewrite replace_last. rewrite tick_unfold. reflexivity.
Qed.

(** The runs of atomic ticks are the schedules that interrupt no
    callback. *)
Lemma run_uninterrupted dbscan_run events : forall p,
  state (advance_all dbscan_run p (uninterrupted (List.length (callbacks p)) events))
  = run dbscan_run (state p) events.
Proof.
  induction events as [| e events IH]; intros p; [reflexivity |].
  destruct e as [env | socket | socket | socket env]; cbn [uninterrupted];
    rewrite run_cons.
  - change (Elapsed env :: Resumed (List.length (callbacks p))
              :: Resumed (List.length (callbacks p))
              :: uninterrupted (S (List.length (callbacks p))) events)
      with ([Elapsed env; Resumed (List.length (callbacks p));
             Resumed (List.length (callbacks p))]
              ++ uninterrupted (S (List.length (callbacks p))) events).
    rewrite advance_all_app, tick_uninterrupted. cbn [step].
    specialize (IH {| state := tick dbscan_run env (state p);
                      callbacks := callbacks p ++ [settled fulfilled] |}).
    cbn [state callbacks] in IH. rewrite length_app in IH.
    cbn [List.length] in IH. rewrite Nat.add_1_r in IH. exact IH.
  - rewrite advance_all_cons.
    specialize (IH {| state := step dbscan_run (state p) (Connection socket);
                      callbacks := callbacks p |}).
    cbn [state callbacks] in IH. exact IH.
  - rewrite advance_all_cons.
    specialize (IH {| state := step dbscan_run (state p) (Disconnect socket);
                      callbacks := callbacks p |}).
    cbn [state callbacks] in IH. exact IH.
  - rewrite advance_all_cons.
    specialize (IH {| state := step dbscan_run (state p) (RequestUpdate socket env);
                      callbacks := callbacks p |}).
    cbn [state callbacks] in IH. exact IH.
Qed.

(** *** Schedules and runs of ticks *)

Lemma run_snoc dbscan_run s events e :
  run dbscan_run s (events ++ [e]) = step dbscan_run (run dbscan_run s events) e.
Proof. unfold run. rewrite fold_left_app. reflexivity. Qed.

Section Interleaving.

Variable dbscan_run : list (Q * Q) -> Q -> Z -> list (list nat).
Variable s : server.
Variable elapsed : environment -> Prop.

(** Every callback that waits holds the snapshot of a tick that has
    elapsed and waits for the answer of the database to that tick, or
    has left [saveZoneData]. *)
Let begun (c : callback) : Prop :=
  match c with
  | awaits_insertMany zoneData fault' =>
      exists env,
        elapsed env /\ zoneData = snapshot dbscan_run env /\ fault' = fault env
  | awaits_saveZoneData clusteredData saving =>
      saving = fulfilled /\
      exists env, elapsed env /\ clusteredData = snapshot dbscan_run env
  | settled _ => True
  end.

Let ticks (events : list event) : Prop :=
  forall e, In e events -> exists env, e = Interval env /\ elapsed env.

(** As far as the collection goes, a schedule does what the ticks whose
    insertion has settled do when they run one after the other. *)
Let stores (p : process) : Prop :=
  Forall begun (callbacks p) /\
  exists events,
    ticks events /\ collection (state p) = collection (run dbscan_run s events).

(** As far as the sockets go, a schedule does what its events and the
    ticks that have broadcast do when the ticks run at the moment of
    their broadcast. *)
Let delivers (p : process) : Prop :=
  Forall begun (callbacks p) /\
  exists events,
    (forall env, In (Interval env) events -> elapsed env) /\
    sockets (state p) = sockets (run dbscan_run s events) /\
    emitted (state p) = emitted (run dbscan_run s events).

Let fits (o : occurrence) : Prop := forall env, o = Elapsed env -> elapsed env.

Lemma advance_begun p o : fits o -> Forall begun (callbacks p) ->
  Forall begun (callbacks (advance dbscan_run p o)).
Proof.
  intros Ho F. destruct o as [env | k | sock | sock | sock env]; try exact F.
  - cbn [advance callbacks]. apply Forall_app. split; [exact F |].
    constructor; [| constructor]. exists env.
    split; [apply Ho; reflexivity | split; reflexivity].
  - unfold advance.
    destruct (nth_error (callbacks p) k) as [[zoneData fault' | data saving | promise] |] eqn:N;
      try exact F.
    + assert (B : begun (awaits_insertMany zoneData fault')).
      { rewrite Forall_forall in F. apply F. apply (nth_error_In _ _ N). }
      destruct B as (env & He & Ed & _).
      pose proof (saveZoneData_fulfilled fault' zoneData (state p)) as S.
      destruct (saveZoneData fault' zoneData (state p)) as [s1 saving].
      cbn [snd] in S. cbn [callbacks]. apply Forall_replace; [exact F |].
      split; [exact S |]. exists env. split; assumption.
    + destruct (resume saving data (state p)) as [s1 promise]. cbn [callbacks].
      apply Forall_replace; [exact F | exact I].
Qed.

Lemma advance_stores p o : fits o -> stores p -> stores (advance dbscan_run p o).
Proof.
  intros Ho [F (events & Ht & Ec)].
  split; [apply advance_begun; assumption |].
  destruct o as [env | k | sock | sock | sock env];
    try (exists events; split; [exact Ht | exact Ec]).
  destruct (nth_error (callbacks p) k) as [[zoneData fault' | data saving | promise] |] eqn:N.
  - assert (B : begun (awaits_insertMany zoneData fault')).
    { rewrite Forall_forall in F. apply F. apply (nth_error_In _ _ N). }
    destruct B as (env & He & -> & ->).
    rewrite (advance_insertMany dbscan_run p k _ _ N). cbn [state].
    exists (events ++ [Interval env]). split.
    + intros e H. apply in_app_or in H.
      destruct H as [H | [<- | []]]; [apply Ht; exact H |].
      exists env. split; [reflexivity | exact He].
    + rewrite run_snoc. cbn [step].
      rewrite saveZoneData_collection, tick_collection, Ec. reflexivity.
  - exists events. split; [exact Ht |]. unfold advance. rewrite N.
    destruct saving as [| reason]; cbn [resume state]; exact Ec.
  - exists events. split; [exact Ht |]. unfold advance. rewrite N. exact Ec.
  - exists events. split; [exact Ht |]. unfold advance. rewrite N. exact Ec.
Qed.

Lemma advance_delivers p o : fits o -> delivers p -> delivers (advance dbscan_run p o).
Proof.
  intros Ho [F (events & Ht & Es & Ee)].
  split; [apply advance_begun; assumption |].
  destruct o as [env | k | sock | sock | sock env].
  - exists events. split; [exact Ht |]. split; [exact Es | exact Ee].
  - destruct (nth_error (callbacks p) k) as [[zoneData fault' | data saving | promise] |] eqn:N.
    + exists events. split; [exact Ht |].
      rewrite (advance_insertMany dbscan_run p k _ _ N). cbn [state].
      destruct (saveZoneData_frame fault' zoneData (state p)) as [Fs Fe].
      rewrite Fs, Fe. split; [exact Es | exact Ee].
    + assert (B : begun (awaits_saveZoneData data saving)).
      { rewrite Forall_forall in F. apply F. apply (nth_error_In _ _ N). }
      destruct B as (-> & env & He & ->).
      rewrite (advance_saveZoneData dbscan_run p k _ N). cbn [state].
      exists (events ++ [Interval env]). split; [| split].
      * intros env' H. apply in_app_or in H.
        destruct H as [H | [E | []]]; [apply Ht; exact H |].
        injection E as <-. exact He.
      * rewrite run_snoc. cbn [step]. rewrite tick_sockets. exact Es.
      * rewrite run_snoc. cbn [step]. rewrite tick_emitted.
        rewrite (proj2 (proj2 (log_frame _ _))), (proj2 (proj2 (proj2 (io_emit_frame _ _)))).
        rewrite Es, Ee. reflexivity.
    + exists events. split; [exact Ht |]. unfold advance. rewrite N.
      split; [exact Es | exact Ee].
    + exists events. split; [exact Ht |]. unfold advance. rewrite N.
      split; [exact Es | exact Ee].
  - exists (events ++ [Connection sock]). split; [| split].
    + intros env' H. apply in_app_or in H.
      destruct H as [H | [E | []]]; [apply Ht; exact H | discriminate E].
    + rewrite run_snoc. cbn [advance state step log sockets]. rewrite Es. reflexivity.
    + rewrite run_snoc. cbn [advance state step log emitted]. exact Ee.
  - exists (events ++ [Disconnect sock]). split; [| split].
    + intros env' H. apply in_app_or in H.
      destruct H as [H | [E | []]]; [apply Ht; exact H | discriminate E].
    + rewrite run_snoc. cbn [advance state step log sockets]. rewrite Es. reflexivity.
    + rewrite run_snoc. cbn [advance state step log emitted]. exact Ee.
  - exists (events ++ [RequestUpdate sock env]). split; [| split].
    + intros env' H. apply in_app_or in H.
      destruct H as [H | [E | []]]; [apply Ht; exact H | discriminate E].
    + rewrite run_snoc. cbn [advance state step]. unfold requestUpdate.
      cbn [socket_emit sockets]. exact Es.
    + rewrite run_snoc. cbn [advance state step]. unfold requestUpdate.
      cbn [socket_emit emitted]. rewrite Ee. reflexivity.
Qed.

(** The collection that a schedule builds, whatever it interleaves, is
    the collection of a run of ticks, those whose insertion has settled,
    in the order in which they settled. *)
Lemma schedule_collection (schedule : list occurrence) :
  Forall fits schedule ->
  exists envs,
    (forall env, In env envs -> elapsed env) /\
    collection (state (advance_all dbscan_run {| state := s; callbacks := [] |} schedule))
    = collection (run dbscan_run s (map Interval envs)).
Proof.
  intros H.
  assert (S : stores (advance_all dbscan_run {| state := s; callbacks := [] |} schedule)).
  { generalize {| state := s; callbacks := [] |}
               (conj (Forall_nil begun)
                     (ex_intro (fun events => ticks events /\ collection s
                                              = collection (run dbscan_run s events))
                               [] (conj (fun e (H : In e []) => match H with end) eq_refl))
                : stores {| state := s; callbacks := [] |}).
    induction schedule as [| o schedule IH]; intros p Hp; [exact Hp |].
    apply Forall_cons_iff in H. destruct H as [Ho H].
    rewrite advance_all_cons. apply IH; [exact H |]. apply advance_stores; assumption. }
  destruct S as [_ (events & Ht & Ec)].
  assert (E : exists envs, events = map Interval envs /\ forall env, In env envs -> elapsed env).
  { clear Ec. induction events as [| e events IH].
    - exists []. split; [reflexivity | intros env []].
    - destruct (Ht e (or_introl eq_refl)) as (env & -> & He).
      destruct IH as (envs & -> & Hs).
      + intros e' H'. apply Ht. right. exact H'.
      + exists (env :: envs). split; [reflexivity |].
        intros env' [<- | H']; [exact He | apply Hs; exact H']. }
  destruct E as (envs & -> & Hs). exists envs. split; [exact Hs | exact Ec].
Qed.

(** What a schedule delivers, whatever it interleaves, is what a run
    delivers: the run of its socket events and of the ticks that have
    broadcast, each tick at the moment of its broadcast. *)
Lemma schedule_deliveries (schedule : list occurrence) :
  Forall fits schedule ->
  exists events,
    (forall env, In (Interval env) events -> elapsed env) /\
    sockets (state (advance_all dbscan_run {| state := s; callbacks := [] |} schedule))
    = sockets (run dbscan_run s events) /\
    emitted (state (advance_all dbscan_run {| state := s; callbacks := [] |} schedule))
    = emitted (run dbscan_run s events).
Proof.
  intros H.
  assert (D : delivers (advance_all dbscan_run {| state := s; callbacks := [] |} schedule)).
  { assert (D0 : delivers {| state := s; callbacks := [] |}).
    { split; [constructor |]. exists []. split; [intros env [] |]. split; reflexivity. }
    revert D0. generalize {| state := s; callbacks := [] |}.
    induction schedule as [| o schedule IH]; intros p Hp; [exact Hp |].
    apply Forall_cons_iff in H. destruct H as [Ho H].
    rewrite advance_all_cons. apply IH; [exact H |]. apply advance_delivers; assumption. }
  destruct D as [_ D]. exact D.
Qed.

End Interleaving.

Lemma io_emit_received socket data s :
  In socket (sockets s) -> In data (received socket (io_emit data s)).
Proof.
  intros Hin. unfold received, io_emit. cbn [emitted].
  rewrite filter_app, map_app. apply in_or_app. right.
  apply in_map_iff. exists (socket, data). split; [reflexivity |].
  apply filter_In. split; [| apply Nat.eqb_refl].
  apply in_map_iff. exists socket. split; [reflexivity | exact Hin].
Qed.

(** C7.  When the insertion of a tick fails, whatever has happened since
    the tick began, the error is caught inside [saveZoneData] and written
    to the console, and the collection is left as it was.  The callback
    goes on: whatever else happens before it is resumed, it then emits
    the snapshot that the tick computed to every socket connected at
    that moment.  The driver goes on too: whatever is scheduled
    afterwards, the sockets receive exactly what they would receive had
    the insertion succeeded, and no callback is ever rejected. *)
Theorem store_failure_contained dbscan_run (p0 : process) (env : environment)
    (error : Zone.error) (before between later : list occurrence) :
  let k := List.length (callbacks p0) in
  let data := snapshot dbscan_run env in
  let p := advance_all dbscan_run (advance dbscan_run p0 (Elapsed env)) before in
  let failed := advance dbscan_run p (Resumed k) in
  let waiting := advance_all dbscan_run failed between in
  let resumed := advance dbscan_run waiting (Resumed k) in
  ~ In (Resumed k) before -> ~ In (Resumed k) between ->
  Zone.insertMany (fault env) data (collection (state p)) = inl error ->
  collection (state failed) = collection (state p) /\
  console (state failed)
  = console (state p) ++ [console_error Message.error_saving error] /\
  sockets (state failed) = sockets (state p) /\
  emitted (state failed) = emitted (state p) /\
  emitted (state resumed)
  = emitted (state waiting) ++ broadcast (sockets (state waiting)) data /\
  (forall socket, In socket (sockets (state waiting)) ->
                  In data (received socket (state resumed))) /\
  collection (state resumed) = collection (state waiting) /\
  console (state resumed)
  = console (state waiting) ++ [console_log Message.broadcasted] /\
  same_deliveries (advance_all dbscan_run failed later)
                  (advance_all dbscan_run (inserted p k data) later) /\
  (Forall unrejected (callbacks p0) ->
   Forall unrejected (callbacks (advance_all dbscan_run failed later))).
Proof.
  intros k data p failed waiting resumed Nb N F.
  assert (H : nth_error (callbacks p) k = Some (awaits_insertMany data (fault env))).
  { unfold p. apply advance_all_keeps; [| exact Nb].
    cbn [advance callbacks]. unfold k.
    rewrite nth_error_app2, Nat.sub_diag by lia. reflexivity. }
  assert (E : failed
              = {| state := log (console_error Message.error_saving error) (state p);
                   callbacks :=
                     replace k (awaits_saveZoneData data fulfilled) (callbacks p) |}).
  { unfold failed. rewrite (advance_insertMany dbscan_run p k data (fault env) H).
    unfold saveZoneData. rewrite F. reflexivity. }
  assert (W : nth_error (callbacks waiting) k
              = Some (awaits_saveZoneData data fulfilled)).
  { unfold waiting. apply advance_all_keeps; [| exact N].
    rewrite E. cbn [callbacks]. apply (nth_error_replace _ _ _ _ H). }
  assert (R : resumed
              = {| state := log (console_log Message.broadcasted)
                              (io_emit data (state waiting));
                   callbacks := replace k (settled fulfilled) (callbacks waiting) |}).
  { unfold resumed. apply advance_saveZoneData. exact W. }
  split; [rewrite E; reflexivity |]. split; [rewrite E; reflexivity |].
  split; [rewrite E; reflexivity |]. split; [rewrite E; reflexivity |].
  split; [rewrite R; reflexivity |].
  split; [| split; [rewrite R; reflexivity | split; [rewrite R; reflexivity | split]]].
  - intros socket Hin. rewrite R. cbn [state].
    apply (io_emit_received socket data (state waiting) Hin).
  - apply advance_all_same. rewrite E. repeat split.
  - intros U. apply advance_all_unrejected. rewrite E. cbn [callbacks].
    apply Forall_replace; [| reflexivity].
    unfold p. apply advance_all_unrejected. apply advance_unrejected. exact U.
Qed.

Lemma stored_readings_increase : timestamps_increase Stored.readings.
Proof.
  cbn [timestamps_increase Stored.readings]. repeat split; intros b Hb E;
    repeat (destruct Hb as [<- | Hb]; [try discriminate E; reflexivity |]);
    destruct Hb.
Defined.

Lemma latest_per_zone_witness :
  Zone.insertMany None Stored.readings [] = inr Stored.readings /\
  exists rows,
    api_zones None Stored.readings = success rows /\
    NoDup (map Zone._id rows) /\
    forall row, In row rows ->
      exists d, latest Stored.readings (Zone._id row) = Some d /\ carries row d.
Proof.
  assert (H : Zone.insertMany None Stored.readings [] = inr Stored.readings)
    by (vm_compute; reflexivity).
  split; [exact H |].
  destruct (latest_per_zone Stored.readings Stored.readings H)
    as (rows & _ & A & N & _ & _ & L).
  exists rows. split; [exact A |]. split; [exact N |].
  exact (L stored_readings_increase).
Defined.

Lemma summary_fields_witness :
  Zone.getLatestData None Stored.readings = inr Stored.latestZones /\
  exists s,
    api_summary None Stored.readings = success s /\
    count (fun z => 0 < Zone.g_population z) Stored.latestZones (activeZones s) /\
    count (fun z => Zone.g_status z = overcrowded) Stored.latestZones
      (overcrowdedZones s).
Proof.
  assert (H : Zone.getLatestData None Stored.readings = inr Stored.latestZones)
    by (vm_compute; reflexivity).
  split; [exact H |].
  destruct (summary_fields Stored.readings Stored.latestZones H)
    as (s & E & A & O & _).
  exists s. split; [exact E |]. split; [exact A | exact O].
Defined.

(** A tick whose insertion fails while a client connects and the next
    tick begins: the client receives the snapshot all the same. *)
Lemma store_failure_contained_witness :
  (~ In (Resumed 0) [] /\
   ~ In (Resumed 0) [Connected 3%nat; Elapsed Sample.env] /\
   Zone.insertMany (fault Stored.failing) (snapshot Sample.clusterer Stored.failing)
     (collection
        (state (advance_all Sample.clusterer
                  (advance Sample.clusterer Stored.process0 (Elapsed Stored.failing)) [])))
   = inl (Zone.MongoError "connection lost")) /\
  In (snapshot Sample.clusterer Stored.failing)
     (received 3%nat
        (state
           (advance Sample.clusterer
              (advance_all Sample.clusterer
                 (advance Sample.clusterer
                    (advance_all Sample.clusterer
                       (advance Sample.clusterer Stored.process0 (Elapsed Stored.failing))
                       [])
                    (Resumed 0))
                 [Connected 3%nat; Elapsed Sample.env])
              (Resumed 0)))).
Proof.
  assert (H1 : ~ In (Resumed 0) []) by (intros []).
  assert (H2 : ~ In (Resumed 0) [Connected 3%nat; Elapsed Sample.env]).
  { intros [C | [C | []]]; discriminate C. }
  assert (H3 : Zone.insertMany (fault Stored.failing)
                 (snapshot Sample.clusterer Stored.failing)
                 (collection
                    (state (advance_all Sample.clusterer
                              (advance Sample.clusterer Stored.process0
                                 (Elapsed Stored.failing)) [])))
               = inl (Zone.MongoError "connection lost")) by (vm_compute; reflexivity).
  split; [split; [exact H1 | split; [exact H2 | exact H3]] |].
  destruct (store_failure_contained Sample.clusterer Stored.process0 Stored.failing
              (Zone.MongoError "connection lost") []
              [Connected 3%nat; Elapsed Sample.env] [] H1 H2 H3)
    as (_ & _ & _ & _ & _ & R & _).
  apply (R 3%nat). vm_compute. right. right. left. reflexivity.
Defined.

(** ** Reachable collections *)

Lemma step_simulated dbscan_run e s :
  event_in_range e ->
  Forall (simulated dbscan_run) (collection s) ->
  Forall (simulated dbscan_run) (collection (step dbscan_run s e)).
Proof.
  intros He Hs. destruct e as [env | socket | socket | socket env];
    [| exact Hs | exact Hs | exact Hs].
  cbn [step]. destruct (tick_collection_cases dbscan_run env s) as [E | E]; rewrite E;
    [exact Hs |].
  apply Forall_app. split; [exact Hs |].
  apply Forall_forall. intros r Hr. exists env. split; [exact He | exact Hr].
Qed.

Lemma run_simulated dbscan_run events :
  forall s,
    Forall event_in_range events ->
    Forall (simulated dbscan_run) (collection s) ->
    Forall (simulated dbscan_run) (collection (run dbscan_run s events)).
Proof.
  induction events as [| e events IH]; intros s He Hs; [exact Hs |].
  rewrite run_cons. apply Forall_cons_iff in He. destruct He as [He Hes].
  apply IH; [exact Hes |]. apply step_simulated; assumption.
Qed.

(** However long the server runs on simulated signals, the summary of its
    collection never counts an overcrowded zone. *)
Theorem reachable_never_overcrowded dbscan_run (s : server) events fault' sm :
  collection s = [] ->
  Forall event_in_range events ->
  api_summary fault' (collection (run dbscan_run s events)) = success sm ->
  overcrowdedZones sm = 0%nat.
Proof.
  intros E He H.
  assert (R : Forall (simulated dbscan_run) (collection (run dbscan_run s events))).
  { apply run_simulated; [exact He | rewrite E; constructor]. }
  unfold api_summary, Zone.getLatestBrief in H.
  destruct fault'; [discriminate |]. injection H as <-.
  apply (simulated_none_overcrowded dbscan_run).
  intros r Hr. rewrite Forall_forall in R. apply R.
  apply group_first_in in Hr. destruct Hr as [Hr _].
  apply (Permutation_in _ (Permutation_sym (sort_perm Zone.descending _))). exact Hr.
Qed.

(** A simulated reading belongs to a zone of the registry and its
    population is at most eighty percent of the largest capacity. *)
Lemma simulated_facts dbscan_run r :
  simulated dbscan_run r ->
  In (Zone.zoneId r) (map ZoneConfig.id ZONES) /\ 0 <= Zone.population r <= 4704.
Proof.
  intros (env & Hr & Hin).
  destruct (reading_of_snapshot _ _ _ Hin) as (s & Hs & Ep & _ & _ & Ez).
  destruct (signal_of_simulator _ _ _ Hs) as (i & zone & Hz & E).
  destruct (Hr (3 * i + 0)%nat) as [R0 R1].
  pose proof (population_of_range zone _ Hz R0 R1) as Hp. cbv zeta in Hp.
  destruct (registry_facts zone Hz) as ([_ Hb] & _).
  destruct Hp as [Hp Hu]. apply floor_eighty in Hu.
  assert (P : Signal.population s
              = population_of (random env (3 * i + 0)%nat) (ZoneConfig.capacity zone)).
  { rewrite E. reflexivity. }
  assert (Z : Signal.zoneId s = ZoneConfig.id zone).
  { rewrite E. reflexivity. }
  rewrite Ep, Ez, P, Z.
  split; [apply in_map; exact Hz | lia].
Qed.

Lemma population_sum_le rows M :
  (forall z, In z rows -> Zone.g_population z <= M) ->
  population_sum rows <= M * Z.of_nat (List.length rows).
Proof.
  induction rows as [| z rows IH]; intros H; [cbn; lia |].
  change (population_sum (z :: rows))
    with (Zone.g_population z + population_sum rows).
  assert (Zone.g_population z <= M) by (apply H; left; reflexivity).
  assert (population_sum rows <= M * Z.of_nat (List.length rows)).
  { apply IH. intros y Hy. apply H. right. exact Hy. }
  cbn [List.length]. lia.
Qed.

(** The hypotheses of the summary hold in every collection of simulated
    readings: at most nine rows, each with a population in [0, 4704]. *)
Theorem simulated_summary_exact dbscan_run coll latestZones :
  Forall (simulated dbscan_run) coll ->
  Zone.getLatestData None coll = inr latestZones ->
  (forall z, In z latestZones -> 0 <= Zone.g_population z) /\
  population_sum latestZones <= 2 ^ 53.
Proof.
  intros F L. injection L as <-. rewrite Forall_forall in F.
  set (G := Zone.group_first [] (Zone.sort Zone.descending coll)).
  assert (S : forall d, In d G -> simulated dbscan_run d).
  { intros d Hd. apply F. apply group_first_in in Hd. destruct Hd as [Hd _].
    apply (Permutation_in _ (Permutation_sym (sort_perm Zone.descending coll))).
    exact Hd. }
  assert (P : forall z, In z (map Zone.first G) -> 0 <= Zone.g_population z <= 4704).
  { intros z Hz. apply in_map_iff in Hz. destruct Hz as (d & <- & Hd).
    cbn. apply (simulated_facts dbscan_run d (S d Hd)). }
  split; [intros z Hz; apply (P z Hz) |].
  assert (N : (List.length (map Zone.first G) <= List.length ZONES)%nat).
  { rewrite length_map, <- (length_map Zone.zoneId G), <- (length_map ZoneConfig.id ZONES).
    apply NoDup_incl_length; [apply group_first_nodup |].
    intros z Hz. apply in_map_iff in Hz. destruct Hz as (d & <- & Hd).
    apply (simulated_facts dbscan_run d (S d Hd)). }
  pose proof (population_sum_le (map Zone.first G) 4704
                (fun z Hz => proj2 (P z Hz))) as B.
  cbn [List.length ZONES] in N.
  apply (Z.le_trans _ _ _ B).
  apply (Z.le_trans _ (4704 * 9)); [| discriminate].
  apply Z.mul_le_mono_nonneg_l; lia.
Qed.

(** The zones of a snapshot are the zones of the registry, in order. *)
Lemma snapshot_zoneIds dbscan_run env :
  map Zone.zoneId (snapshot dbscan_run env) = map ZoneConfig.id ZONES.
Proof.
  apply nth_error_ext. intros i. rewrite !nth_error_map.
  rewrite snapshot_unfold, applyDBSCAN_nth.
  destruct (generateNetworkActivity_run (random env) 0%nat) as (_ & Hl & Hn).
  destruct (nth_error ZONES i) as [zone |] eqn:E.
  - rewrite (Hn i zone E). reflexivity.
  - assert (N : nth_error (fst (generateNetworkActivity (random env) 0%nat)) i = None).
    { apply nth_error_None. rewrite Hl. apply nth_error_None. exact E. }
    rewrite N. reflexivity.
Qed.






(** * Further properties of the pipeline *)

(** ** Rounding of any number *)

Local Open Scope Q_scope.

(** Every rational has one rounding, whatever fraction denotes it. *)
Lemma Qlog2_comp x y : 0 < x -> x == y -> Qlog2 x = Qlog2 y.
Proof.
  intros Hx E. destruct (Qlog2_spec x Hx) as [L U].
  symmetry. apply Qlog2_unique; rewrite <- E; assumption.
Qed.

Lemma rne_comp x y : x == y -> rne x = rne y.
Proof.
  intros E. unfold rne. rewrite (Qfloor_comp x y E).
  assert (C : x - inject_Z (Qfloor y) == y - inject_Z (Qfloor y)) by (rewrite E; reflexivity).
  rewrite (Qcompare_comp _ _ C (1 # 2) (1 # 2) (Qeq_refl _)). reflexivity.
Qed.

Lemma Qabs_zero x : Qabs x == 0 -> x == 0.
Proof.
  intros Z. pose proof (Qle_Qabs x) as A. pose proof (Qle_Qabs (- x)) as B.
  rewrite Qabs_opp in B. lra.
Qed.

Lemma Qabs_nonzero x : ~ x == 0 -> 0 < Qabs x.
Proof.
  intros NZ. destruct (Qlt_le_dec 0 (Qabs x)) as [P | N]; [exact P |].
  exfalso. apply NZ. apply Qabs_zero. pose proof (Qabs_nonneg x). lra.
Qed.

Lemma round64_comp x y : x == y -> round64 x == round64 y.
Proof.
  intros E.
  destruct (Qeq_dec x 0) as [Z | NZ].
  - rewrite (round64_zero x Z). rewrite E in Z. rewrite (round64_zero y Z). reflexivity.
  - pose proof (Qabs_nonzero x NZ) as P.
    assert (A : Qabs x == Qabs y) by (rewrite E; reflexivity).
    unfold round64, ulp_exp. rewrite <- (Qlog2_comp _ _ P A).
    set (e := Z.max _ _).
    assert (D : x / pow2 e == y / pow2 e) by (rewrite E; reflexivity).
    rewrite (rne_comp _ _ D). reflexivity.
Qed.

(** The nearest integer is the only one within a half, the even one of
    two. *)
Lemma rne_spec y :
  let m := inject_Z (rne y) in
  (m - (1 # 2) < y /\ y < m + (1 # 2)) \/
  ((y == m - (1 # 2) \/ y == m + (1 # 2)) /\ Z.even (rne y) = true).
Proof.
  pose proof (Qfloor_le y) as L. pose proof (Qlt_floor y) as U.
  rewrite inject_Z_plus in U. change (inject_Z 1) with 1 in U.
  unfold rne.
  destruct (Qcompare_spec (y - inject_Z (Qfloor y)) (1 # 2)) as [E | Lt | Gt].
  - destruct (Z.even (Qfloor y)) eqn:Ev; cbv zeta.
    + right. split; [right; lra | exact Ev].
    + right. rewrite inject_Z_plus. change (inject_Z 1) with 1. split; [left; lra |].
      rewrite Z.even_add, Ev. reflexivity.
  - left. cbv zeta. split; lra.
  - left. cbv zeta. rewrite inject_Z_plus. change (inject_Z 1) with 1. split; lra.
Qed.

Lemma rne_unique y n :
  (inject_Z n - (1 # 2) < y /\ y < inject_Z n + (1 # 2)) \/
  ((y == inject_Z n - (1 # 2) \/ y == inject_Z n + (1 # 2)) /\ Z.even n = true) ->
  rne y = n.
Proof.
  intros H. pose proof (rne_spec y) as S. cbv zeta in S.
  set (m := rne y) in *.
  assert (D : (m < n \/ m = n \/ n < m)%Z) by lia.
  destruct D as [D | [D | D]]; [| exact D |]; exfalso.
  - assert (D' : (m + 1 <= n)%Z) by lia. rewrite Zle_Qle, inject_Z_plus in D'.
    change (inject_Z 1) with 1 in D'.
    destruct S as [[S1 S2] | [S Em]]; destruct H as [[H1 H2] | [H En]]; try lra.
    assert (E : n = (m + 1)%Z).
    { destruct S as [S | S]; destruct H as [H | H]; try lra.
      apply Z.le_antisymm; [| lia]. rewrite Zle_Qle, inject_Z_plus.
      change (inject_Z 1) with 1. lra. }
    rewrite E, Z.even_add, Em in En. discriminate En.
  - assert (D' : (n + 1 <= m)%Z) by lia. rewrite Zle_Qle, inject_Z_plus in D'.
    change (inject_Z 1) with 1 in D'.
    destruct S as [[S1 S2] | [S Em]]; destruct H as [[H1 H2] | [H En]]; try lra.
    assert (E : m = (n + 1)%Z).
    { destruct S as [S | S]; destruct H as [H | H]; try lra.
      apply Z.le_antisymm; [| lia]. rewrite Zle_Qle, inject_Z_plus.
      change (inject_Z 1) with 1. lra. }
    rewrite E, Z.even_add, En in Em. discriminate Em.
Qed.

Lemma rne_opp y : rne (- y) = (- rne y)%Z.
Proof.
  apply rne_unique. pose proof (rne_spec y) as S. cbv zeta in S.
  rewrite inject_Z_opp, Z.even_opp.
  destruct S as [[S1 S2] | [[S | S] E]].
  - left. split; lra.
  - right. split; [right; lra | exact E].
  - right. split; [left; lra | exact E].
Qed.

(** Rounding is symmetric about zero. *)
Lemma round64_opp x : round64 (- x) == - round64 x.
Proof.
  destruct (Qeq_dec x 0) as [Z | NZ].
  - rewrite (round64_zero x Z). apply round64_zero. rewrite Z. reflexivity.
  - pose proof (Qabs_nonzero x NZ) as P.
    assert (A : Qabs x == Qabs (- x)) by (symmetry; apply Qabs_opp).
    unfold round64, ulp_exp. rewrite <- (Qlog2_comp _ _ P A).
    set (e := Z.max _ _).
    assert (D : - x / pow2 e == - (x / pow2 e)).
    { unfold Qdiv. ring. }
    rewrite (rne_comp _ _ D), rne_opp, inject_Z_opp. ring.
Qed.

Lemma round64_nonpos x : x <= 0 -> round64 x <= 0.
Proof.
  intros H. assert (E : x == - - x) by ring.
  rewrite (round64_comp _ _ E), round64_opp.
  pose proof (round64_nonneg (- x) ltac:(lra)) as N.
  revert N. generalize (round64 (- x)). intros r N. lra.
Qed.

(** Rounding is monotone on all numbers. *)
Lemma round64_monotone x y : x <= y -> round64 x <= round64 y.
Proof.
  intros H.
  destruct (Qlt_le_dec x 0) as [Nx | Px]; [| apply round64_mono; assumption].
  destruct (Qlt_le_dec y 0) as [Ny | Py].
  - assert (Ex : x == - - x) by ring. assert (Ey : y == - - y) by ring.
    rewrite (round64_comp _ _ Ex), (round64_comp _ _ Ey).
    rewrite (round64_opp (- x)), (round64_opp (- y)).
    pose proof (round64_mono (- y) (- x) ltac:(lra) ltac:(lra)) as M.
    revert M. generalize (round64 (- x)) (round64 (- y)). intros a b M. lra.
  - apply (Qle_trans _ 0); [apply round64_nonpos; lra | apply round64_nonneg; exact Py].
Qed.

(** Integers of magnitude up to 2^53, of either sign, are binary64
    values. *)
Lemma round64_integer_signed n :
  (- 2 ^ 53 <= n <= 2 ^ 53)%Z -> round64 (inject_Z n) == inject_Z n.
Proof.
  intros H. destruct (Z_le_gt_dec 0 n) as [P | N]; [apply round64_integer; lia |].
  assert (E : inject_Z n == - inject_Z (- n)) by (rewrite inject_Z_opp; ring).
  rewrite (round64_comp _ _ E), round64_opp, round64_integer by lia.
  rewrite inject_Z_opp. ring.
Qed.

(** The quotient of two integers below 2^53 has the floor of the exact quotient. *)
Lemma floor_fdiv_exact (S n : Z) :
  (0 <= S < 2 ^ 53)%Z -> (0 < n <= 2 ^ 53)%Z ->
  Qfloor (fdiv (inject_Z S) (inject_Z n)) = (S / n)%Z.
Proof.
  intros [S0 S1] [N0 N1].
  set (q := (S / n)%Z).
  assert (Q0 : (0 <= q)%Z) by (apply Z.div_pos; lia).
  assert (QL : (q * n <= S)%Z) by (unfold q; rewrite Z.mul_comm; apply Z.mul_div_le; lia).
  assert (QU : (S + 1 <= (q + 1) * n)%Z).
  { pose proof (Z.mul_succ_div_gt S n N0). unfold q. lia. }
  assert (Qq : (q <= S)%Z) by nia.
  assert (Nq : 0 < inject_Z n) by (change 0 with (inject_Z 0); rewrite <- Zlt_Qlt; exact N0).
  set (x := inject_Z S / inject_Z n).
  assert (X0 : 0 <= x) by (apply ratio_nonneg; lia).
  assert (XL : inject_Z q <= x).
  { unfold x. apply Qle_shift_div_l; [exact Nq |].
    rewrite <- inject_Z_mult, <- Zle_Qle. exact QL. }
  assert (XU : x + 1 / inject_Z n <= inject_Z q + 1).
  { assert (E : x + 1 / inject_Z n == (inject_Z S + 1) / inject_Z n).
    { unfold x. field. intros C. rewrite C in Nq. discriminate Nq. }
    rewrite E. apply Qle_shift_div_r; [exact Nq |].
    change 1 with (inject_Z 1). rewrite <- !inject_Z_plus, <- inject_Z_mult, <- Zle_Qle.
    exact QU. }
  assert (I : 0 < 1 / inject_Z n).
  { apply Qlt_shift_div_l; [exact Nq | lra]. }
  unfold fdiv. fold x. apply Qfloor_unique.
  - rewrite <- (round64_integer q) by lia. apply round64_mono; [| exact XL].
    apply inject_Z_nonneg. exact Q0.
  - rewrite inject_Z_plus. change (inject_Z 1) with 1.
    assert (NB : inject_Z n <= pow2 53).
    { rewrite <- (pow2_inject 53) by lia. rewrite <- Zle_Qle. exact N1. }
    assert (SB : inject_Z S < pow2 53).
    { rewrite <- (pow2_inject 53) by lia. rewrite <- Zlt_Qlt. exact S1. }
    assert (P53 : pow2 53 == 9007199254740992) by reflexivity.
    assert (Err : Qabs (round64 x - x) < 1 / inject_Z n).
    { destruct (Qlt_le_dec x 1) as [Lt1 | Ge1].
      - apply (Qle_lt_trans _ (pow2 (0 - 54))).
        + apply round64_error; [exact X0 | exact Lt1 | lia].
        + apply Qlt_shift_div_l; [exact Nq |].
          assert (P : pow2 (0 - 54) == 1 # 18014398509481984) by reflexivity.
          rewrite P. lra.
      - assert (Px : 0 < x) by lra.
        destruct (Qlog2_spec x Px) as [L U].
        apply (Qle_lt_trans _ (pow2 (Qlog2 x + 1 - 54))).
        + apply round64_error; [exact X0 | exact U |].
          assert (A : (-1 < Qlog2 x + 1)%Z); [| lia].
          apply pow2_lt_inv. apply (Qlt_le_trans _ 1); [reflexivity |]. lra.
        + replace (Qlog2 x + 1 - 54)%Z with (Qlog2 x + -53)%Z by ring.
          rewrite pow2_add.
          assert (P : pow2 (-53) == 1 # 9007199254740992) by reflexivity.
          rewrite P. apply Qlt_shift_div_l; [exact Nq |].
          assert (XN : x * inject_Z n == inject_Z S).
          { unfold x. field. intros C. rewrite C in Nq. discriminate Nq. }
          pose proof (pow2_pos (Qlog2 x)) as PL.
          set (t := pow2 (Qlog2 x)) in *.
          assert (T : t * inject_Z n <= inject_Z S).
          { rewrite <- XN. apply Qmult_le_compat_r; [exact L | lra]. }
          nra. }
    apply Qabs_Qlt_condition in Err. lra.
Qed.

(** ** Classification *)

Lemma ratio_mono p p' c c' :
  (0 < c <= c')%Z -> (0 <= p <= p')%Z ->
  inject_Z p / inject_Z c' <= inject_Z p' / inject_Z c.
Proof.
  intros [Hc Hcc] [Hp Hpp].
  destruct c as [| c | c]; try lia. destruct c' as [| c' | c']; try lia.
  unfold Qle, Qdiv, Qmult, Qinv, inject_Z. cbn [Qnum Qden Pos.mul]. nia.
Qed.

Lemma scaled_ratio_mono k p p' c c' :
  0 <= k -> (0 < c <= c')%Z -> (0 <= p <= p')%Z ->
  fmul (fdiv (inject_Z p) (inject_Z c')) k <= fmul (fdiv (inject_Z p') (inject_Z c)) k.
Proof.
  intros Hk Hc Hp. apply scaled_mono; [exact Hk | | apply ratio_mono; assumption].
  apply ratio_nonneg; lia.
Qed.

Lemma severity_mono (x y : Q) :
  x <= y ->
  (severity (if Qgt_bool x 85 then overcrowded
             else if Qgt_bool x 60 then moderate else normal)
   <= severity (if Qgt_bool y 85 then overcrowded
                else if Qgt_bool y 60 then moderate else normal))%Z.
Proof.
  intros H.
  destruct (Qgt_bool x 85) eqn:X85; destruct (Qgt_bool y 85) eqn:Y85;
    destruct (Qgt_bool x 60) eqn:X60; destruct (Qgt_bool y 60) eqn:Y60;
    cbn; try lia; exfalso;
    repeat match goal with
           | G : Qgt_bool _ _ = true |- _ => apply Qgt_bool_true in G
           | G : Qgt_bool _ _ = false |- _ => apply Qgt_bool_false in G
           end; lra.
Qed.

Lemma status_of_mono p p' c c' :
  (0 < c <= c')%Z -> (0 <= p <= p')%Z ->
  (severity (status_of p c') <= severity (status_of p' c))%Z.
Proof.
  intros Hc Hp. apply severity_mono.
  apply scaled_ratio_mono; [discriminate | exact Hc | exact Hp].
Qed.

Lemma density_of_mono p p' c c' :
  (0 < c <= c')%Z -> (0 <= p <= p')%Z -> (density_of p c' <= density_of p' c)%Z.
Proof.
  intros Hc Hp. apply Qfloor_resp_le.
  apply scaled_ratio_mono; [discriminate | exact Hc | exact Hp].
Qed.

(** X1.  Status and density never move against the crowd: with the
    capacity fixed, a larger population has a status at least as severe
    and a density at least as large; with the population fixed, a larger
    capacity has a status at most as severe and a density at most as
    large.  This holds for every positive capacity, whatever the
    rounding. *)
Theorem classification_monotone (p p' c c' : Z) :
  (0 < c <= c')%Z -> (0 <= p <= p')%Z ->
  (severity (status_of p c) <= severity (status_of p' c))%Z /\
  (density_of p c <= density_of p' c)%Z /\
  (severity (status_of p c') <= severity (status_of p c))%Z /\
  (density_of p c' <= density_of p c)%Z.
Proof.
  intros Hc Hp.
  assert (Hcc : (0 < c <= c)%Z) by lia. assert (Hpp : (0 <= p <= p)%Z) by lia.
  split; [apply status_of_mono; assumption |].
  split; [apply density_of_mono; assumption |].
  split; [apply status_of_mono; assumption | apply density_of_mono; assumption].
Qed.

Lemma classification_monotone_witness :
  ((0 < 250 <= 300)%Z /\ (0 <= 100 <= 220)%Z) /\
  (severity (status_of 100 250) <= severity (status_of 220 250))%Z.
Proof.
  assert (H : (0 < 250 <= 300)%Z /\ (0 <= 100 <= 220)%Z) by lia.
  split; [exact H |].
  exact (proj1 (classification_monotone 100 220 250 300 (proj1 H) (proj2 H))).
Defined.

Lemma fdiv_same c : (0 < c)%Z -> fdiv (inject_Z c) (inject_Z c) == 1.
Proof.
  intros Hc. unfold fdiv.
  assert (E : inject_Z c / inject_Z c == inject_Z 1).
  { change (inject_Z 1) with 1. field. intros C.
    assert (A : 0 < inject_Z c) by (change 0 with (inject_Z 0); rewrite <- Zlt_Qlt; exact Hc).
    rewrite C in A. discriminate A. }
  rewrite (round64_comp _ _ E). apply round64_integer. lia.
Qed.

Lemma fdiv_zero c : fdiv (inject_Z 0) (inject_Z c) == 0.
Proof. unfold fdiv. apply round64_zero. unfold Qdiv. change (inject_Z 0) with 0. ring. Qed.

(** X2.  For every positive capacity the density of a zone that is not
    over capacity lies between 0 and 120; an empty zone has density 0 and
    status [normal], a full zone has density 120 and status
    [overcrowded]. *)
Theorem density_range (p c : Z) :
  (0 < c)%Z -> (0 <= p <= c)%Z ->
  (0 <= density_of p c <= 120)%Z /\
  density_of 0 c = 0%Z /\ status_of 0 c = normal /\
  density_of c c = 120%Z /\ status_of c c = overcrowded.
Proof.
  intros Hc Hp.
  assert (Z0 : forall k, fmul (fdiv (inject_Z 0) (inject_Z c)) k == 0).
  { intros k. unfold fmul. apply round64_zero. rewrite fdiv_zero. ring. }
  assert (F : forall k : Z, (0 <= k <= 2 ^ 53)%Z ->
                fmul (fdiv (inject_Z c) (inject_Z c)) (inject_Z k) == inject_Z k).
  { intros k Hk. unfold fmul.
    assert (E : fdiv (inject_Z c) (inject_Z c) * inject_Z k == inject_Z k).
    { rewrite (fdiv_same c Hc). ring. }
    rewrite (round64_comp _ _ E). apply round64_integer. exact Hk. }
  assert (D0 : density_of 0 c = 0%Z).
  { unfold density_of. rewrite (Qfloor_comp _ _ (Z0 120)). reflexivity. }
  assert (D1 : density_of c c = 120%Z).
  { unfold density_of. change 120 with (inject_Z 120).
    rewrite (Qfloor_comp _ _ (F 120%Z ltac:(lia))). apply Qfloor_Z. }
  split; [| split; [exact D0 | split; [| split; [exact D1 |]]]].
  - pose proof (density_of_mono 0 p c c ltac:(lia) ltac:(lia)) as L.
    pose proof (density_of_mono p c c c ltac:(lia) ltac:(lia)) as U.
    lia.
  - unfold status_of.
    assert (A : Qgt_bool (fmul (fdiv (inject_Z 0) (inject_Z c)) 100) 85 = false).
    { apply Qgt_bool_false. rewrite (Z0 100). discriminate. }
    assert (B : Qgt_bool (fmul (fdiv (inject_Z 0) (inject_Z c)) 100) 60 = false).
    { apply Qgt_bool_false. rewrite (Z0 100). discriminate. }
    rewrite A, B. reflexivity.
  - unfold status_of.
    assert (A : Qgt_bool (fmul (fdiv (inject_Z c) (inject_Z c)) 100) 85 = true).
    { apply Qgt_bool_true. change 100 with (inject_Z 100).
      rewrite (F 100%Z ltac:(lia)). reflexivity. }
    rewrite A. reflexivity.
Qed.

Lemma density_range_witness :
  ((0 < 5880)%Z /\ (0 <= 4625 <= 5880)%Z) /\ (0 <= density_of 4625 5880 <= 120)%Z.
Proof.
  assert (H : (0 < 5880)%Z /\ (0 <= 4625 <= 5880)%Z) by lia.
  split; [exact H |].
  exact (proj1 (density_range 4625 5880 (proj1 H) (proj2 H))).
Defined.

Lemma classification_comp p c p' c' :
  inject_Z p / inject_Z c == inject_Z p' / inject_Z c' ->
  status_of p c = status_of p' c' /\ density_of p c = density_of p' c'.
Proof.
  intros E.
  assert (D : fdiv (inject_Z p) (inject_Z c) == fdiv (inject_Z p') (inject_Z c')).
  { apply round64_comp. exact E. }
  assert (M : forall k, fmul (fdiv (inject_Z p) (inject_Z c)) k
                        == fmul (fdiv (inject_Z p') (inject_Z c')) k).
  { intros k. apply round64_comp. rewrite D. reflexivity. }
  split.
  - unfold status_of, Qgt_bool.
    rewrite (Qleb_comp _ _ (M 100) 85 85 (Qeq_refl _)).
    rewrite (Qleb_comp _ _ (M 100) 60 60 (Qeq_refl _)). reflexivity.
  - unfold density_of. apply Qfloor_comp. apply M.
Qed.

(** X3.  Status and density depend on population and capacity through
    their ratio alone: two zones with the same ratio p/c = p'/c' get the
    same status and the same density, for all positive capacities. *)
Theorem classification_of_ratio (p c p' c' : Z) :
  (0 < c)%Z -> (0 < c')%Z -> (p * c' = p' * c)%Z ->
  status_of p c = status_of p' c' /\ density_of p c = density_of p' c'.
Proof.
  intros Hc Hc' E. apply classification_comp.
  destruct c as [| c | c]; try lia. destruct c' as [| c' | c']; try lia.
  unfold Qeq, Qdiv, Qmult, Qinv, inject_Z. cbn [Qnum Qden Pos.mul]. lia.
Qed.

Lemma classification_of_ratio_witness :
  ((0 < 5880)%Z /\ (0 < 1176)%Z /\ (4625 * 1176 = 925 * 5880)%Z) /\
  status_of 4625 5880 = status_of 925 1176.
Proof.
  assert (H : (0 < 5880)%Z /\ (0 < 1176)%Z /\ (4625 * 1176 = 925 * 5880)%Z).
  { repeat split. }
  split; [exact H |].
  destruct H as (H1 & H2 & H3).
  exact (proj1 (classification_of_ratio 4625 5880 925 1176 H1 H2 H3)).
Defined.

Lemma density_of_div p c :
  (0 < c <= density_capacity)%Z -> (0 <= p <= c)%Z -> density_of p c = (120 * p / c)%Z.
Proof. intros Hc Hp. rewrite (density_exact p c Hc Hp). apply density_spec_div. Qed.

(** Up to the exact capacity the status tells on which side of the two
    thresholds the ratio lies. *)
Lemma status_of_cases p c :
  (0 < c <= exact_capacity)%Z -> (0 <= p)%Z ->
  (status_of p c = overcrowded /\ (17 * c < 20 * p)%Z) \/
  (status_of p c = moderate /\ (3 * c < 5 * p)%Z /\ (20 * p <= 17 * c)%Z) \/
  (status_of p c = normal /\ (5 * p <= 3 * c)%Z).
Proof.
  intros [Hc Hb] Hp.
  pose proof (percentage_low_85 p c Hc Hp) as L85.
  pose proof (percentage_low_60 p c Hc Hp) as L60.
  pose proof (percentage_high_85 p c Hc Hb) as H85.
  pose proof (percentage_high_60 p c Hc Hb) as H60.
  unfold status_of.
  set (percentage := fmul (fdiv (inject_Z p) (inject_Z c)) 100) in *.
  destruct (Z_lt_le_dec (17 * c) (20 * p)) as [A | A].
  - left. assert (R : 0.85 < inject_Z p / inject_Z c).
    { apply fraction_lt_ratio; [exact Hc | lia]. }
    apply H85 in R. apply Qgt_bool_true in R. rewrite R. split; [reflexivity | exact A].
  - right. assert (R : inject_Z p / inject_Z c <= 0.85).
    { apply ratio_le_fraction; [exact Hc | lia]. }
    apply L85 in R. apply Qgt_bool_false in R. rewrite R.
    destruct (Z_lt_le_dec (3 * c) (5 * p)) as [B | B].
    + left. assert (R' : 0.6 < inject_Z p / inject_Z c).
      { apply fraction_lt_ratio; [exact Hc | lia]. }
      apply H60 in R'. apply Qgt_bool_true in R'. rewrite R'.
      split; [reflexivity | split; [exact B | lia]].
    + right. assert (R' : inject_Z p / inject_Z c <= 0.6).
      { apply ratio_le_fraction; [exact Hc | lia]. }
      apply L60 in R'. apply Qgt_bool_false in R'. rewrite R'.
      split; [reflexivity | exact B].
Qed.

(** X4.  Status and density of a reading agree: for a capacity of at
    most 2^46 and a population within it, an [overcrowded] zone has a
    density of at least 102, a [moderate] zone one from 72 to 102 and a
    [normal] zone one of at most 72; conversely a density above 102
    means [overcrowded] and a density below 72 means [normal]. *)
Theorem status_density_agree (p c : Z) :
  (0 < c <= density_capacity)%Z -> (0 <= p <= c)%Z ->
  (status_of p c = overcrowded -> (102 <= density_of p c)%Z) /\
  (status_of p c = moderate -> (72 <= density_of p c <= 102)%Z) /\
  (status_of p c = normal -> (density_of p c <= 72)%Z) /\
  ((102 < density_of p c)%Z -> status_of p c = overcrowded) /\
  ((density_of p c < 72)%Z -> status_of p c = normal).
Proof.
  intros Hc Hp. rewrite (density_of_div p c Hc Hp).
  assert (Hc' : (0 < c <= exact_capacity)%Z).
  { unfold exact_capacity, density_capacity in *. split; [lia |].
    apply (Z.le_trans _ (2 ^ 46)); [lia | discriminate]. }
  destruct Hc as [Hc _].
  assert (L : forall m, (m * c <= 120 * p -> m <= 120 * p / c)%Z).
  { intros m H. apply Z.div_le_lower_bound; lia. }
  assert (U : forall m, (120 * p <= m * c -> 120 * p / c <= m)%Z).
  { intros m H. apply Z.div_le_upper_bound; [lia |]. lia. }
  assert (U' : forall m, (120 * p < m * c -> 120 * p / c < m)%Z).
  { intros m H. apply Z.div_lt_upper_bound; lia. }
  assert (L' : forall m, ((m + 1) * c <= 120 * p -> m < 120 * p / c)%Z).
  { intros m H. specialize (L (m + 1)%Z H). lia. }
  pose proof (L 72%Z) as L72. pose proof (L 102%Z) as L102.
  pose proof (U 72%Z) as U72. pose proof (U 102%Z) as U102.
  pose proof (L' 102%Z) as L103. pose proof (U' 72%Z) as U71.
  clear L U L' U'.
  destruct (status_of_cases p c Hc' (proj1 Hp)) as [[E A] | [(E & A & B) | [E A]]];
    rewrite E; (split; [| split; [| split; [| split]]]);
    try discriminate; try (intros _; reflexivity); intros G; try (exfalso; lia); lia.
Qed.

Lemma status_density_agree_witness :
  ((0 < 5880 <= density_capacity)%Z /\ (0 <= 4625 <= 5880)%Z) /\
  (status_of 4625 5880 = moderate -> (72 <= density_of 4625 5880 <= 102)%Z).
Proof.
  assert (H : (0 < 5880 <= density_capacity)%Z /\ (0 <= 4625 <= 5880)%Z).
  { unfold density_capacity. lia. }
  split; [exact H |].
  exact (proj1 (proj2 (status_density_agree 4625 5880 (proj1 H) (proj2 H)))).
Defined.

(** ** Readings of a tick *)

Local Open Scope Z_scope.

Lemma applyDBSCAN_length dbscan_run clock zoneData :
  List.length (applyDBSCAN dbscan_run clock zoneData) = List.length zoneData.
Proof. unfold applyDBSCAN, mapi. apply mapi_from_length. Qed.

Lemma applyDBSCAN_map {A} dbscan_run clock zoneData (f : Zone.t -> A) (g : Signal.t -> A) :
  (forall zone idx cl,
     f {| Zone.zoneId := Signal.zoneId zone;
          Zone.zoneName := Signal.zoneName zone;
          Zone.population := Signal.population zone;
          Zone.density := density_of (Signal.population zone) (Signal.capacity zone);
          Zone.cluster := cl;
          Zone.capacity := Signal.capacity zone;
          Zone.status := status_of (Signal.population zone) (Signal.capacity zone);
          Zone.timestamp := clock idx |} = g zone) ->
  map f (applyDBSCAN dbscan_run clock zoneData) = map g zoneData.
Proof.
  intros H. apply nth_error_ext. intros i. rewrite !nth_error_map, applyDBSCAN_nth.
  destruct (nth_error zoneData i) as [zone |]; [| reflexivity].
  cbn [option_map]. rewrite H. reflexivity.
Qed.

(** X5.  The classifier returns one reading per signal, in the order of
    the signals: it copies zone id, name, population and capacity, stamps
    reading number idx with the clock read while that element is mapped,
    and gives every reading the status and the density of its own
    population and capacity, whatever the clusters are. *)
Theorem applyDBSCAN_keeps_signals dbscan_run clock zoneData :
  let readings := applyDBSCAN dbscan_run clock zoneData in
  List.length readings = List.length zoneData /\
  map Zone.zoneId readings = map Signal.zoneId zoneData /\
  map Zone.zoneName readings = map Signal.zoneName zoneData /\
  map Zone.population readings = map Signal.population zoneData /\
  map Zone.capacity readings = map Signal.capacity zoneData /\
  (forall idx r, nth_error readings idx = Some r ->
     Zone.timestamp r = clock idx /\
     Zone.status r = status_of (Zone.population r) (Zone.capacity r) /\
     Zone.density r = density_of (Zone.population r) (Zone.capacity r)).
Proof.
  intros readings. unfold readings.
  split; [apply applyDBSCAN_length |].
  split; [apply applyDBSCAN_map; reflexivity |].
  split; [apply applyDBSCAN_map; reflexivity |].
  split; [apply applyDBSCAN_map; reflexivity |].
  split; [apply applyDBSCAN_map; reflexivity |].
  intros idx r H. rewrite applyDBSCAN_nth in H.
  destruct (nth_error zoneData idx) as [zone |]; [| discriminate].
  injection H as <-. repeat split.
Qed.

Lemma cluster_of_bound clusters idx :
  0 <= cluster_of clusters idx <= Z.of_nat (List.length clusters).
Proof.
  destruct (cluster_of_cases clusters idx) as [[E _] | (k & E & (cl & Hk & _) & _)];
    rewrite E; [lia |].
  assert (k < List.length clusters)%nat; [| lia].
  apply nth_error_Some. rewrite Hk. discriminate.
Qed.

Lemma cluster_of_shared clusters i j :
  cluster_of clusters i = cluster_of clusters j -> cluster_of clusters i <> 0 ->
  exists cl, In cl clusters /\ In i cl /\ In j cl.
Proof.
  intros E NZ.
  destruct (cluster_of_cases clusters i) as [[Ei _] | (k & Ei & (cl & Hk & Hi) & _)];
    [destruct (NZ Ei) |].
  destruct (cluster_of_cases clusters j) as [[Ej _] | (k' & Ej & (cl' & Hk' & Hj) & _)];
    [lia |].
  assert (k' = k) by lia. subst k'. rewrite Hk in Hk'. injection Hk' as <-.
  exists cl. split; [apply (nth_error_In _ _ Hk) | split; assumption].
Qed.

(** X6.  The cluster label of a reading is at most the number of
    clusters that the clusterer returned, and the points of two readings
    that carry the same label other than 0 both belong to one of those
    clusters. *)
Theorem cluster_labels dbscan_run clock zoneData :
  let clusters := dbscan_run (map Signal.coordinates zoneData) 30%Q 2 in
  let readings := applyDBSCAN dbscan_run clock zoneData in
  (forall i r, nth_error readings i = Some r ->
     0 <= Zone.cluster r <= Z.of_nat (List.length clusters)) /\
  (forall i j r r',
     nth_error readings i = Some r -> nth_error readings j = Some r' ->
     Zone.cluster r = Zone.cluster r' -> Zone.cluster r <> 0 ->
     exists cl, In cl clusters /\ In i cl /\ In j cl).
Proof.
  intros clusters readings. unfold readings. split.
  - intros i r H. rewrite applyDBSCAN_nth in H.
    destruct (nth_error zoneData i) as [zone |]; [| discriminate].
    injection H as <-. apply cluster_of_bound.
  - intros i j r r' Hi Hj. rewrite applyDBSCAN_nth in Hi, Hj.
    destruct (nth_error zoneData i) as [zi |]; [| discriminate].
    destruct (nth_error zoneData j) as [zj |]; [| discriminate].
    injection Hi as <-. injection Hj as <-. apply cluster_of_shared.
Qed.

Local Open Scope Q_scope.

Lemma density_of_nonneg p c : (0 < c)%Z -> (0 <= p)%Z -> (0 <= density_of p c)%Z.
Proof.
  intros Hc Hp. unfold density_of. rewrite <- (Qfloor_Z 0). apply Qfloor_resp_le.
  apply fmul_nonneg; [| discriminate].
  apply round64_nonneg. apply ratio_nonneg; assumption.
Qed.

Lemma registry_bounds_facts zone :
  In zone ZONES ->
  (10 * population_of 0 (ZoneConfig.capacity zone) = 3 * ZoneConfig.capacity zone)%Z /\
  capacity_of (ZoneConfig.id zone) = ZoneConfig.capacity zone /\
  ZoneConfig.id zone <> ""%string /\
  ZoneConfig.name zone <> ""%string.
Proof.
  intros H.
  repeat (destruct H as [<- | H];
          [repeat split; try discriminate; vm_compute; reflexivity |]).
  destruct H.
Qed.

(** A reading of a snapshot, field by field: it is made from the signal
    of a zone of the registry and the draws for that zone. *)
Lemma snapshot_reading dbscan_run env r :
  In r (snapshot dbscan_run env) ->
  exists i zone s,
    nth_error ZONES i = Some zone /\
    nth_error (snapshot dbscan_run env) i = Some r /\
    s = signal_at (random env) zone (3 * i + 0) /\
    Zone.zoneId r = Signal.zoneId s /\
    Zone.zoneName r = Signal.zoneName s /\
    Zone.population r = Signal.population s /\
    Zone.capacity r = Signal.capacity s /\
    Zone.density r = density_of (Signal.population s) (Signal.capacity s) /\
    Zone.status r = status_of (Signal.population s) (Signal.capacity s) /\
    Zone.timestamp r = Date_now env i.
Proof.
  intros H. apply In_nth_error in H. destruct H as [i Hi].
  pose proof Hi as Hi'.
  rewrite snapshot_unfold, applyDBSCAN_nth in Hi.
  destruct (generateNetworkActivity_run (random env) 0%nat) as (_ & Hl & Hn).
  destruct (nth_error (fst (generateNetworkActivity (random env) 0%nat)) i)
    as [s |] eqn:Es; [| discriminate Hi].
  injection Hi as <-.
  assert (Hlt : (i < List.length ZONES)%nat).
  { rewrite <- Hl. apply nth_error_Some. rewrite Es. discriminate. }
  destruct (nth_error ZONES i) as [zone |] eqn:E.
  - exists i, zone, s. split; [exact E |]. split; [exact Hi' |]. split.
    + specialize (Hn i zone E). rewrite Es in Hn. injection Hn as Hn. exact Hn.
    + repeat split.
  - apply nth_error_None in E. lia.
Qed.

(** The validators accept exactly the valid readings. *)
Lemma validate_valid d : Zone.validate d = true <-> valid d.
Proof.
  unfold Zone.validate, Zone.required, Zone.min, valid.
  rewrite !andb_true_iff, !negb_true_iff, !String.eqb_neq, !Z.leb_le. tauto.
Qed.

Lemma forallb_valid docs :
  forallb Zone.validate docs = true <-> forall d, In d docs -> valid d.
Proof.
  rewrite forallb_forall. split; intros H d Hd; apply validate_valid, H, Hd.
Qed.

Lemma snapshot_valid dbscan_run env r :
  in_range env -> In r (snapshot dbscan_run env) -> valid r.
Proof.
  intros Hr Hin.
  destruct (snapshot_reading _ _ _ Hin)
    as (i & zone & s & Hz & _ & Es & Ei & En & Ep & Ec & Ed & _).
  apply nth_error_In in Hz.
  destruct (registry_bounds_facts zone Hz) as (_ & _ & N1 & N2).
  destruct (registry_facts zone Hz) as ([Hc _] & _).
  destruct (Hr (3 * i + 0)%nat) as [R0 _].
  pose proof (population_of_nonneg (random env (3 * i + 0)%nat) _ R0 (Z.lt_le_incl _ _ Hc)) as P.
  assert (Si : Signal.zoneId s = ZoneConfig.id zone) by (rewrite Es; reflexivity).
  assert (Sn : Signal.zoneName s = ZoneConfig.name zone) by (rewrite Es; reflexivity).
  assert (Sp : Signal.population s
               = population_of (random env (3 * i + 0)%nat) (ZoneConfig.capacity zone))
    by (rewrite Es; reflexivity).
  assert (Sc : Signal.capacity s = ZoneConfig.capacity zone) by (rewrite Es; reflexivity).
  unfold valid. rewrite Ei, En, Ep, Ed, Si, Sn, Sp, Sc.
  split; [exact N1 |]. split; [exact N2 |]. split; [exact P |].
  apply density_of_nonneg; assumption.
Qed.

(** X7.  Every reading of a tick is valid: zone id and name are not
    empty, population and density are at least 0.  Hence the insertion
    of a snapshot is refused only when the database fails, and a tick
    whose database answers stores its snapshot; whereas documents one of
    which is not valid are refused as a whole, whatever the database
    would answer. *)
Theorem snapshot_passes_validation dbscan_run env :
  in_range env ->
  let data := snapshot dbscan_run env in
  (forall r, In r data -> valid r) /\
  (forall coll, Zone.insertMany None data coll = inr (coll ++ data)) /\
  (forall coll message,
     Zone.insertMany (Some message) data coll = inl (Zone.MongoError message)) /\
  (forall s, fault env = None ->
             collection (tick dbscan_run env s) = collection s ++ data) /\
  (forall fault docs coll d,
     In d docs -> ~ valid d ->
     Zone.insertMany fault docs coll = inl Zone.ValidationError).
Proof.
  intros Hr data.
  assert (V : forall r, In r data -> valid r).
  { intros r Hin. apply (snapshot_valid dbscan_run env r Hr Hin). }
  assert (B : forallb Zone.validate data = true) by (apply forallb_valid; exact V).
  split; [exact V |].
  split; [intros coll; unfold Zone.insertMany; rewrite B; reflexivity |].
  split; [intros coll message; unfold Zone.insertMany; rewrite B; reflexivity |].
  split; [intros s F; apply tick_stored; assumption |].
  intros fault docs coll d Hd Nv. unfold Zone.insertMany.
  destruct (forallb Zone.validate docs) eqn:E; [| reflexivity].
  destruct Nv. apply (proj1 (forallb_valid docs) E d Hd).
Qed.

Lemma snapshot_passes_validation_witness :
  in_range Sample.env /\
  forall coll,
    Zone.insertMany None (snapshot Sample.clusterer Sample.env) coll
    = inr (coll ++ snapshot Sample.clusterer Sample.env).
Proof.
  split; [exact sample_env_range |].
  exact (proj1 (proj2 (snapshot_passes_validation Sample.clusterer Sample.env
                         sample_env_range))).
Defined.

(** ** Decimal notation *)

Local Open Scope Z_scope.

Local Open Scope string_scope.

Lemma append_nil_r s : s ++ "" = s.
Proof. induction s as [| c s IH]; [reflexivity |]. cbn. rewrite IH. reflexivity. Qed.

Lemma append_assoc a b c : (a ++ b) ++ c = a ++ (b ++ c).
Proof. induction a as [| x a IH]; [reflexivity |]. cbn. rewrite IH. reflexivity. Qed.

Lemma length_append a b : String.length (a ++ b) = (String.length a + String.length b)%nat.
Proof. induction a as [| x a IH]; [reflexivity |]. cbn. rewrite IH. reflexivity. Qed.

Lemma substring_all s : substring 0 (String.length s) s = s.
Proof. induction s as [| c s IH]; [reflexivity |]. cbn. rewrite IH. reflexivity. Qed.

Lemma substring_none s : substring 0 0 s = "".
Proof. destruct s; reflexivity. Qed.

Lemma substring_head a b : substring 0 (String.length a) (a ++ b) = a.
Proof.
  induction a as [| c a IH]; [apply substring_none |]. cbn. rewrite IH. reflexivity.
Qed.

Lemma substring_tail a b : substring (String.length a) (String.length b) (a ++ b) = b.
Proof. induction a as [| c a IH]; [apply substring_all | exact IH]. Qed.

Lemma digits_fuel f : forall f' n,
  0 <= n < 2 ^ Z.of_nat (S f) -> n < 2 ^ Z.of_nat (S f') ->
  Number.digits (S f) n = Number.digits (S f') n.
Proof.
  induction f as [| f IH]; intros f' n [N0 N1] N2.
  - cbn [Number.digits]. change (2 ^ Z.of_nat 1) with 2 in N1.
    destruct (Z.ltb_spec n 10); [reflexivity | lia].
  - cbn [Number.digits]. destruct (Z.ltb_spec n 10) as [L | G]; [reflexivity |].
    destruct f' as [| f'].
    + change (2 ^ Z.of_nat 1) with 2 in N2. lia.
    + f_equal. fold (Number.digits (S f) (n / 10)). fold (Number.digits (S f') (n / 10)).
      assert (D : forall k : nat, n < 2 ^ Z.of_nat (S (S k)) -> n / 10 < 2 ^ Z.of_nat (S k)).
      { intros k H. rewrite (Nat2Z.inj_succ (S k)), Z.pow_succ_r in H by lia.
        apply Z.div_lt_upper_bound; lia. }
      apply IH; [split; [apply Z.div_pos; lia | apply D; exact N1] | apply D; exact N2].
Qed.

Lemma decimal_fuel n f :
  0 <= n < 2 ^ Z.of_nat (S f) -> Number.decimal n = Number.digits (S f) n.
Proof.
  intros [N0 N1]. unfold Number.decimal. apply digits_fuel; [split; [exact N0 |] | exact N1].
  destruct (Z.eq_dec n 0) as [-> | NZ]; [reflexivity |].
  rewrite Nat2Z.inj_succ, Z2Nat.id by apply Z.log2_nonneg.
  apply Z.log2_spec. lia.
Qed.

Lemma decimal_small n : 0 <= n < 10 -> Number.decimal n = String (Number.digit n) "".
Proof.
  intros [N0 N1]. unfold Number.decimal. cbn [Number.digits].
  destruct (Z.ltb_spec n 10); [reflexivity | lia].
Qed.

Lemma decimal_step n :
  10 <= n ->
  Number.decimal n = Number.decimal (n / 10) ++ String (Number.digit (n mod 10)) "".
Proof.
  intros N. unfold Number.decimal at 1. cbn [Number.digits].
  destruct (Z.ltb_spec n 10) as [L | _]; [lia |]. f_equal.
  assert (P : 0 < Z.log2 n) by (apply Z.log2_pos; lia).
  destruct (Z.to_nat (Z.log2 n)) as [| f] eqn:E; [lia |].
  symmetry. apply decimal_fuel. split; [apply Z.div_pos; lia |].
  apply Z.div_lt_upper_bound; [lia |].
  assert (U : n < 2 ^ Z.succ (Z.log2 n)) by (apply Z.log2_spec; lia).
  replace (Z.of_nat (S f)) with (Z.log2 n) by lia.
  rewrite Z.pow_succ_r in U by lia. lia.
Qed.

Lemma decimal_length n : 0 <= n -> (1 <= String.length (Number.decimal n))%nat.
Proof.
  intros N. destruct (Z_lt_le_dec n 10) as [L | G].
  - rewrite decimal_small by lia. cbn. lia.
  - rewrite decimal_step by exact G. rewrite length_append. cbn. lia.
Qed.

Lemma fraction_length f : forall r, String.length (fraction f r) = f.
Proof.
  induction f as [| f IH]; intros r; [reflexivity |].
  cbn [fraction]. rewrite length_append, IH. cbn. lia.
Qed.

Lemma fraction_zero f : fraction f 0 = Number.zeros f.
Proof.
  induction f as [| f IH]; [reflexivity |]. cbn [fraction].
  change (0 / 10) with 0. change (0 mod 10) with 0. rewrite IH.
  clear IH. induction f as [| f IH]; [reflexivity |].
  cbn [Number.zeros append]. f_equal. exact IH.
Qed.

Lemma pad_snoc f u c : pad (S f) (u ++ String c "") = pad f u ++ String c "".
Proof.
  unfold pad. rewrite length_append. cbn [String.length].
  replace (String.length u + 1 <=? S f)%nat with (String.length u <=? f)%nat.
  - destruct (String.length u <=? f)%nat; [| reflexivity].
    replace (S f + 1 - (String.length u + 1))%nat with (f + 1 - String.length u)%nat by lia.
    apply eq_sym, append_assoc.
  - destruct (Nat.leb_spec (String.length u) f); destruct (Nat.leb_spec (String.length u + 1) (S f));
      try reflexivity; lia.
Qed.

Lemma pad_split f : forall n,
  0 <= n ->
  pad f (Number.decimal n)
  = Number.decimal (n / 10 ^ Z.of_nat f) ++ fraction f (n mod 10 ^ Z.of_nat f).
Proof.
  induction f as [| f IH]; intros n N.
  - change (10 ^ Z.of_nat 0) with 1. rewrite Z.div_1_r. cbn [fraction].
    rewrite append_nil_r. unfold pad.
    pose proof (decimal_length n N).
    destruct (Nat.leb_spec (String.length (Number.decimal n)) 0); [lia | reflexivity].
  - assert (P : 0 < 10 ^ Z.of_nat f) by (apply Z.pow_pos_nonneg; lia).
    assert (E : 10 ^ Z.of_nat (S f) = 10 * 10 ^ Z.of_nat f).
    { rewrite Nat2Z.inj_succ, Z.pow_succ_r by lia. reflexivity. }
    rewrite E. cbn [fraction].
    assert (R : n mod (10 * 10 ^ Z.of_nat f) = n mod 10 + 10 * ((n / 10) mod 10 ^ Z.of_nat f)).
    { apply Z.rem_mul_r; lia. }
    assert (R1 : (n mod (10 * 10 ^ Z.of_nat f)) / 10 = (n / 10) mod 10 ^ Z.of_nat f).
    { rewrite R. rewrite Z.mul_comm, Z.div_add by lia.
      rewrite (Z.div_small (n mod 10)) by (apply Z.mod_pos_bound; lia). reflexivity. }
    assert (R2 : (n mod (10 * 10 ^ Z.of_nat f)) mod 10 = n mod 10).
    { rewrite R. rewrite Z.mul_comm, Z.mod_add by lia. apply Z.mod_mod. lia. }
    rewrite R1, R2, <- Z.div_div by lia.
    destruct (Z_lt_le_dec n 10) as [L | G].
    + rewrite (decimal_small n) by lia.
      rewrite (Z.div_small n 10), (Z.mod_small n 10) by lia.
      rewrite Z.div_0_l, Z.mod_0_l by lia.
      rewrite fraction_zero. unfold pad. cbn [String.length].
      destruct (Nat.leb_spec 1 (S f)); [| lia].
      replace (S f + 1 - 1)%nat with (S f) by lia. reflexivity.
    + rewrite (decimal_step n G), pad_snoc, (IH (n / 10)) by (apply Z.div_pos; lia).
      apply append_assoc.
Qed.

(** Reading the digits back. *)
Lemma digit_value_digit d : 0 <= d < 10 -> digit_value (Number.digit d) = d.
Proof.
  intros H. unfold digit_value, Number.digit.
  rewrite nat_ascii_embedding by lia. lia.
Qed.

Lemma value_from_append u v : forall acc, value_from acc (u ++ v) = value_from (value_from acc u) v.
Proof. induction u as [| c u IH]; intros acc; [reflexivity | apply IH]. Qed.

Lemma value_snoc u d : 0 <= d < 10 -> value (u ++ String (Number.digit d) "") = 10 * value u + d.
Proof.
  intros H. unfold value. rewrite value_from_append. cbn [value_from].
  rewrite digit_value_digit by exact H. reflexivity.
Qed.

Lemma value_decimal n : 0 <= n -> value (Number.decimal n) = n.
Proof.
  intros N.
  assert (H : forall k : nat, forall m, 0 <= m -> (Z.to_nat m <= k)%nat ->
                value (Number.decimal m) = m).
  { induction k as [| k IH]; intros m M Hk.
    - assert (m = 0) by lia. subst m. reflexivity.
    - destruct (Z_lt_le_dec m 10) as [L | G].
      + rewrite decimal_small by lia. unfold value. cbn [value_from].
        rewrite digit_value_digit by lia. lia.
      + rewrite (decimal_step m G), value_snoc by (apply Z.mod_pos_bound; lia).
        rewrite IH.
        * pose proof (Z_div_mod_eq_full m 10). lia.
        * apply Z.div_pos; lia.
        * assert (m / 10 < m) by (apply Z.div_lt; lia). lia. }
  apply (H (Z.to_nat n)); [exact N | lia].
Qed.

Lemma value_fraction f : forall r, 0 <= r < 10 ^ Z.of_nat f -> value (fraction f r) = r.
Proof.
  induction f as [| f IH]; intros r [R0 R1].
  - change (10 ^ Z.of_nat 0) with 1 in R1. assert (r = 0) by lia. subst r. reflexivity.
  - cbn [fraction]. rewrite value_snoc by (apply Z.mod_pos_bound; lia).
    rewrite IH.
    + pose proof (Z_div_mod_eq_full r 10). lia.
    + rewrite Nat2Z.inj_succ, Z.pow_succ_r in R1 by lia.
      split; [apply Z.div_pos; lia | apply Z.div_lt_upper_bound; lia].
Qed.

(** Decimal representations and fractions are made of digits. *)
Lemma numeral_append u v : numeral u -> numeral v -> numeral (u ++ v).
Proof.
  induction u as [| c u IH]; intros Hu Hv; [exact Hv |].
  destruct Hu as [Hc Hu]. split; [exact Hc | apply IH; assumption].
Qed.

Lemma numeral_digit d : 0 <= d < 10 -> numeral (String (Number.digit d) "").
Proof. intros H. split; [rewrite digit_value_digit by exact H; lia | exact I]. Qed.

Lemma numeral_decimal n : 0 <= n -> numeral (Number.decimal n).
Proof.
  intros N.
  assert (H : forall k : nat, forall m, 0 <= m -> (Z.to_nat m <= k)%nat ->
                numeral (Number.decimal m)).
  { induction k as [| k IH]; intros m M Hk.
    - assert (m = 0) by lia. subst m. apply (numeral_digit 0). lia.
    - destruct (Z_lt_le_dec m 10) as [L | G].
      + rewrite decimal_small by lia. apply numeral_digit. lia.
      + rewrite (decimal_step m G). apply numeral_append.
        * apply IH; [apply Z.div_pos; lia |].
          assert (m / 10 < m) by (apply Z.div_lt; lia). lia.
        * apply numeral_digit. apply Z.mod_pos_bound. lia. }
  apply (H (Z.to_nat n)); [exact N | lia].
Qed.

Lemma numeral_fraction f : forall r, numeral (fraction f r).
Proof.
  induction f as [| f IH]; intros r; [exact I |].
  cbn [fraction]. apply numeral_append; [apply IH |].
  apply numeral_digit. apply Z.mod_pos_bound. lia.
Qed.

(** A decimal representation starts with a digit other than 0, unless
    the number is 0. *)
Lemma leading_append u v : u <> "" -> leading (u ++ v) = leading u.
Proof. destruct u; [congruence | reflexivity]. Qed.

Lemma digit_nonzero d : 0 < d < 10 -> Number.digit d <> "0"%char.
Proof.
  intros H C. assert (E : digit_value (Number.digit d) = digit_value "0"%char) by (rewrite C; reflexivity).
  rewrite digit_value_digit in E by lia. change (digit_value "0"%char) with 0%Z in E. lia.
Qed.

Lemma decimal_leading n : 0 < n -> leading (Number.decimal n) <> "0"%char.
Proof.
  intros N.
  assert (H : forall k : nat, forall m, 0 < m -> (Z.to_nat m <= k)%nat ->
                leading (Number.decimal m) <> "0"%char).
  { induction k as [| k IH]; intros m M Hk; [lia |].
    destruct (Z_lt_le_dec m 10) as [L | G].
    - rewrite decimal_small by lia. cbn [leading]. apply digit_nonzero. lia.
    - rewrite (decimal_step m G), leading_append.
      + apply IH; [apply Z.div_str_pos; lia |].
        assert (m / 10 < m) by (apply Z.div_lt; lia). lia.
      + intros C. pose proof (decimal_length (m / 10) ltac:(apply Z.div_pos; lia)) as Len.
        rewrite C in Len. cbn in Len. lia. }
  apply (H (Z.to_nat n)); [exact N | lia].
Qed.

(** ** The fixed-point notation *)

Local Open Scope Q_scope.

Lemma nearest_integer y :
  let n := Qfloor (y + (1 # 2)) in
  Qabs (inject_Z n - y) <= 1 # 2.
Proof.
  intros n. pose proof (Qfloor_le (y + (1 # 2))) as L.
  pose proof (Qlt_floor (y + (1 # 2))) as U. fold n in L, U.
  rewrite inject_Z_plus in U. change (inject_Z 1) with 1 in U.
  apply Qabs_Qle_condition. split; lra.
Qed.

Lemma toFixed_nonneg x f :
  0 <= x -> x < 10 ^ 21 -> (0 < f <= 100)%nat ->
  let n := Qfloor (x * 10 ^ Z.of_nat f + (1 # 2)) in
  Number.toFixed x f
  = Some (Number.decimal (n / 10 ^ Z.of_nat f) ++ "." ++ fraction f (n mod 10 ^ Z.of_nat f))%string
  /\ (0 <= n)%Z.
Proof.
  intros X0 X1 [F0 F1] n.
  assert (N : (0 <= n)%Z).
  { unfold n. rewrite <- (Qfloor_Z 0). apply Qfloor_resp_le.
    assert (P : 0 < 10 ^ Z.of_nat f) by (apply Qpower_0_lt; reflexivity).
    change (inject_Z 0) with 0. nra. }
  split; [| exact N].
  unfold Number.toFixed.
  assert (A : Qle_bool 0 x = true) by (apply Qle_bool_iff; exact X0).
  rewrite A. cbn [negb].
  assert (B : Qle_bool (10 ^ 21) x = false).
  { destruct (Qle_bool (10 ^ 21) x) eqn:C; [| reflexivity].
    apply Qle_bool_iff in C. lra. }
  rewrite B. cbn [orb].
  destruct (Nat.ltb_spec 100 f) as [C | _]; [lia |].
  destruct (Nat.eqb_spec f 0) as [C | _]; [lia |].
  fold n. cbn [append]. f_equal.
  pose proof (pad_split f n N) as S. unfold pad in S.
  set (m := Number.decimal n) in *.
  set (a := Number.decimal (n / 10 ^ Z.of_nat f)) in *.
  set (b := fraction f (n mod 10 ^ Z.of_nat f)) in *.
  assert (Lb : String.length b = f) by apply fraction_length.
  assert (K : (if (String.length m <=? f)%nat then (f + 1)%nat else String.length m)
              = (String.length a + f)%nat).
  { destruct (Nat.leb_spec (String.length m) f) as [Le | Gt].
    - assert (Len : String.length (Number.zeros (f + 1 - String.length m) ++ m)%string
                    = (String.length a + f)%nat).
      { rewrite S, length_append, Lb. reflexivity. }
      rewrite length_append in Len.
      assert (Z : forall k, String.length (Number.zeros k) = k).
      { induction k as [| k IH]; [reflexivity | cbn; rewrite IH; reflexivity]. }
      rewrite Z in Len. lia.
    - rewrite S, length_append, Lb. reflexivity. }
  rewrite K, S. replace (String.length a + f - f)%nat with (String.length a) by lia.
  rewrite substring_head. rewrite <- Lb at 1. rewrite substring_tail. reflexivity.
Qed.

Local Close Scope string_scope.

Lemma toFixed_negative x f :
  x < 0 ->
  Number.toFixed x f
  = match Number.toFixed (- x) f with
    | Some m => Some ("-" ++ m)%string
    | None => None
    end.
Proof.
  intros N. unfold Number.toFixed.
  assert (A : Qle_bool 0 x = false).
  { destruct (Qle_bool 0 x) eqn:C; [| reflexivity]. apply Qle_bool_iff in C. lra. }
  assert (B : Qle_bool 0 (- x) = true) by (apply Qle_bool_iff; lra).
  rewrite A, B. cbn [negb].
  destruct (Qle_bool (10 ^ 21) (- x) || (100 <? f)%nat); reflexivity.
Qed.

Lemma digits_value n f :
  (0 <= n)%Z ->
  (value (Number.decimal (n / 10 ^ Z.of_nat f)) * 10 ^ Z.of_nat f
   + value (fraction f (n mod 10 ^ Z.of_nat f)) = n)%Z.
Proof.
  intros N. assert (P : (0 < 10 ^ Z.of_nat f)%Z) by (apply Z.pow_pos_nonneg; lia).
  rewrite value_decimal by (apply Z.div_pos; lia).
  rewrite value_fraction by (apply Z.mod_pos_bound; lia).
  pose proof (Z_div_mod_eq_full n (10 ^ Z.of_nat f)). lia.
Qed.

Lemma decimal_no_leading_zero n :
  (0 <= n)%Z -> Number.decimal n = "0"%string \/ leading (Number.decimal n) <> "0"%char.
Proof.
  intros N. destruct (Z.eq_dec n 0) as [-> | NZ]; [left; reflexivity |].
  right. apply decimal_leading. lia.
Qed.

(** ** The occupancy percentage *)




(** ** The latest readings and the history *)

Local Open Scope Z_scope.

(** X9.  Whatever the timestamps are, every row of the latest-per-zone
    query is made of the fields of a stored reading, and no stored
    reading of that zone has a greater timestamp; the rows from which
    the summary is computed are the same rows, cut down to id,
    population and status. *)
Theorem latest_rows_carry_greatest_timestamp (coll : list Zone.t) :
  exists rows,
    Zone.getLatestData None coll = inr rows /\
    Zone.getLatestBrief None coll = inr (map brief_of rows) /\
    forall row, In row rows ->
      exists d, In d coll /\ row = Zone.first d /\
        forall x, In x coll -> Zone.zoneId x = Zone._id row ->
                  Zone.timestamp x <= Zone.g_timestamp row.
Proof.
  eexists. split; [reflexivity |]. split.
  - cbn. rewrite map_map. reflexivity.
  - intros row H. apply in_map_iff in H. destruct H as (d & <- & Hd).
    destruct (group_first_newest coll d Hd) as [Hin Hmax].
    exists d. split; [exact Hin |]. split; [reflexivity | exact Hmax].
Qed.


Lemma filter_all {A} (f : A -> bool) l : (forall a, In a l -> f a = true) -> filter f l = l.
Proof.
  induction l as [| a l IH]; intros H; [reflexivity |]. cbn.
  rewrite (H a (or_introl eq_refl)). f_equal. apply IH.
  intros b Hb. apply H. right. exact Hb.
Qed.

Section Cutoff.

Variable cutoff : Z.
Let recent (d : Zone.t) : bool := cutoff <=? Zone.timestamp d.

Lemma filter_insert_ascending x l :
  filter recent (Zone.insert Zone.ascending x l)
  = if recent x then Zone.insert Zone.ascending x (filter recent l)
    else filter recent l.
Proof.
  induction l as [| y l IH]; cbn [Zone.insert filter].
  - destruct (recent x); reflexivity.
  - destruct (Zone.ascending y x) eqn:A; cbn [filter].
    + rewrite IH. destruct (recent y) eqn:Ry; destruct (recent x) eqn:Rx;
        cbn [Zone.insert]; rewrite ?A; reflexivity.
    + destruct (recent x) eqn:Rx.
      * assert (Ry : recent y = true).
        { unfold recent, Zone.ascending in *. apply Z.leb_le in Rx.
          apply Z.leb_gt in A. apply Z.leb_le. lia. }
        rewrite Ry. cbn [Zone.insert]. rewrite A. reflexivity.
      * reflexivity.
Qed.

Lemma filter_sort_ascending l :
  filter recent (Zone.sort Zone.ascending l) = Zone.sort Zone.ascending (filter recent l).
Proof.
  induction l as [| x l IH]; [reflexivity |].
  cbn [Zone.sort fold_right filter]. fold (Zone.sort Zone.ascending l).
  rewrite filter_insert_ascending, IH.
  destruct (recent x); reflexivity.
Qed.

Lemma sorted_split l :
  StronglySorted (fun a b => Zone.ascending a b = true) l ->
  l = filter (fun d => negb (recent d)) l ++ filter recent l.
Proof.
  induction 1 as [| y l S IH F]; [reflexivity |]. cbn [filter].
  destruct (recent y) eqn:Ry; cbn [negb].
  - assert (All : forall a, In a l -> recent a = true).
    { rewrite Forall_forall in F. intros a Ha. specialize (F a Ha).
      unfold recent, Zone.ascending in *. apply Z.leb_le in F, Ry. apply Z.leb_le. lia. }
    rewrite (filter_all recent l All).
    rewrite (filter_none (fun d => negb (recent d)) l); [reflexivity |].
    intros a Ha. rewrite (All a Ha). reflexivity.
  - cbn [app]. f_equal. exact IH.
Qed.

End Cutoff.

Lemma filter_twice {A} (f g h : A -> bool) l :
  (forall a, f a = h a && g a) -> filter f l = filter g (filter h l).
Proof.
  intros H. induction l as [| a l IH]; [reflexivity |]. cbn [filter].
  rewrite H. destruct (h a); cbn [andb filter]; rewrite IH; reflexivity.
Qed.

(** X10.  A wider window only adds older readings in front: for
    minutes <= minutes' the history of minutes' minutes is the history of
    minutes minutes preceded by the readings of the zone that are older
    than the shorter window. *)
Theorem history_widening (coll : list Zone.t) (now : Z) (zoneId : string)
    (minutes minutes' : Z) :
  minutes <= minutes' ->
  exists history history' older,
    Zone.getZoneHistory None coll now zoneId minutes = inr history /\
    Zone.getZoneHistory None coll now zoneId minutes' = inr history' /\
    history' = older ++ history /\
    (forall d, In d older -> Zone.timestamp d < now - minutes * 60 * 1000) /\
    (forall d, In d history -> now - minutes * 60 * 1000 <= Zone.timestamp d).
Proof.
  intros Hm.
  set (cutoff := now - minutes * 60 * 1000).
  set (recent := fun d : Zone.t => cutoff <=? Zone.timestamp d).
  set (p' := fun d => String.eqb (Zone.zoneId d) zoneId
                      && (now - minutes' * 60 * 1000 <=? Zone.timestamp d)).
  set (history' := Zone.sort Zone.ascending (filter p' coll)).
  exists (filter recent history'), history', (filter (fun d => negb (recent d)) history').
  split; [| split; [reflexivity | split; [| split]]].
  - unfold Zone.getZoneHistory. f_equal. unfold history'.
    rewrite (filter_sort_ascending cutoff). f_equal.
    apply filter_twice. intros d. unfold p'.
    destruct (String.eqb (Zone.zoneId d) zoneId); cbn [andb]; [| reflexivity].
    fold cutoff. destruct (cutoff <=? Zone.timestamp d) eqn:C; [| symmetry; apply andb_false_r].
    apply Z.leb_le in C. unfold cutoff in C. symmetry. rewrite andb_true_r.
    apply Z.leb_le. lia.
  - apply (sorted_split cutoff). apply sort_sorted; [exact ascending_total | exact ascending_trans].
  - intros d Hd. apply filter_In in Hd. destruct Hd as [_ Hd].
    unfold recent in Hd. apply negb_true_iff in Hd. apply Z.leb_gt in Hd. exact Hd.
  - intros d Hd. apply filter_In in Hd. destruct Hd as [_ Hd].
    unfold recent in Hd. apply Z.leb_le in Hd. exact Hd.
Qed.

Lemma history_widening_witness :
  15 <= 60 /\
  exists history history' older,
    Zone.getZoneHistory None Stored.readings 1700000900000 "AB2" 15 = inr history /\
    Zone.getZoneHistory None Stored.readings 1700000900000 "AB2" 60 = inr history' /\
    history' = older ++ history.
Proof.
  assert (H : 15 <= 60) by lia.
  split; [exact H |].
  destruct (history_widening Stored.readings 1700000900000 "AB2" 15 60 H)
    as (history & history' & older & E1 & E2 & E3 & _).
  exists history, history', older. repeat split; assumption.
Defined.

(** ** Ticks, subscribers and queries *)

(** What a broadcast hands to one socket: the data, once for each time
    the socket is listed. *)
Lemma broadcast_received socket sockets data :
  map snd (filter (fun m => Nat.eqb (fst m) socket) (broadcast sockets data))
  = repeat data (count_occ Nat.eq_dec sockets socket).
Proof.
  induction sockets as [| k sockets IH]; [reflexivity |].
  cbn [broadcast map filter fst count_occ].
  destruct (Nat.eqb_spec k socket) as [E | NE]; destruct (Nat.eq_dec k socket) as [E' | NE'];
    try contradiction; cbn [map snd repeat]; unfold broadcast in IH; rewrite IH; reflexivity.
Qed.

Lemma tick_received dbscan_run env s socket :
  received socket (tick dbscan_run env s)
  = received socket s
    ++ repeat (snapshot dbscan_run env) (count_occ Nat.eq_dec (sockets s) socket).
Proof.
  unfold received. rewrite tick_emitted, filter_app, map_app, broadcast_received.
  reflexivity.
Qed.

(** *** Stored before it is broadcast *)

Lemma saveZoneData_stored zoneData s :
  forallb Zone.validate zoneData = true ->
  fst (saveZoneData None zoneData s)
  = log (console_log Message.saved)
      {| collection := collection s ++ zoneData; sockets := sockets s;
         emitted := emitted s; console := console s |}.
Proof. intros V. unfold saveZoneData, Zone.insertMany. rewrite V. reflexivity. Qed.

Lemma io_emit_new socket data s x :
  In x (received socket (io_emit data s)) -> In x (received socket s) \/ x = data.
Proof.
  unfold received, io_emit. cbn [emitted].
  rewrite filter_app, map_app. intros H. apply in_app_or in H.
  destruct H as [H | H]; [left; exact H | right].
  apply in_map_iff in H. destruct H as ([k d] & <- & H).
  apply filter_In in H. destruct H as [H _].
  apply in_map_iff in H. destruct H as (k' & E & _). injection E as _ <-. reflexivity.
Qed.

Lemma stored_in dbscan_run env envs before :
  In env envs ->
  stored (snapshot dbscan_run env) (before ++ flat_map (snapshot dbscan_run) envs).
Proof.
  intros H. apply in_split in H. destruct H as (l1 & l2 & ->).
  rewrite flat_map_app. cbn [flat_map].
  exists (before ++ flat_map (snapshot dbscan_run) l1), (flat_map (snapshot dbscan_run) l2).
  rewrite <- !app_assoc. reflexivity.
Qed.

Section StoredFirst.

Variable dbscan_run : list (Q * Q) -> Q -> Z -> list (list nat).

(** The server at the start, the socket that is watched and the ticks
    that elapse on the schedule. *)
Variable s : server.
Variable socket : nat.
Variable elapsed : environment -> Prop.

(** What is known of a callback, [envs] being the ticks stored so far:
    an insertion that is awaited will succeed, and a callback that has
    left [saveZoneData] has stored its snapshot. *)
Let known (envs : list environment) (c : callback) : Prop :=
  match c with
  | awaits_insertMany zoneData fault' =>
      exists env,
        elapsed env /\ in_range env /\ zoneData = snapshot dbscan_run env /\ fault' = None
  | awaits_saveZoneData clusteredData _ =>
      exists env, In env envs /\ clusteredData = snapshot dbscan_run env
  | settled _ => True
  end.

Let invariant (p : process) : Prop :=
  exists envs,
    collection (state p) = collection s ++ flat_map (snapshot dbscan_run) envs /\
    (forall env, In env envs -> elapsed env) /\
    Forall (known envs) (callbacks p) /\
    (forall data, In data (received socket (state p)) ->
       In data (received socket s) \/
       exists env, In env envs /\ data = snapshot dbscan_run env).

Let fine (o : occurrence) : Prop :=
  healthy o /\ (forall env, o <> Requested socket env) /\
  (forall env, o = Elapsed env -> elapsed env).

Lemma known_more envs envs' c :
  (forall env, In env envs -> In env envs') -> known envs c -> known envs' c.
Proof.
  intros I K. destruct c as [zoneData fault' | data saving | promise]; try exact K.
  destruct K as (env & He & E). exists env. split; [apply I; exact He | exact E].
Qed.

Lemma advance_invariant p o : fine o -> invariant p -> invariant (advance dbscan_run p o).
Proof.
  intros (Hh & Hr & He) (envs & Ec & Ee & Ek & Er).
  destruct o as [env | k | sock | sock | sock env].
  - exists envs. cbn [advance state callbacks].
    split; [exact Ec |]. split; [exact Ee |]. split; [| exact Er].
    apply Forall_app. split; [exact Ek |]. constructor; [| constructor].
    destruct Hh as [F R]. exists env.
    split; [apply He; reflexivity | split; [exact R | split; [reflexivity | exact F]]].
  - destruct (nth_error (callbacks p) k) as [c |] eqn:N.
    + assert (K : known envs c).
      { rewrite Forall_forall in Ek. apply Ek. apply (nth_error_In _ _ N). }
      destruct c as [zoneData fault' | data saving | promise].
      * destruct K as (env & Hel & Hin & -> & ->).
        rewrite (advance_insertMany dbscan_run p k _ _ N).
        rewrite saveZoneData_stored
          by (apply forallb_valid; intros r; apply snapshot_valid; exact Hin).
        exists (envs ++ [env]). cbn [state callbacks log collection].
        split; [| split; [| split]].
        -- rewrite Ec, flat_map_app. cbn [flat_map]. rewrite app_nil_r, app_assoc.
           reflexivity.
        -- intros env' H. apply in_app_or in H.
           destruct H as [H | [<- | []]]; [apply Ee; exact H | exact Hel].
        -- apply Forall_replace.
           ++ apply (Forall_impl _ (fun c => known_more envs (envs ++ [env]) c
                                              (fun e H => in_or_app _ _ _ (or_introl H)))).
              exact Ek.
           ++ exists env. split; [apply in_or_app; right; left; reflexivity | reflexivity].
        -- intros x Hx. destruct (Er x Hx) as [H | (env' & H & E)]; [left; exact H |].
           right. exists env'. split; [apply in_or_app; left; exact H | exact E].
      * destruct K as (env & Hin & ->).
        unfold advance. rewrite N. destruct saving as [| reason]; cbn [resume].
        -- exists envs. cbn [state callbacks].
           split; [exact Ec |]. split; [exact Ee |]. split.
           ++ apply Forall_replace; [exact Ek | exact I].
           ++ intros x Hx.
              assert (Hx' : In x (received socket (io_emit (snapshot dbscan_run env) (state p))))
                by exact Hx.
              apply io_emit_new in Hx'.
              destruct Hx' as [H | ->]; [apply Er; exact H |].
              right. exists env. split; [exact Hin | reflexivity].
        -- exists envs. cbn [state callbacks].
           split; [exact Ec |]. split; [exact Ee |]. split; [| exact Er].
           apply Forall_replace; [exact Ek | exact I].
      * unfold advance. rewrite N. exists envs. repeat split; assumption.
    + unfold advance. rewrite N. exists envs. repeat split; assumption.
  - exists envs. repeat split; assumption.
  - exists envs. repeat split; assumption.
  - exists envs. cbn [advance state callbacks step requestUpdate].
    split; [exact Ec |]. split; [exact Ee |]. split; [exact Ek |].
    intros x Hx. unfold requestUpdate in Hx. rewrite received_emit in Hx.
    destruct (Nat.eqb_spec sock socket) as [E | _].
    + destruct (Hr env). rewrite E. reflexivity.
    + rewrite app_nil_r in Hx. apply Er. exact Hx.
Qed.

Lemma advance_all_invariant schedule : forall p,
  Forall fine schedule -> invariant p -> invariant (advance_all dbscan_run p schedule).
Proof.
  induction schedule as [| o schedule IH]; intros p F H; [exact H |].
  rewrite advance_all_cons. apply Forall_cons_iff in F. destruct F as [Fo F].
  apply IH; [exact F |]. apply advance_invariant; assumption.
Qed.

Lemma stored_first (schedule : list occurrence) :
  Forall fine schedule ->
  let p := advance_all dbscan_run {| state := s; callbacks := [] |} schedule in
  exists envs,
    collection (state p) = collection s ++ flat_map (snapshot dbscan_run) envs /\
    (forall env, In env envs -> elapsed env) /\
    (forall data, In data (received socket (state p)) ->
       In data (received socket s) \/
       exists env, In env envs /\ data = snapshot dbscan_run env /\
                   stored data (collection (state p))).
Proof.
  intros F p.
  assert (H : invariant p).
  { apply advance_all_invariant; [exact F |]. exists [].
    split; [symmetry; apply app_nil_r |]. split; [intros env [] |].
    split; [constructor |]. intros data H. left. exact H. }
  destruct H as (envs & Ec & Ee & _ & Er). exists envs.
  split; [exact Ec |]. split; [exact Ee |].
  intros data Hd. destruct (Er data Hd) as [H | (env & Hin & ->)]; [left; exact H |].
  right. exists env. split; [exact Hin |]. split; [reflexivity |].
  rewrite Ec. apply stored_in. exact Hin.
Qed.

End StoredFirst.

(** X11.  A tick stores its readings before it broadcasts them.  On any
    schedule on which the database accepts every insertion, however the
    ticks, the resumptions of their callbacks and the events of the
    sockets follow one another, the collection is the one at the start
    followed by whole snapshots of ticks that have elapsed, and every
    snapshot that a socket which asked for no refresh has received since
    is one of these and stands in the collection as one block. *)
Theorem tick_stores_what_it_broadcasts dbscan_run (s : server)
    (schedule : list occurrence) (socket : nat) :
  Forall healthy schedule ->
  (forall env, ~ In (Requested socket env) schedule) ->
  let p := advance_all dbscan_run {| state := s; callbacks := [] |} schedule in
  exists envs,
    collection (state p) = collection s ++ flat_map (snapshot dbscan_run) envs /\
    (forall env, In env envs -> In (Elapsed env) schedule) /\
    (forall data, In data (received socket (state p)) ->
       In data (received socket s) \/
       exists env, In env envs /\ data = snapshot dbscan_run env /\
                   stored data (collection (state p))).
Proof.
  intros Hh Hr.
  apply (stored_first dbscan_run s socket (fun env => In (Elapsed env) schedule)).
  rewrite Forall_forall in *. intros o Ho.
  split; [apply Hh; exact Ho |]. split.
  - intros env E. apply (Hr env). rewrite <- E. exact Ho.
  - intros env E. rewrite <- E. exact Ho.
Qed.

Lemma tick_stores_what_it_broadcasts_witness :
  (Forall healthy [Elapsed Sample.env; Connected 3%nat; Resumed 0; Resumed 0] /\
   forall env,
     ~ In (Requested 3%nat env)
          [Elapsed Sample.env; Connected 3%nat; Resumed 0; Resumed 0]) /\
  exists envs,
    collection
      (state (advance_all Sample.clusterer {| state := Stored.server0; callbacks := [] |}
                [Elapsed Sample.env; Connected 3%nat; Resumed 0; Resumed 0]))
    = collection Stored.server0 ++ flat_map (snapshot Sample.clusterer) envs.
Proof.
  assert (H : Forall healthy [Elapsed Sample.env; Connected 3%nat; Resumed 0; Resumed 0]).
  { constructor; [split; [reflexivity | exact sample_env_range] |].
    repeat (constructor; [exact I |]). constructor. }
  assert (R : forall env,
            ~ In (Requested 3%nat env)
                 [Elapsed Sample.env; Connected 3%nat; Resumed 0; Resumed 0]).
  { intros env [C | [C | [C | [C | []]]]]; discriminate C. }
  split; [split; [exact H | exact R] |].
  destruct (tick_stores_what_it_broadcasts Sample.clusterer Stored.server0 _ 3%nat H R)
    as (envs & E & _).
  exists envs. exact E.
Defined.


Lemma registry_ids_distinct : NoDup (map ZoneConfig.id ZONES).
Proof. repeat constructor; cbn; intuition discriminate. Qed.










Lemma run_ticks_received dbscan_run socket envs :
  forall s,
    received socket (run dbscan_run s (map Interval envs))
    = received socket s
      ++ flat_map (fun env => repeat (snapshot dbscan_run env)
                                (count_occ Nat.eq_dec (sockets s) socket)) envs.
Proof.
  induction envs as [| env envs IH]; intros s.
  - symmetry. apply app_nil_r.
  - cbn [map flat_map]. rewrite run_cons. cbn [step].
    rewrite IH, tick_received, tick_sockets, app_assoc. reflexivity.
Qed.

Lemma flat_map_singleton {A B} (f : A -> B) l : flat_map (fun a => [f a]) l = map f l.
Proof. induction l as [| a l IH]; [reflexivity |]. cbn. rewrite IH. reflexivity. Qed.

Lemma flat_map_nil {A B} (l : list A) : flat_map (fun _ => @nil B) l = [].
Proof. induction l as [| a l IH]; [reflexivity | exact IH]. Qed.

(** X14.  A client receives exactly the snapshots of the ticks between
    its connection and its disconnection, each once and in order, and
    nothing from the ticks after it has disconnected. *)
Theorem subscriber_receives_its_ticks dbscan_run (s : server) (socket : nat)
    (during after : list environment) :
  ~ In socket (sockets s) ->
  let connected :=
    run dbscan_run (step dbscan_run s (Connection socket)) (map Interval during) in
  let disconnected :=
    run dbscan_run (step dbscan_run connected (Disconnect socket)) (map Interval after) in
  received socket connected = received socket s ++ map (snapshot dbscan_run) during /\
  received socket disconnected = received socket connected /\
  ~ In socket (sockets disconnected).
Proof.
  intros Hout connected disconnected.
  assert (C : received socket connected
              = received socket s ++ map (snapshot dbscan_run) during).
  { unfold connected. rewrite run_ticks_received. cbn [step sockets log].
    rewrite count_occ_app. apply (count_occ_not_In Nat.eq_dec) in Hout. rewrite Hout.
    cbn [count_occ]. destruct (Nat.eq_dec socket socket) as [_ | NE]; [| destruct (NE eq_refl)].
    cbn [Nat.add repeat]. rewrite flat_map_singleton. reflexivity. }
  assert (N : ~ In socket (sockets (step dbscan_run connected (Disconnect socket)))).
  { cbn [step sockets log]. intros H. apply filter_In in H. destruct H as [_ H].
    rewrite Nat.eqb_refl in H. discriminate H. }
  split; [exact C |]. split.
  - unfold disconnected. rewrite run_ticks_received.
    apply (count_occ_not_In Nat.eq_dec) in N. rewrite N.
    cbn [repeat]. rewrite flat_map_nil. apply app_nil_r.
  - unfold disconnected. destruct (run_ticks dbscan_run after
      (step dbscan_run connected (Disconnect socket))) as [E _].
    rewrite E. exact N.
Qed.

Lemma subscriber_receives_its_ticks_witness :
  ~ In 3%nat (sockets Stored.server0) /\
  received 3%nat
    (run Sample.clusterer (step Sample.clusterer Stored.server0 (Connection 3%nat))
       (map Interval [Sample.env]))
  = received 3%nat Stored.server0 ++ map (snapshot Sample.clusterer) [Sample.env].
Proof.
  assert (H : ~ In 3%nat (sockets Stored.server0)).
  { cbn. intros [C | [C | []]]; discriminate C. }
  split; [exact H |].
  exact (proj1 (subscriber_receives_its_ticks Sample.clusterer Stored.server0 3%nat
                  [Sample.env] [] H)).
Defined.

(** ** The summary of a simulated run *)

(** A simulated reading holds between thirty and eighty percent of the
    capacity that the registry gives its zone. *)
Lemma simulated_bounds dbscan_run r :
  simulated dbscan_run r ->
  In (Zone.zoneId r) (map ZoneConfig.id ZONES) /\
  Zone.capacity r = capacity_of (Zone.zoneId r) /\
  3 * Zone.capacity r <= 10 * Zone.population r <= 8 * Zone.capacity r /\
  0 < Zone.population r.
Proof.
  intros (env & Hr & Hin).
  destruct (snapshot_reading _ _ _ Hin)
    as (i & zone & s & Hz & _ & Es & Ei & _ & Ep & Ec & _).
  apply nth_error_In in Hz.
  assert (Si : Signal.zoneId s = ZoneConfig.id zone) by (rewrite Es; reflexivity).
  assert (Sp : Signal.population s
               = population_of (random env (3 * i + 0)%nat) (ZoneConfig.capacity zone))
    by (rewrite Es; reflexivity).
  assert (Sc : Signal.capacity s = ZoneConfig.capacity zone) by (rewrite Es; reflexivity).
  rewrite Ei, Ep, Ec, Si, Sp, Sc.
  destruct (Hr (3 * i + 0)%nat) as [R0 R1].
  destruct (registry_bounds_facts zone Hz) as (B1 & B2 & _).
  destruct (registry_facts zone Hz) as ([Hc _] & _).
  pose proof (population_of_range zone _ Hz R0 R1) as [_ U]. apply floor_eighty in U.
  pose proof (population_of_mono 0 (random env (3 * i + 0)%nat) (ZoneConfig.capacity zone)
                ltac:(discriminate) R0 ltac:(lia)) as L.
  split; [apply in_map; exact Hz |]. split; [symmetry; exact B2 |]. lia.
Qed.

Lemma Zsum_perm l l' : Permutation l l' -> Zsum l = Zsum l'.
Proof. induction 1; unfold Zsum in *; cbn [fold_right] in *; lia. Qed.

Lemma registry_capacity : Zsum (map capacity_of (map ZoneConfig.id ZONES)) = 18990.
Proof. reflexivity. Qed.

Lemma simulated_sums dbscan_run rows :
  (forall d, In d rows -> simulated dbscan_run d) ->
  let total := sum_population (map Zone.first_brief rows) in
  let capacity := Zsum (map capacity_of (map Zone.zoneId rows)) in
  3 * capacity <= 10 * total <= 8 * capacity /\
  (forall row, In row (map Zone.first_brief rows) -> 0 < Zone.b_population row).
Proof.
  induction rows as [| d rows IH]; intros H.
  - cbn. split; [lia | intros row []].
  - destruct (simulated_bounds dbscan_run d (H d (or_introl eq_refl))) as (_ & Ec & B & P).
    destruct (IH (fun x Hx => H x (or_intror Hx))) as [S A].
    cbv zeta in *. cbn [map Zsum fold_right]. rewrite sum_population_cons.
    cbn [Zone.first_brief Zone.b_population]. fold (Zsum (map capacity_of (map Zone.zoneId rows))).
    rewrite <- Ec. split; [lia |].
    intros row [<- | Hrow]; [exact P | apply A; exact Hrow].
Qed.

Lemma all_active rows :
  (forall row, In row rows -> 0 < Zone.b_population row) ->
  activeZones (summarize rows) = List.length rows.
Proof.
  intros H. cbn [summarize activeZones]. f_equal. apply filter_all.
  intros row Hrow. rewrite active_test. apply Z.ltb_lt. apply H. exact Hrow.
Qed.

Lemma step_whole dbscan_run e s :
  whole (collection s) -> whole (collection (step dbscan_run s e)).
Proof.
  intros W. destruct e as [env | socket | socket | socket env];
    [| exact W | exact W | exact W].
  cbn [step]. destruct (tick_collection_cases dbscan_run env s) as [E | E]; rewrite E;
    [exact W |].
  right. intros z Hz. rewrite map_app. apply in_or_app.
  destruct W as [-> | W]; [right | left; apply W; exact Hz].
  rewrite snapshot_zoneIds. exact Hz.
Qed.

Lemma run_whole dbscan_run events :
  forall s, whole (collection s) -> whole (collection (run dbscan_run s events)).
Proof.
  induction events as [| e events IH]; intros s W; [exact W |].
  rewrite run_cons. apply IH. apply step_whole. exact W.
Qed.

Local Open Scope Q_scope.

(** X15.  However long the server has run on simulated signals from an
    empty collection, with insertions failing or not and clients coming
    and going, [GET /api/summary] succeeds with no overcrowded zone and
    nine zones in total; before the first stored tick nothing is active
    and the total is 0; from then on all nine zones are active and the
    total population is an integer between 5697 and 15192, thirty and
    eighty percent of the capacity of the campus. *)
Theorem summary_of_simulated_run dbscan_run (s : server) (events : list event) :
  collection s = [] -> Forall event_in_range events ->
  let coll := collection (run dbscan_run s events) in
  exists sm,
    api_summary None coll = success sm /\
    overcrowdedZones sm = 0%nat /\ totalZones sm = 9%nat /\
    (coll = [] -> activeZones sm = 0%nat /\ totalPopulation sm == 0) /\
    (coll <> [] ->
     activeZones sm = 9%nat /\
     exists total, totalPopulation sm == inject_Z total /\ (5697 <= total <= 15192)%Z).
Proof.
  intros E He coll.
  assert (R : Forall (simulated dbscan_run) coll).
  { apply run_simulated; [exact He | rewrite E; constructor]. }
  assert (W : whole coll).
  { apply run_whole. left. exact E. }
  rewrite Forall_forall in R.
  set (G := Zone.group_first [] (Zone.sort Zone.descending coll)).
  assert (S : forall d, In d G -> simulated dbscan_run d).
  { intros d Hd. apply R. apply group_first_in in Hd. destruct Hd as [Hd _].
    apply (Permutation_in _ (Permutation_sym (sort_perm Zone.descending coll))).
    exact Hd. }
  exists (summarize (map Zone.first_brief G)).
  split; [reflexivity |].
  split; [apply (simulated_none_overcrowded dbscan_run); exact S |].
  split; [reflexivity |]. split.
  - intros C. unfold G. rewrite C. split; reflexivity.
  - intros C. destruct W as [W | W]; [destruct (C W) |].
    assert (P : Permutation (map Zone.zoneId G) (map ZoneConfig.id ZONES)).
    { apply NoDup_Permutation; [apply group_first_nodup | apply registry_ids_distinct |].
      intros z. split.
      - intros Hz. apply in_map_iff in Hz. destruct Hz as (d & <- & Hd).
        apply (simulated_bounds dbscan_run d (S d Hd)).
      - intros Hz. apply group_first_zones; [| intros []].
        apply W in Hz. apply in_map_iff in Hz. destruct Hz as (d & <- & Hd).
        apply in_map. apply (Permutation_in _ (sort_perm Zone.descending coll)). exact Hd. }
    destruct (simulated_sums dbscan_run G S) as [B A]. cbv zeta in B.
    rewrite (Zsum_perm _ _ (Permutation_map capacity_of P)), registry_capacity in B.
    split.
    + rewrite (all_active _ A), length_map, <- (length_map Zone.zoneId G).
      rewrite (Permutation_length P). reflexivity.
    + exists (sum_population (map Zone.first_brief G)). split; [| lia].
      cbn [summarize totalPopulation]. unfold reduce_population.
      apply (reduce_exact (map Zone.first_brief G) 0%Q 0%Z); [reflexivity | lia | |].
      * intros row Hrow. apply Z.lt_le_incl. apply A. exact Hrow.
      * apply (Z.le_trans _ 15192); [lia | discriminate].
Qed.

Lemma summary_of_simulated_run_witness :
  (collection Next.empty = []
   /\ Forall event_in_range [Interval Sample.env]) /\
  exists sm,
    api_summary None
      (collection (run Sample.clusterer
                     Next.empty
                     [Interval Sample.env])) = success sm /\
    overcrowdedZones sm = 0%nat.
Proof.
  assert (H : Forall event_in_range [Interval Sample.env]).
  { constructor; [exact sample_env_range | constructor]. }
  split; [split; [reflexivity | exact H] |].
  destruct (summary_of_simulated_run Sample.clusterer
              Next.empty
              [Interval Sample.env] eq_refl H) as (sm & A & B & _).
  exists sm. split; assumption.
Defined.

(** ** The dashboard *)

Local Open Scope Z_scope.

Lemma tl_skipn {A} n (l : list A) : tl (skipn n l) = skipn (S n) l.
Proof.
  revert l. induction n as [| n IH]; intros l.
  - destruct l; reflexivity.
  - destruct l as [| a l]; [reflexivity |]. cbn [skipn]. rewrite IH. reflexivity.
Qed.

Lemma push_lastn l (x : App.Point.t) : App.push (lastn 12 l) x = lastn 12 (l ++ [x]).
Proof.
  unfold App.push, lastn. rewrite length_skipn, length_app. cbn [List.length].
  destruct (Nat.leb_spec 12 (List.length l - (List.length l - 12))) as [G | L].
  - rewrite tl_skipn.
    replace (List.length l + 1 - 12)%nat with (S (List.length l - 12)) by lia.
    rewrite skipn_app.
    replace (S (List.length l - 12) - List.length l)%nat with 0%nat by lia. reflexivity.
  - replace (List.length l - 12)%nat with 0%nat by lia.
    replace (List.length l + 1 - 12)%nat with 0%nat by lia. reflexivity.
Qed.

Lemma lastn_length {A} n (l : list A) : (List.length (lastn n l) <= n)%nat.
Proof. unfold lastn. rewrite length_skipn. lia. Qed.

(** X16.  Whatever updates the socket has delivered since the page was
    loaded, the trend holds the points of the last twelve of them, in
    order, and never more than twelve; the cards and the last point of
    the trend are those of the latest update. *)
Theorem trend_window (updates : list (string * list Zone.t)) :
  let st := fold_left receive updates App.initial in
  App.trendData st = lastn 12 (updates_points updates) /\
  List.length (App.trendData st) = Nat.min 12 (List.length updates) /\
  (forall earlier time data,
     updates = earlier ++ [(time, data)] ->
     App.zones st = map App.of_reading data /\
     exists points,
       App.trendData st
       = points ++ [{| App.Point.time := time;
                       App.Point.population := App.totalPop data |}]).
Proof.
  intros st.
  assert (E : App.trendData st = lastn 12 (updates_points updates)).
  { unfold st. induction updates as [| u updates IH] using rev_ind; [reflexivity |].
    rewrite fold_left_app. cbn [fold_left]. unfold receive at 1.
    cbn [App.zoneUpdate App.trendData]. rewrite IH.
    unfold updates_points. rewrite map_app. apply push_lastn. }
  split; [exact E |]. split.
  - rewrite E. unfold lastn, updates_points. rewrite length_skipn, length_map. lia.
  - intros earlier time data ->. split.
    + unfold st. rewrite fold_left_app. reflexivity.
    + rewrite E. unfold updates_points. rewrite map_app. cbn [map fst snd].
      rewrite <- push_lastn. unfold App.push. eexists. reflexivity.
Qed.

Local Open Scope Q_scope.

Lemma total_of_nonneg f data :
  (forall z, In z data -> (0 <= f z)%Z) -> (0 <= total_of f data)%Z.
Proof.
  induction data as [| z data IH]; intros H; [cbn; lia |].
  cbn [total_of fold_right]. fold (total_of f data).
  assert (0 <= f z)%Z by (apply H; left; reflexivity).
  assert (0 <= total_of f data)%Z; [| lia].
  apply IH. intros y Hy. apply H. right. exact Hy.
Qed.

(** Below 2^53 a sum of non-negative integers is exact. *)
Lemma fold_fadd_exact (f : Zone.t -> Z) data :
  forall (sum : Q) (n : Z),
    sum == inject_Z n -> (0 <= n)%Z ->
    (forall z, In z data -> (0 <= f z)%Z) ->
    (n + total_of f data <= 2 ^ 53)%Z ->
    fold_left (fun sum z => fadd sum (inject_Z (f z))) data sum
    == inject_Z (n + total_of f data).
Proof.
  induction data as [| z data IH]; intros sum n E Hn Hp Hs.
  - cbn. rewrite Z.add_0_r. exact E.
  - cbn [total_of fold_right] in *. fold (total_of f data) in *. cbn [fold_left].
    assert (P : (0 <= f z)%Z) by (apply Hp; left; reflexivity).
    assert (R : (0 <= total_of f data)%Z).
    { apply total_of_nonneg. intros y Hy. apply Hp. right. exact Hy. }
    rewrite Z.add_assoc. apply IH.
    + unfold fadd.
      assert (S : sum + inject_Z (f z) == inject_Z (n + f z)).
      { rewrite inject_Z_plus, E. reflexivity. }
      rewrite (round64_comp _ _ S). apply round64_integer. lia.
    + lia.
    + intros x Hx. apply Hp. right. exact Hx.
    + lia.
Qed.

(** X17.  From an update with at least one reading the dashboard shows
    the sum of the populations as total, the number of readings with a
    population above 0 as active zones and the integer part of the mean
    density as average density, and it leaves the flow trend of the
    summary as it was; populations and densities are non-negative
    integers with sums below 2^53. *)
Theorem update_summary (data : list Zone.t) (time : string) (st : App.state) :
  data <> [] ->
  (forall z, In z data -> (0 <= Zone.population z)%Z /\ (0 <= Zone.density z)%Z) ->
  (total_of Zone.population data < 2 ^ 53)%Z -> (total_of Zone.density data < 2 ^ 53)%Z ->
  (Z.of_nat (List.length data) <= 2 ^ 53)%Z ->
  let sm := App.summary (App.zoneUpdate data time st) in
  App.Summary.totalPopulation sm == inject_Z (total_of Zone.population data) /\
  App.Summary.activeZones sm
  = List.length (filter (fun z => (0 <? Zone.population z)%Z) data) /\
  App.Summary.avgDensity sm
  = Some (total_of Zone.density data / Z.of_nat (List.length data))%Z /\
  App.Summary.flowTrend sm = App.Summary.flowTrend (App.summary st).
Proof.
  intros NE Hp SP SD Len sm. unfold sm.
  cbn [App.zoneUpdate App.summary App.Summary.totalPopulation App.Summary.activeZones
       App.Summary.avgDensity App.Summary.flowTrend].
  split; [| split; [| split; [| reflexivity]]].
  - unfold App.totalPop.
    apply (fold_fadd_exact Zone.population data 0 0%Z); [reflexivity | lia | | lia].
    intros z Hz. apply (Hp z Hz).
  - f_equal. apply filter_ext. intros z. apply active_test.
  - destruct data as [| z0 data']; [destruct (NE eq_refl) |].
    unfold App.avgDensity. f_equal.
    set (data := z0 :: data') in *.
    assert (E : fold_left (fun sum z => fadd sum (inject_Z (Zone.density z))) data 0
                == inject_Z (total_of Zone.density data)).
    { apply (fold_fadd_exact Zone.density data 0 0%Z); [reflexivity | lia | | lia].
      intros z Hz. apply (Hp z Hz). }
    assert (N : (0 < Z.of_nat (List.length data))%Z) by (cbn [data List.length]; lia).
    rewrite <- (floor_fdiv_exact (total_of Zone.density data) (Z.of_nat (List.length data))).
    + apply Qfloor_comp. apply round64_comp. rewrite E. reflexivity.
    + split; [| exact SD]. apply total_of_nonneg. intros z Hz. apply (Hp z Hz).
    + lia.
Qed.

Lemma stored_readings_nonneg :
  forall z, In z Stored.readings ->
            (0 <= Zone.population z)%Z /\ (0 <= Zone.density z)%Z.
Proof.
  intros z Hz.
  repeat (destruct Hz as [<- | Hz]; [split; vm_compute; discriminate |]).
  destruct Hz.
Defined.

Lemma update_summary_witness :
  (Stored.readings <> [] /\
   (forall z, In z Stored.readings ->
              (0 <= Zone.population z)%Z /\ (0 <= Zone.density z)%Z) /\
   (total_of Zone.population Stored.readings < 2 ^ 53)%Z /\
   (total_of Zone.density Stored.readings < 2 ^ 53)%Z /\
   (Z.of_nat (List.length Stored.readings) <= 2 ^ 53)%Z) /\
  App.Summary.activeZones
    (App.summary (App.zoneUpdate Stored.readings "10:00 AM" App.initial))
  = List.length (filter (fun z => (0 <? Zone.population z)%Z) Stored.readings).
Proof.
  assert (H1 : Stored.readings <> []) by discriminate.
  assert (H3 : (total_of Zone.population Stored.readings < 2 ^ 53)%Z)
    by (vm_compute; reflexivity).
  assert (H4 : (total_of Zone.density Stored.readings < 2 ^ 53)%Z)
    by (vm_compute; reflexivity).
  assert (H5 : (Z.of_nat (List.length Stored.readings) <= 2 ^ 53)%Z)
    by (vm_compute; discriminate).
  split; [repeat split; try assumption; apply stored_readings_nonneg; assumption |].
  exact (proj1 (proj2 (update_summary Stored.readings "10:00 AM" App.initial
                         H1 stored_readings_nonneg H3 H4 H5))).
Defined.

(** *** The forecast *)

Lemma forecast_point_run random lastPop i k :
  App.forecast_point random lastPop i k
  = ({| App.Point.time := (Number.decimal i ++ "h later")%string;
        App.Point.population :=
          Qmax 8000 (Qmin 12000 (fadd lastPop (fmul (fsub (random k) (lit 0.5)) 1000))) |},
     (1 + k)%nat).
Proof. reflexivity. Qed.

Lemma half_rounded : round64 (1 # 2) == 1 # 2 /\ round64 (- (1 # 2)) == - (1 # 2).
Proof. split; vm_compute; reflexivity. Qed.

Lemma five_hundred_rounded : round64 500 == 500 /\ round64 (- (500)) == - (500).
Proof. split; vm_compute; reflexivity. Qed.

(** The variance of a forecast is at most 500 either way. *)
Lemma variance_range r :
  0 <= r -> r < 1 ->
  - (500) <= fmul (fsub r (lit 0.5)) 1000 /\ fmul (fsub r (lit 0.5)) 1000 <= 500.
Proof.
  intros R0 R1. destruct half_rounded as [H1 H2]. destruct five_hundred_rounded as [F1 F2].
  assert (D : - (1 # 2) <= fsub r (lit 0.5) /\ fsub r (lit 0.5) <= 1 # 2).
  { unfold fsub. rewrite <- H1 at 2. rewrite <- H2 at 1.
    split; apply round64_monotone; rewrite lit_half; lra. }
  destruct D as [D1 D2]. unfold fmul. rewrite <- F1 at 2. rewrite <- F2 at 1.
  split; apply round64_monotone; lra.
Qed.

Lemma eight_thousand_rounded : round64 8000 == 8000 /\ round64 12000 == 12000.
Proof. split; vm_compute; reflexivity. Qed.

Lemma forecast_run (random : nat -> Q) (lastPop : Q) (k : nat) :
  (forall n, 0 <= random n /\ random n < 1) ->
  let result := App.forecast random lastPop k in
  snd result = (6 + k)%nat /\
  map App.Point.time (fst result)
  = ["1h later"; "2h later"; "3h later"; "4h later"; "5h later"; "6h later"]%string /\
  (forall point, In point (fst result) ->
     8000 <= App.Point.population point /\ App.Point.population point <= 12000) /\
  (lastPop <= 7500 ->
   forall point, In point (fst result) -> App.Point.population point == 8000) /\
  (12500 <= lastPop ->
   forall point, In point (fst result) -> App.Point.population point == 12000).
Proof.
  intros Hr result.
  destruct (mapM_fixed (App.forecast_point random lastPop)
              (fun i k => fst (App.forecast_point random lastPop i k)) 1
              (fun i k => eq_refl) [1; 2; 3; 4; 5; 6]%Z k) as (Hk & Hl & Hn).
  fold (App.forecast random lastPop) in Hk, Hl, Hn. fold result in Hk, Hl, Hn.
  assert (P : forall point, In point (fst result) ->
                exists i n, App.Point.time point = (Number.decimal i ++ "h later")%string /\
                  App.Point.population point
                  = Qmax 8000 (Qmin 12000 (fadd lastPop (fmul (fsub (random n) (lit 0.5)) 1000)))).
  { intros point Hin. apply In_nth_error in Hin. destruct Hin as [j Hj].
    assert (Lt : (j < 6)%nat).
    { change 6%nat with (List.length [1; 2; 3; 4; 5; 6]%Z). rewrite <- Hl.
      apply nth_error_Some. rewrite Hj. discriminate. }
    destruct (nth_error [1; 2; 3; 4; 5; 6]%Z j) as [i |] eqn:E.
    - rewrite (Hn j i E) in Hj. injection Hj as <-.
      exists i, (1 * j + k)%nat. split; reflexivity.
    - apply nth_error_None in E. cbn in E. lia. }
  split; [exact Hk |]. split; [| split; [| split]].
  - apply nth_error_ext. intros j. rewrite nth_error_map.
    destruct (nth_error [1; 2; 3; 4; 5; 6]%Z j) as [i |] eqn:E.
    + rewrite (Hn j i E). cbn [option_map fst App.forecast_point].
      do 6 (destruct j as [| j]; [cbn in E; injection E as <-; reflexivity |]).
      destruct j; discriminate E.
    + assert (N : nth_error (fst result) j = None).
      { apply nth_error_None. rewrite Hl. apply nth_error_None. exact E. }
      rewrite N. apply nth_error_None in E. cbn in E. cbn [option_map].
      symmetry. apply nth_error_None. cbn. exact E.
  - intros point Hin. destruct (P point Hin) as (i & n & _ & ->).
    split; [apply Q.le_max_l |]. apply Q.max_lub; [discriminate | apply Q.le_min_l].
  - intros Low point Hin. destruct (P point Hin) as (i & n & _ & ->).
    destruct (Hr n) as [R0 R1]. destruct (variance_range _ R0 R1) as [_ V].
    destruct eight_thousand_rounded as [E8 _].
    assert (S : fadd lastPop (fmul (fsub (random n) (lit 0.5)) 1000) <= 8000).
    { unfold fadd. rewrite <- E8. apply round64_monotone. lra. }
    apply Qle_antisym; [| apply Q.le_max_l].
    apply Q.max_lub; [apply Qle_refl |].
    apply (Qle_trans _ _ _ (Q.le_min_r _ _) S).
  - intros High point Hin. destruct (P point Hin) as (i & n & _ & ->).
    destruct (Hr n) as [R0 R1]. destruct (variance_range _ R0 R1) as [V _].
    destruct eight_thousand_rounded as [_ E12].
    assert (S : 12000 <= fadd lastPop (fmul (fsub (random n) (lit 0.5)) 1000)).
    { unfold fadd. rewrite <- E12. apply round64_monotone. lra. }
    assert (M : Qmin 12000 (fadd lastPop (fmul (fsub (random n) (lit 0.5)) 1000)) == 12000).
    { apply Q.min_l. exact S. }
    rewrite M. apply Q.max_r. discriminate.
Qed.

(** X18.  The forecast effect does nothing while the trend is empty.
    Otherwise it draws six times and replaces the forecast by six points
    labelled 1h later to 6h later, each between 8000 and 12000 whatever
    the last total of the trend is: all six are exactly 8000 when that
    total is at most 7500 and exactly 12000 when it is at least 12500.
    Cards, trend and summary are left as they were. *)
Theorem forecast_clamped (random : nat -> Q) (st : App.state) (k : nat) :
  (forall n, 0 <= random n /\ random n < 1) ->
  let result := App.forecast_effect random st k in
  (App.trendData st = [] -> result = (st, k)) /\
  (forall earlier lastPoint,
     App.trendData st = earlier ++ [lastPoint] ->
     let lastPop := App.Point.population lastPoint in
     let st' := fst result in
     snd result = (6 + k)%nat /\
     App.zones st' = App.zones st /\ App.trendData st' = App.trendData st /\
     App.summary st' = App.summary st /\
     map App.Point.time (App.forecastData st')
     = ["1h later"; "2h later"; "3h later"; "4h later"; "5h later"; "6h later"]%string /\
     (forall point, In point (App.forecastData st') ->
        8000 <= App.Point.population point /\ App.Point.population point <= 12000) /\
     (lastPop <= 7500 ->
      forall point, In point (App.forecastData st') -> App.Point.population point == 8000) /\
     (12500 <= lastPop ->
      forall point, In point (App.forecastData st') ->
                    App.Point.population point == 12000)).
Proof.
  intros Hr result. unfold result, App.forecast_effect. split.
  - intros ->. reflexivity.
  - intros earlier lastPoint E. rewrite E, length_app. cbn [List.length].
    destruct (Nat.ltb_spec 0 (List.length earlier + 1)) as [_ | C]; [| lia].
    rewrite nth_error_app2 by lia.
    replace (List.length earlier + 1 - 1 - List.length earlier)%nat with 0%nat by lia.
    cbn [nth_error]. unfold bind, ret.
    destruct (forecast_run random (App.Point.population lastPoint) k Hr)
      as (Hk & Ht & Hc & Hl & Hh).
    destruct (App.forecast random (App.Point.population lastPoint) k) as [points k'].
    cbn [fst snd] in *. cbn [App.zones App.trendData App.summary App.forecastData].
    rewrite <- E. repeat split; try assumption.
    + apply (Hc point H).
    + apply (Hc point H).
Qed.

Lemma forecast_clamped_witness :
  (forall n, 0 <= Sample.draws n /\ Sample.draws n < 1) /\
  (App.trendData App.initial = [] ->
   App.forecast_effect Sample.draws App.initial 0%nat = (App.initial, 0%nat)).
Proof.
  split; [exact sample_env_range |].
  exact (proj1 (forecast_clamped Sample.draws App.initial 0%nat sample_env_range)).
Defined.

(** *** The flow trend *)

Lemma flow_bounds :
  round64 (inject_Z (2 ^ 53) * 100) < 10 ^ 21 /\
  round64 (- pow2 (-53)) == - pow2 (-53) /\
  round64 (- pow2 (-53) * 100) < 0.
Proof. repeat split; vm_compute; reflexivity. Qed.

(** The percentage of change between two integer totals. *)
Lemma change_range (a b : Z) :
  (0 < a <= 2 ^ 53)%Z -> (0 <= b <= 2 ^ 53)%Z ->
  let x := fmul (fdiv (fsub (inject_Z b) (inject_Z a)) (inject_Z a)) 100 in
  - (10 ^ 21) < x /\ x < 10 ^ 21 /\
  ((a <= b)%Z -> 0 <= x) /\ ((b < a)%Z -> x < 0) /\ (a = b -> x == 0).
Proof.
  intros [A0 A1] [B0 B1] x.
  assert (PA : 1 <= inject_Z a).
  { change 1 with (inject_Z 1). rewrite <- Zle_Qle. lia. }
  assert (D : fsub (inject_Z b) (inject_Z a) == inject_Z (b - a)).
  { unfold fsub.
    assert (E : inject_Z b - inject_Z a == inject_Z (b - a)).
    { unfold Z.sub. rewrite inject_Z_plus, inject_Z_opp. reflexivity. }
    rewrite (round64_comp _ _ E). apply round64_integer_signed. lia. }
  assert (Q : fdiv (fsub (inject_Z b) (inject_Z a)) (inject_Z a)
              == round64 (inject_Z (b - a) / inject_Z a)).
  { unfold fdiv. apply round64_comp. rewrite D. reflexivity. }
  assert (X : x == round64 (round64 (inject_Z (b - a) / inject_Z a) * 100)).
  { unfold x, fmul. apply round64_comp. rewrite Q. reflexivity. }
  set (d := inject_Z (b - a)) in *.
  assert (DL : - inject_Z (2 ^ 53) <= d).
  { unfold d. rewrite <- inject_Z_opp, <- Zle_Qle. lia. }
  assert (DU : d <= inject_Z (2 ^ 53)).
  { unfold d. rewrite <- Zle_Qle. lia. }
  assert (P53 : 0 < inject_Z (2 ^ 53)) by reflexivity.
  assert (I : 0 < / inject_Z a) by (apply Qinv_lt_0_compat; lra).
  assert (I1 : / inject_Z a <= 1).
  { apply Qle_shift_inv_r; lra. }
  set (t := / inject_Z a) in *.
  assert (Rq : round64 (inject_Z (2 ^ 53)) == inject_Z (2 ^ 53)) by (apply round64_integer; lia).
  assert (Rn : round64 (- inject_Z (2 ^ 53)) == - inject_Z (2 ^ 53)).
  { rewrite round64_opp, Rq. reflexivity. }
  assert (QL : - inject_Z (2 ^ 53) <= round64 (d / inject_Z a)).
  { rewrite <- Rn. apply round64_monotone. unfold Qdiv. fold t. nra. }
  assert (QU : round64 (d / inject_Z a) <= inject_Z (2 ^ 53)).
  { rewrite <- Rq. apply round64_monotone. unfold Qdiv. fold t. nra. }
  destruct flow_bounds as (F1 & F2 & F3).
  assert (XU : x < 10 ^ 21).
  { rewrite X. apply (Qle_lt_trans _ (round64 (inject_Z (2 ^ 53) * 100))); [| exact F1].
    apply round64_monotone. lra. }
  assert (XL : - (10 ^ 21) < x).
  { rewrite X. apply (Qlt_le_trans _ (round64 (- (inject_Z (2 ^ 53) * 100)))).
    - rewrite round64_opp. lra.
    - apply round64_monotone. lra. }
  split; [exact XL |]. split; [exact XU |]. split; [| split].
  - intros Le. rewrite X. apply round64_nonneg.
    assert (0 <= d) by (unfold d; apply inject_Z_nonneg; lia).
    assert (0 <= round64 (d / inject_Z a)).
    { apply round64_nonneg. unfold Qdiv. fold t. nra. }
    lra.
  - intros Lt. rewrite X.
    assert (Dn : d <= - (1)).
    { unfold d. change (- (1)) with (inject_Z (-1)). rewrite <- Zle_Qle. lia. }
    assert (T : pow2 (-53) <= t).
    { unfold t. apply Qle_shift_inv_l; [lra |].
      assert (E : pow2 (-53) == 1 # 9007199254740992) by reflexivity.
      assert (A : inject_Z a <= 9007199254740992).
      { change 9007199254740992 with (inject_Z (2 ^ 53)). rewrite <- Zle_Qle. lia. }
      rewrite E. lra. }
    assert (Qn : round64 (d / inject_Z a) <= - pow2 (-53)).
    { rewrite <- F2. apply round64_monotone. unfold Qdiv. fold t.
      pose proof (pow2_pos (-53)). nra. }
    apply (Qle_lt_trans _ (round64 (- pow2 (-53) * 100))); [| exact F3].
    apply round64_monotone. lra.
  - intros E. rewrite X. unfold d. rewrite E, Z.sub_diag.
    assert (Z0 : inject_Z 0 / inject_Z a == 0) by (unfold Qdiv; change (inject_Z 0) with 0; ring).
    assert (Z1 : round64 (inject_Z 0 / inject_Z a) * 100 == 0).
    { rewrite (round64_zero _ Z0). ring. }
    apply round64_zero. exact Z1.
Qed.

Lemma nth_error_last {A} (l : list A) (x y : A) :
  nth_error (l ++ [x; y]) (List.length (l ++ [x; y]) - 1) = Some y /\
  nth_error (l ++ [x; y]) (List.length (l ++ [x; y]) - 2) = Some x.
Proof.
  rewrite length_app. cbn [List.length]. split.
  - rewrite nth_error_app2 by lia.
    replace (List.length l + 2 - 1 - List.length l)%nat with 1%nat by lia. reflexivity.
  - rewrite nth_error_app2 by lia.
    replace (List.length l + 2 - 2 - List.length l)%nat with 0%nat by lia. reflexivity.
Qed.

Lemma toFixed_zero x f :
  x == 0 -> (0 < f <= 100)%nat ->
  Number.toFixed x f = Some ("0." ++ Number.zeros f)%string.
Proof.
  intros E F.
  destruct (toFixed_nonneg x f) as [T _]; [rewrite E; apply Qle_refl | rewrite E; reflexivity | exact F |].
  cbv zeta in T. rewrite T.
  assert (N : Qfloor (x * 10 ^ Z.of_nat f + (1 # 2)) = 0%Z).
  { assert (Y : x * 10 ^ Z.of_nat f + (1 # 2) == 1 # 2) by (rewrite E; ring).
    rewrite (Qfloor_comp _ _ Y). reflexivity. }
  rewrite N. rewrite Z.div_0_l, Z.mod_0_l by (apply Z.pow_nonzero; lia).
  rewrite fraction_zero. reflexivity.
Qed.

(** The digits that [toFixed(1)] prints for a number [y] below 10^21 in
    magnitude, [n] being the integer nearest to ten times that
    magnitude. *)
Lemma tenths_shown (n : Z) :
  (0 <= n)%Z ->
  let whole := Number.decimal (n / 10 ^ Z.of_nat 1) in
  let tenth := fraction 1 (n mod 10 ^ Z.of_nat 1) in
  numeral whole /\ (whole = "0"%string \/ leading whole <> "0"%char) /\
  numeral tenth /\ String.length tenth = 1%nat /\
  (value whole * 10 + value tenth = n)%Z.
Proof.
  intros N whole tenth.
  assert (D : (0 <= n / 10 ^ Z.of_nat 1)%Z) by (apply Z.div_pos; [exact N | reflexivity]).
  split; [apply numeral_decimal; exact D |].
  split; [apply decimal_no_leading_zero; exact D |].
  split; [apply numeral_fraction |]. split; [apply fraction_length |].
  exact (digits_value n 1 N).
Qed.

Lemma nearest_tenth (y : Q) :
  let n := Qfloor (y * 10 ^ Z.of_nat 1 + (1 # 2)) in
  inject_Z n <= y * 10 + (1 # 2) /\ y * 10 + (1 # 2) < inject_Z n + 1.
Proof.
  intros n. change (10 ^ Z.of_nat 1) with 10 in n.
  pose proof (Qfloor_le (y * 10 + (1 # 2))) as L.
  pose proof (Qlt_floor (y * 10 + (1 # 2))) as U.
  fold n in L, U. rewrite inject_Z_plus in U. change (inject_Z 1) with 1 in U.
  split; assumption.
Qed.

(** X19.  With fewer than two points in the trend the flow trend reads
    0.0.  Otherwise, for integer totals up to 2^53: when the previous
    total is 0 it reads NaN if the latest is 0 too and Infinity if not;
    when the previous total is positive it reads 0.0 if the total did
    not change, and in general a minus sign, exactly when the total went
    down, followed by a numeral with no superfluous leading zero, a
    point and one digit: in tenths they denote the integer nearest to
    ten times the magnitude of the binary64 percentage of change, the
    larger one of two. *)
Theorem flow_trend (trendData : list App.Point.t) :
  ((List.length trendData < 2)%nat ->
   App.calculateFlowTrend trendData = Some "0.0"%string) /\
  (forall earlier previous latest (a b : Z),
     trendData = earlier ++ [previous; latest] ->
     App.Point.population previous == inject_Z a ->
     App.Point.population latest == inject_Z b ->
     (0 <= a <= 2 ^ 53)%Z -> (0 <= b <= 2 ^ 53)%Z ->
     (a = 0%Z -> b = 0%Z -> App.calculateFlowTrend trendData = Some "NaN"%string) /\
     (a = 0%Z -> (0 < b)%Z ->
      App.calculateFlowTrend trendData = Some "Infinity"%string) /\
     ((0 < a)%Z -> a = b -> App.calculateFlowTrend trendData = Some "0.0"%string) /\
     ((0 < a)%Z ->
      let change := fmul (fdiv (fsub (inject_Z b) (inject_Z a)) (inject_Z a)) 100 in
      exists whole tenth : string,
        App.calculateFlowTrend trendData
        = Some ((if (b <? a)%Z then "-" else "") ++ whole ++ "." ++ tenth)%string /\
        numeral whole /\ (whole = "0"%string \/ leading whole <> "0"%char) /\
        numeral tenth /\ String.length tenth = 1%nat /\
        let shown := (value whole * 10 + value tenth)%Z in
        inject_Z shown <= Qabs change * 10 + (1 # 2) /\
        Qabs change * 10 + (1 # 2) < inject_Z shown + 1 /\
        ((b < a)%Z <-> change < 0))).
Proof.
  split.
  - intros H. unfold App.calculateFlowTrend.
    destruct (Nat.ltb_spec (List.length trendData) 2); [reflexivity | lia].
  - intros earlier previous latest a b -> Ep El Ha Hb.
    unfold App.calculateFlowTrend.
    destruct (nth_error_last earlier previous latest) as [N1 N2]. rewrite N1, N2.
    destruct (Nat.ltb_spec (List.length (earlier ++ [previous; latest])) 2) as [C | _];
      [rewrite length_app in C; cbn in C; lia |].
    cbv zeta.
    set (p := App.Point.population previous) in *.
    set (l := App.Point.population latest) in *.
    assert (D : fsub l p == fsub (inject_Z b) (inject_Z a)).
    { unfold fsub. apply round64_comp. rewrite Ep, El. reflexivity. }
    assert (ZeroP : a = 0%Z -> Qeq_bool p 0 = true).
    { intros ->. apply Qeq_bool_iff. exact Ep. }
    assert (Dz : a = 0%Z -> fsub l p == inject_Z b).
    { intros ->. rewrite D. unfold fsub.
      assert (E : inject_Z b - inject_Z 0 == inject_Z b) by (change (inject_Z 0) with 0; ring).
      rewrite (round64_comp _ _ E). apply round64_integer. lia. }
    set (x := fmul (fdiv (fsub (inject_Z b) (inject_Z a)) (inject_Z a)) 100).
    assert (Pos : (0 < a)%Z ->
                  App.times (App.divide (fsub l p) p) 100
                  = App.finite (fmul (fdiv (fsub l p) p) 100) /\
                  fmul (fdiv (fsub l p) p) 100 == x).
    { intros A. split.
      - unfold App.divide.
        assert (NZ : Qeq_bool p 0 = false).
        { destruct (Qeq_bool p 0) eqn:C; [| reflexivity].
          apply Qeq_bool_iff in C. rewrite Ep in C.
          change 0 with (inject_Z 0) in C. apply (proj1 (inject_Z_injective _ _)) in C. lia. }
        rewrite NZ. reflexivity.
      - unfold x, fmul, fdiv. apply round64_comp.
        assert (E : round64 (fsub l p / p)
                    == round64 (fsub (inject_Z b) (inject_Z a) / inject_Z a)).
        { apply round64_comp. rewrite D, Ep. reflexivity. }
        rewrite E. reflexivity. }
    split; [| split; [| split]].
    + intros A B. unfold App.divide. rewrite (ZeroP A).
      assert (E : fsub l p == 0) by (rewrite (Dz A), B; reflexivity).
      rewrite (Qcompare_comp _ _ E 0 0 (Qeq_refl 0)). reflexivity.
    + intros A B. unfold App.divide. rewrite (ZeroP A).
      assert (G : (fsub l p ?= 0) = Gt).
      { rewrite (Qcompare_comp _ _ (Dz A) 0 0 (Qeq_refl 0)).
        apply Qgt_alt. change 0 with (inject_Z 0). rewrite <- Zlt_Qlt. exact B. }
      rewrite G. reflexivity.
    + intros A E. destruct (Pos A) as [T X]. rewrite T. cbn [App.toFixed].
      destruct (change_range a b ltac:(lia) Hb) as (_ & _ & _ & _ & Z). fold x in Z.
      rewrite (toFixed_zero _ 1); [reflexivity | rewrite X; apply Z; exact E | lia].
    + intros A. destruct (Pos A) as [T X]. rewrite T. cbn [App.toFixed].
      destruct (change_range a b ltac:(lia) Hb) as (XL & XU & P & N & _). fold x in XL, XU, P, N.
      set (y := fmul (fdiv (fsub l p) p) 100) in *.
      assert (Sign : (b < a)%Z <-> x < 0).
      { split; [exact N |]. intros Nx.
        destruct (Z_lt_le_dec b a) as [Lt | Ge]; [exact Lt |].
        specialize (P Ge). lra. }
      destruct (Z.ltb_spec b a) as [Lt | Ge].
      * assert (Ny : y < 0) by (rewrite X; apply N; exact Lt).
        rewrite (toFixed_negative y 1 Ny).
        destruct (toFixed_nonneg (- y) 1) as [E N0]; [lra | rewrite X; lra | lia |].
        cbv zeta in E, N0. rewrite E.
        assert (M : Qabs x == - y).
        { rewrite <- X. apply Qabs_neg. lra. }
        pose proof (nearest_tenth (- y)) as B. cbv zeta in B.
        revert N0 B. generalize (Qfloor (- y * 10 ^ Z.of_nat 1 + (1 # 2))). intros n N0 B.
        destruct (tenths_shown n N0) as (W1 & W2 & W3 & W4 & W5). cbv zeta in *.
        exists (Number.decimal (n / 10 ^ Z.of_nat 1)), (fraction 1 (n mod 10 ^ Z.of_nat 1)).
        split; [reflexivity |]. split; [exact W1 |]. split; [exact W2 |].
        split; [exact W3 |]. split; [exact W4 |]. rewrite W5.
        split; [rewrite M; apply B |]. split; [rewrite M; apply B | exact Sign].
      * assert (Py : 0 <= y) by (rewrite X; apply P; exact Ge).
        destruct (toFixed_nonneg y 1) as [E N0]; [exact Py | rewrite X; exact XU | lia |].
        cbv zeta in E, N0. rewrite E.
        assert (M : Qabs x == y).
        { rewrite <- X. apply Qabs_pos. exact Py. }
        pose proof (nearest_tenth y) as B. cbv zeta in B.
        revert N0 B. generalize (Qfloor (y * 10 ^ Z.of_nat 1 + (1 # 2))). intros n N0 B.
        destruct (tenths_shown n N0) as (W1 & W2 & W3 & W4 & W5). cbv zeta in *.
        exists (Number.decimal (n / 10 ^ Z.of_nat 1)), (fraction 1 (n mod 10 ^ Z.of_nat 1)).
        split; [reflexivity |]. split; [exact W1 |]. split; [exact W2 |].
        split; [exact W3 |]. split; [exact W4 |]. rewrite W5.
        split; [rewrite M; apply B |]. split; [rewrite M; apply B | exact Sign].
Qed.

(** A trend whose total went down from 9000 to 8100. *)
Lemma flow_trend_witness :
  ((0 <= 9000 <= 2 ^ 53)%Z /\ (0 <= 8100 <= 2 ^ 53)%Z /\ (0 < 9000)%Z) /\
  exists whole tenth : string,
    App.calculateFlowTrend
      [{| App.Point.time := "10:00 AM"; App.Point.population := 9000 |};
       {| App.Point.time := "10:05 AM"; App.Point.population := 8100 |}]
    = Some ("-" ++ whole ++ "." ++ tenth)%string /\
    numeral whole /\ numeral tenth /\ String.length tenth = 1%nat.
Proof.
  assert (Ha : (0 <= 9000 <= 2 ^ 53)%Z) by lia.
  assert (Hb : (0 <= 8100 <= 2 ^ 53)%Z) by lia.
  assert (Hp : (0 < 9000)%Z) by lia.
  split; [split; [exact Ha | split; [exact Hb | exact Hp]] |].
  destruct (flow_trend
              [{| App.Point.time := "10:00 AM"; App.Point.population := 9000 |};
               {| App.Point.time := "10:05 AM"; App.Point.population := 8100 |}])
    as [_ F].
  destruct (F [] _ _ 9000%Z 8100%Z eq_refl (Qeq_refl _) (Qeq_refl _) Ha Hb)
    as (_ & _ & _ & P).
  destruct (P Hp) as (whole & tenth & E & W1 & _ & W3 & W4 & _).
  exists whole, tenth. split; [exact E |]. split; [exact W1 |]. split; [exact W3 | exact W4].
Defined.

(** *** Fetching and receiving *)

Local Open Scope Z_scope.






Local Open Scope Q_scope.



Local Open Scope Z_scope.

(** ** Agreement with the processor *)

(** For the capacities of the registry, the density and the percentage of
    the model are those the processor computes: for every population up
    to the capacity when the capacity is at most 300, and for every
    seventh population of the largest zones. *)
Lemma hardware_classifier :
  forallb (fun capacity =>
             forallb (Hardware.classifier_agrees capacity)
                     (Hardware.upto capacity (if capacity <=? 300 then 1 else 7)))
          (nodup Z.eq_dec (map ZoneConfig.capacity ZONES)) = true.
Proof. vm_compute. reflexivity. Qed.

(** So are the population sum and the coordinate of every zone of the
    registry for the draws 0/64, 1/64, ..., 63/64. *)
Lemma hardware_simulator :
  forallb (fun zone =>
             forallb (Hardware.simulator_agrees (ZoneConfig.capacity zone))
                     (Hardware.upto 63 1))
          ZONES = true.
Proof. vm_compute. reflexivity. Qed.

(** The model and the processor agree on each value quoted above: the
    density of 41 over 40, the percentage beyond the exact capacity, the
    literal 0.3, and population and coordinate for the largest draw. *)
Lemma hardware_samples :
  Hardware.agrees (Hardware.density 41 40) (fmul (fdiv 41 40) 120)
  && Hardware.agrees (Hardware.percentage 1700000000000006 2000000000000007)
       (fmul (fdiv 1700000000000006 2000000000000007) 100)
  && Hardware.agrees Hardware.three_tenths (lit 0.3)
  && Hardware.agrees Hardware.last_draw Sample.last_draw
  && Hardware.agrees (Hardware.population Hardware.last_draw 5880)
       (fadd (fmul 5880 (lit 0.3)) (fmul (fmul Sample.last_draw 5880) (lit 0.5)))
  && Hardware.agrees (Hardware.coordinate Hardware.last_draw)
       (fmul Sample.last_draw 100)
  = true.
Proof. vm_compute. reflexivity. Qed.
